(** * CareerCompass-AI client: text normalisation, score presentation and
      request handlers

    The development embeds the pure helpers of the React components
    ([cleanResponseFormatting], the two [cleanText] variants,
    [textToHtmlParagraphs], [getScoreColor], [getProgressColor]) and the
    event handlers ([handleAnalyze], [handleGenerate], [handleSend]) and
    proves properties of them.

    JavaScript strings are sequences of UTF-16 code units; regular
    expressions are embedded as syntax trees run by a backtracking matcher
    that follows the greedy, leftmost semantics of ECMAScript.  Numbers are
    binary64 values given by their rational value, and an [async] handler
    is also given as the turns it runs in. *)

From Stdlib Require Import List NArith ZArith QArith Qround Qpower Lqa String Ascii Bool Lia Arith.
Import ListNotations.

Set Implicit Arguments.
Set Warnings "-register-all".
Close Scope Q_scope.

(** ** Strings as code-unit sequences *)

Module JsString.

Local Open Scope N_scope.

Definition char := N.
Definition jsstring := list char.

(** An ASCII literal as a JavaScript string. *)
Definition js (s : string) : jsstring :=
  List.map N_of_ascii (list_ascii_of_string s).

(** ECMAScript LineTerminator: LF, CR, LS, PS. *)
Definition isLineTerminator (c : char) : bool :=
  (c =? 10) || (c =? 13) || (c =? 8232) || (c =? 8233).

(** ECMAScript WhiteSpace together with LineTerminator: the class [\s] of
    regular expressions and the characters removed by [String.prototype.trim]. *)
Definition isSpace (c : char) : bool :=
  ((9 <=? c) && (c <=? 13)) || (c =? 32) || (c =? 160) || (c =? 5760)
  || ((8192 <=? c) && (c <=? 8202)) || (c =? 8232) || (c =? 8233)
  || (c =? 8239) || (c =? 8287) || (c =? 12288) || (c =? 65279).

(** The class [\d]. *)
Definition isDigit (c : char) : bool := (48 <=? c) && (c <=? 57).

Definition LF : char := 10.
Definition CR : char := 13.
Definition STAR : char := 42.
Definition PLUS : char := 43.
Definition MINUS : char := 45.
Definition DOT : char := 46.
Definition HASH : char := 35.
Definition GT : char := 62.
Definition UNDERSCORE : char := 95.
Definition DQUOTE : char := 34.

Fixpoint dropWhile (p : char -> bool) (s : jsstring) : jsstring :=
  match s with
  | [] => []
  | c :: s' => if p c then dropWhile p s' else s
  end.

(** [String.prototype.trim]. *)
Definition trim (s : jsstring) : jsstring :=
  rev (dropWhile isSpace (rev (dropWhile isSpace s))).

Definition isEmpty (s : jsstring) : bool :=
  match s with [] => true | _ => false end.

(** A string is trimmed when neither end is white space. *)
Definition trimmed (s : jsstring) : Prop :=
  dropWhile isSpace s = s /\ dropWhile isSpace (rev s) = rev s.

(** [a] is [b] with some code units deleted. *)
Inductive Subseq : jsstring -> jsstring -> Prop :=
| Subseq_nil : Subseq [] []
| Subseq_keep (c : char) (a b : jsstring) : Subseq a b -> Subseq (c :: a) (c :: b)
| Subseq_drop (c : char) (a b : jsstring) : Subseq a b -> Subseq a (c :: b).

End JsString.

(** ** Regular expressions *)

Module Regex.
Import JsString.

(** The fragment of the ECMAScript pattern language used by the components:
    character classes, the multiline [^] assertion, concatenation,
    alternation and greedy repetition. *)
Inductive regex : Type :=
| Eps
| Chr (p : char -> bool)
| Bol
| Seq (a b : regex)
| Alt (a b : regex)
| Star (a : regex).

Definition Plus (a : regex) : regex := Seq a (Star a).
Definition Opt (a : regex) : regex := Alt a Eps.
Definition lit (c : char) : regex := Chr (N.eqb c).

(** A position in the subject is the code unit before it (if any) and the
    rest of the subject. *)
Definition cont := option char -> jsstring -> option jsstring.

(** [^] under the [m] flag: at the start of input or after a line
    terminator. *)
Definition lineStart (prev : option char) : bool :=
  match prev with
  | None => true
  | Some c => isLineTerminator c
  end.

(** Greedy iteration of [body]: an iteration that consumes nothing is
    rejected, so [List.length s] iterations are enough. *)
Fixpoint starLoop (body : option char -> jsstring -> cont -> option jsstring)
    (k : cont) (n : nat) (prev : option char) (s : jsstring) : option jsstring :=
  match n with
  | O => k prev s
  | S n' =>
      match body prev s
              (fun prev' s' =>
                 if Nat.ltb (List.length s') (List.length s)
                 then starLoop body k n' prev' s' else None) with
      | Some e => Some e
      | None => k prev s
      end
  end.

(** Backtracking matcher in continuation-passing style; the result is the
    part of the subject left after the match. *)
Fixpoint rmatch (r : regex) (prev : option char) (s : jsstring) (k : cont)
  : option jsstring :=
  match r with
  | Eps => k prev s
  | Chr p =>
      match s with
      | c :: s' => if p c then k (Some c) s' else None
      | [] => None
      end
  | Bol => if lineStart prev then k prev s else None
  | Seq a b => rmatch a prev s (fun prev' s' => rmatch b prev' s' k)
  | Alt a b =>
      match rmatch a prev s k with
      | Some e => Some e
      | None => rmatch b prev s k
      end
  | Star a => starLoop (rmatch a) k (List.length s) prev s
  end.

(** Length of the match of [r] anchored at the current position. *)
Definition matchAt (r : regex) (prev : option char) (s : jsstring) : option nat :=
  match rmatch r prev s (fun _ rest => Some rest) with
  | Some rest => Some (List.length s - List.length rest)%nat
  | None => None
  end.

(** [String.prototype.replace] with a global pattern and a replacement
    string without [$] patterns.  [skip] counts the code units of the
    current match still to be dropped. *)
Fixpoint replaceGo (r : regex) (rep : jsstring) (prev : option char)
    (s : jsstring) (skip : nat) : jsstring :=
  match s with
  | [] =>
      match skip with
      | O => match matchAt r prev [] with Some _ => rep | None => [] end
      | S _ => []
      end
  | c :: s' =>
      match skip with
      | S n => replaceGo r rep (Some c) s' n
      | O =>
          match matchAt r prev s with
          | None => c :: replaceGo r rep (Some c) s' 0
          | Some O => rep ++ c :: replaceGo r rep (Some c) s' 0
          | Some (S n) => rep ++ replaceGo r rep (Some c) s' n
          end
      end
  end.

Definition replaceAll (r : regex) (rep : jsstring) (s : jsstring) : jsstring :=
  replaceGo r rep None s 0.

(** [String.prototype.split] with a pattern without capture groups and no
    limit.  [cur] is the piece being collected, in reverse. *)
Fixpoint splitGo (r : regex) (prev : option char) (s : jsstring)
    (skip : nat) (cur : jsstring) : list jsstring :=
  match s with
  | [] => [rev cur]
  | c :: s' =>
      match skip with
      | S n => splitGo r (Some c) s' n cur
      | O =>
          match matchAt r prev s with
          | None => splitGo r (Some c) s' 0 (c :: cur)
          | Some O =>
              match cur with
              | [] => splitGo r (Some c) s' 0 [c]
              | _ => rev cur :: splitGo r (Some c) s' 0 [c]
              end
          | Some (S n) => rev cur :: splitGo r (Some c) s' n []
          end
      end
  end.

Definition split (r : regex) (s : jsstring) : list jsstring :=
  match s with
  | [] => match matchAt r None [] with Some _ => [] | None => [[]] end
  | _ => splitGo r None s 0 []
  end.

(** The pattern cannot match at a position whose first code unit
    satisfies [P]. *)
Definition neverStartsWith (r : regex) (P : char -> bool) : Prop :=
  forall c prev s, P c = true -> matchAt r prev (c :: s) = None.

(** The pattern cannot match at the end of the subject. *)
Definition neverAtEnd (r : regex) : Prop :=
  forall prev, matchAt r prev [] = None.

(** The pattern cannot match the empty string. *)
Definition neverEmpty (r : regex) : Prop :=
  forall prev s, matchAt r prev s <> Some O.

(** The position reached after reading [a]. *)
Definition prevAfter (prev : option char) (a : jsstring) : option char :=
  fold_left (fun _ c => Some c) a prev.

End Regex.

(** ** The text normalisers *)

Module Normalizer.
Import JsString Regex.

Definition ws : regex := Chr isSpace.

(** [/(\*\*|\*|__|_)/g] *)
Definition emphasisRe : regex :=
  Alt (Seq (lit STAR) (lit STAR))
    (Alt (lit STAR)
       (Alt (Seq (lit UNDERSCORE) (lit UNDERSCORE)) (lit UNDERSCORE))).

(** The pattern of step 1 of chat-section.tsx: a doubled asterisk or a
    single one, flag [g]. *)
Definition asteriskRe : regex :=
  Alt (Seq (lit STAR) (lit STAR)) (lit STAR).

(** [/^#+\s*/gm] *)
Definition headingRe : regex :=
  Seq Bol (Seq (Plus (lit HASH)) (Star ws)).

Definition isListChar (c : char) : bool :=
  N.eqb c MINUS || N.eqb c PLUS || isDigit c.

(** [/^(\s*[-+\d]+\.?)\s*/gm] *)
Definition listMarkerRe : regex :=
  Seq Bol
    (Seq (Seq (Star ws) (Seq (Plus (Chr isListChar)) (Opt (lit DOT))))
       (Star ws)).

(** [/^>\s*/gm] *)
Definition blockquoteRe : regex :=
  Seq Bol (Seq (lit GT) (Star ws)).

(** [\r?\n] *)
Definition newlineRe : regex := Seq (Opt (lit CR)) (lit LF).

(** [/(\r?\n){3,}/g] *)
Definition newlines3Re : regex :=
  Seq newlineRe (Seq newlineRe (Seq newlineRe (Star newlineRe))).

(** [/\r?\n\s*\r?\n/] *)
Definition paragraphBreakRe : regex :=
  Seq (Opt (lit CR)) (Seq (lit LF) (Seq (Star ws) (Seq (Opt (lit CR)) (lit LF)))).

(** The characters removed as emphasis markers, the asterisk alone, and
    the characters of a line break. *)
Definition isEmphasis (c : char) : bool := N.eqb c STAR || N.eqb c UNDERSCORE.
Definition isAsterisk (c : char) : bool := N.eqb c STAR.
Definition isBreak (c : char) : bool := N.eqb c LF || N.eqb c CR.

(** No line of the text, read from a position after [prev], begins in a
    way that satisfies [bad]. *)
Fixpoint noLineBegins (bad : jsstring -> bool) (prev : option char)
    (t : jsstring) : bool :=
  (if lineStart prev then negb (bad t) else true)
  && match t with
     | [] => true
     | c :: t' => noLineBegins bad (Some c) t'
     end.

(** The line begins with a heading marker. *)
Definition beginsHeading (t : jsstring) : bool :=
  match t with
  | c :: _ => N.eqb c HASH
  | [] => false
  end.

(** The first character after the white space at the line's beginning is
    a hyphen, a plus sign or a digit. *)
Definition beginsListMarker (t : jsstring) : bool :=
  match dropWhile isSpace t with
  | c :: _ => isListChar c
  | [] => false
  end.

(** The line begins with a block-quote marker. *)
Definition beginsBlockquote (t : jsstring) : bool :=
  match t with
  | c :: _ => N.eqb c GT
  | [] => false
  end.

(** No line of the text begins with a heading marker or a list marker
    or, when [quotes] is set, a block-quote marker. *)
Definition residualMarkerFree (quotes : bool) (t : jsstring) : bool :=
  noLineBegins beginsHeading None t
  && noLineBegins beginsListMarker None t
  && (if quotes then noLineBegins beginsBlockquote None t else true).

(** White space that does not end a line. *)
Definition isBlank (c : char) : bool := isSpace c && negb (isLineTerminator c).

(** The text has no line terminator. *)
Definition singleLine (a : jsstring) : bool :=
  forallb (fun c => negb (isLineTerminator c)) a.

(** One line of text without emphasis markers that neither begins nor
    ends with white space. *)
Definition textLine (a : jsstring) : bool :=
  singleLine a
  && forallb (fun c => negb (isEmphasis c)) a
  && match a with c :: _ => negb (isSpace c) | [] => false end
  && match rev a with c :: _ => negb (isSpace c) | [] => false end.

(** A line of text that begins with no heading, list or block-quote
    marker. *)
Definition contentLine (a : jsstring) : bool :=
  textLine a
  && negb (beginsHeading a)
  && negb (beginsListMarker a)
  && negb (beginsBlockquote a).

End Normalizer.


(** ** JavaScript values and the component runtime *)

Module Json.
Import JsString.
Local Open Scope Q_scope.

(** Values as the handlers see them after [response.json()].  An object is
    its own properties in insertion order. *)
Inductive value : Type :=
| VUndefined
| VNull
| VNaN
| VBool (b : bool)
| VNum (q : Q)
| VStr (s : jsstring)
| VArr (items : list value)
| VObj (fields : list (string * value)).

Inductive exn : Type :=
| TypeError
| Error (message : string)
| Rejected.

Definition Result (A : Type) : Type := (exn + A)%type.

Definition rbind {A B : Type} (c : Result A) (k : A -> Result B) : Result B :=
  match c with
  | inl e => inl e
  | inr a => k a
  end.

Notation "'let?' x := c 'in' k" := (rbind c (fun x => k))
  (at level 10, x name, c at level 100, k at level 200).

(** ToBoolean. *)
Definition truthy (v : value) : bool :=
  match v with
  | VUndefined | VNull | VNaN => false
  | VBool b => b
  | VNum q => negb (Qeq_bool q 0)
  | VStr s => negb (isEmpty s)
  | VArr _ | VObj _ => true
  end.

Fixpoint lookup (key : string) (fields : list (string * value)) : value :=
  match fields with
  | [] => VUndefined
  | (k, v) :: rest => if String.eqb k key then v else lookup key rest
  end.

(** [v.key] for a key that is not a built-in property of strings, numbers
    or arrays. *)
Definition getProp (v : value) (key : string) : Result value :=
  match v with
  | VUndefined | VNull => inl TypeError
  | VObj fields => inr (lookup key fields)
  | _ => inr VUndefined
  end.

(** [v[0]]. *)
Definition getFirst (v : value) : Result value :=
  match v with
  | VUndefined | VNull => inl TypeError
  | VArr items => inr (List.hd VUndefined items)
  | VStr s => inr (match s with [] => VUndefined | c :: _ => VStr [c] end)
  | VObj fields => inr (lookup "0" fields)
  | _ => inr VUndefined
  end.

(** *** Numbers

    A Number value is a finite binary64 value, an infinity or NaN; the
    sign of zero is not tracked. *)
Inductive number : Type :=
| Finite (q : Q)
| Infinity (negative : bool)
| NaN.

Definition negate (x : number) : number :=
  match x with
  | Finite q => Finite (Qred (- q))
  | Infinity s => Infinity (negb s)
  | NaN => NaN
  end.

(** The nearest integer, a tie going to the even one. *)
Definition roundHalfEven (x : Q) : Z :=
  let f := Qfloor x in
  match Qcompare (x - inject_Z f) (1 # 2) with
  | Lt => f
  | Gt => (f + 1)%Z
  | Eq => if Z.even f then f else (f + 1)%Z
  end.

(** For [0 < a], the [e] with [2 ^ e <= a < 2 ^ (e + 1)]. *)
Definition binade (a : Q) : Z :=
  let e := (Z.log2 (Qnum a) - Z.log2 (Zpos (Qden a)))%Z in
  if Qle_bool (2 ^ e) a then e else (e - 1)%Z.

(** Round-to-nearest, ties-to-even, of a positive rational to binary64:
    53 significant bits, the least exponent of a unit in the last place
    being -1074, and overflow from [2 ^ 1024]. *)
Definition roundPositive (a : Q) : number :=
  let exponent := Z.max (binade a - 52) (-1074) in
  let r := inject_Z (roundHalfEven (a / 2 ^ exponent)) * 2 ^ exponent in
  if Qle_bool (2 ^ 1024) r then Infinity false else Finite (Qred r).

(** The Number value of a mathematical value. *)
Definition roundDouble (q : Q) : number :=
  match Qcompare q 0 with
  | Eq => Finite 0
  | Gt => roundPositive q
  | Lt => negate (roundPositive (- q))
  end.

(** [x * y] on Number values. *)
Definition multiply (x y : number) : number :=
  match x, y with
  | NaN, _ | _, NaN => NaN
  | Finite a, Finite b => roundDouble (a * b)
  | Infinity s, Finite b | Finite b, Infinity s =>
      match Qcompare b 0 with
      | Eq => NaN
      | Gt => Infinity s
      | Lt => Infinity (negb s)
      end
  | Infinity s, Infinity t => Infinity (xorb s t)
  end.

(** *** StringToNumber *)

Fixpoint span (p : char -> bool) (s : jsstring) : jsstring * jsstring :=
  match s with
  | c :: s' => if p c then let (a, b) := span p s' in (c :: a, b) else ([], s)
  | [] => ([], [])
  end.

Definition isHexDigit (c : char) : bool :=
  isDigit c || (N.leb 97 c && N.leb c 102) || (N.leb 65 c && N.leb c 70).

Definition isOctalDigit (c : char) : bool := N.leb 48 c && N.leb c 55.

Definition isBinaryDigit (c : char) : bool := N.eqb c 48 || N.eqb c 49.

Definition digitValue (c : char) : Z :=
  (if isDigit c then Z.of_N c - 48
   else if N.leb 97 c then Z.of_N c - 87
   else Z.of_N c - 55)%Z.

Definition digitsValue (base : Z) (ds : jsstring) : Z :=
  fold_left (fun acc c => acc * base + digitValue c)%Z ds 0%Z.

(** NonDecimalIntegerLiteral: [0x], [0o] or [0b] (in either case) and at
    least one digit of the base, up to the end of the string. *)
Definition nonDecimalLiteral (s : jsstring) : option Z :=
  match s with
  | 48%N :: p :: d :: ds =>
      let body := d :: ds in
      if (N.eqb p 120 || N.eqb p 88) && forallb isHexDigit body
      then Some (digitsValue 16 body)
      else if (N.eqb p 111 || N.eqb p 79) && forallb isOctalDigit body
      then Some (digitsValue 8 body)
      else if (N.eqb p 98 || N.eqb p 66) && forallb isBinaryDigit body
      then Some (digitsValue 2 body)
      else None
  | _ => None
  end.

(** ExponentPart, up to the end of the string: [None] when the rest is
    not one. *)
Definition exponentPart (s : jsstring) : option Z :=
  match s with
  | [] => Some 0%Z
  | e :: s' =>
      if N.eqb e 101 || N.eqb e 69 then
        let (negative, ds) :=
          match s' with
          | c :: t => if N.eqb c MINUS then (true, t)
                      else if N.eqb c PLUS then (false, t)
                      else (false, s')
          | [] => (false, s')
          end in
        match ds with
        | [] => None
        | _ => if forallb isDigit ds
               then Some (if negative then - digitsValue 10 ds
                          else digitsValue 10 ds)%Z
               else None
        end
      else None
  end.

(** StrUnsignedDecimalLiteral other than [Infinity]: digits with an
    optional fraction, or a fraction alone, and an optional exponent. *)
Definition unsignedDecimal (s : jsstring) : option Q :=
  let (int, rest) := span isDigit s in
  let (frac, rest) :=
    match rest with
    | c :: t => if N.eqb c DOT then span isDigit t else ([], rest)
    | [] => ([], rest)
    end in
  match int, frac with
  | [], [] => None
  | _, _ =>
      match exponentPart rest with
      | Some e =>
          Some (inject_Z (digitsValue 10 (int ++ frac))
                * 10 ^ (e - Z.of_nat (List.length frac)))
      | None => None
      end
  end.

(** StringToNumber: the white space at both ends is dropped; the empty
    string is 0; what is no StringNumericLiteral is NaN. *)
Definition stringToNumber (s : jsstring) : number :=
  let t := trim s in
  match t with
  | [] => Finite 0
  | c :: t' =>
      match nonDecimalLiteral t with
      | Some z => roundDouble (inject_Z z)
      | None =>
          let (negative, body) :=
            if N.eqb c MINUS then (true, t')
            else if N.eqb c PLUS then (false, t')
            else (false, t) in
          if list_eq_dec N.eq_dec body (js "Infinity") then Infinity negative
          else match unsignedDecimal body with
               | Some q => if negative then negate (roundDouble q)
                           else roundDouble q
               | None => NaN
               end
      end
  end.

(** *** Conversions of values *)

Fixpoint hasKey (key : string) (fields : list (string * value)) : bool :=
  match fields with
  | [] => false
  | (k, _) :: rest => String.eqb k key || hasKey key rest
  end.

(** ToString returns.  A parsed object has [Object.prototype] as its
    prototype and only data properties, so its conversion to a primitive
    finds a callable [toString] unless an own key shadows it, and then
    throws a TypeError ([valueOf] gives the object back); an array joins
    the conversions of its elements. *)
Fixpoint stringifies (v : value) : bool :=
  match v with
  | VObj fields => negb (hasKey "toString" fields)
  | VArr items => forallb stringifies items
  | _ => true
  end.

(** A value interpolated in a template literal. *)
Definition interpolated (v : value) : Result value :=
  if stringifies v then inr v else inl TypeError.

(** ToNumber.  A number of the payload is the binary64 value of its
    literal.  An object converts through ["[object Object]"], an array
    through the join of its elements: the empty string for no element, one
    with a comma for two or more, and for one element its string, which
    for a number converts back to that number. *)
Fixpoint toNumber (v : value) : Result number :=
  match v with
  | VUndefined | VNaN => inr NaN
  | VNull => inr (Finite 0)
  | VBool b => inr (Finite (if b then 1 else 0))
  | VNum q => inr (roundDouble q)
  | VStr s => inr (stringToNumber s)
  | VObj fields => if hasKey "toString" fields then inl TypeError else inr NaN
  | VArr items =>
      if forallb stringifies items then
        match items with
        | [] => inr (Finite 0)
        | [item] =>
            match item with
            | VUndefined | VNull => inr (Finite 0)
            | VBool _ | VObj _ => inr NaN
            | _ => toNumber item
            end
        | _ => inr NaN
        end
      else inl TypeError
  end.

(** [v * q]. *)
Definition times (v : value) (q : Q) : Result number :=
  let? x := toNumber v in
  inr (multiply x (roundDouble q)).

(** [v?.length]. *)
Definition optLength (v : value) : value :=
  match v with
  | VArr items => VNum (inject_Z (Z.of_nat (List.length items)))
  | VStr s => VNum (inject_Z (Z.of_nat (List.length s)))
  | VObj fields => lookup "length" fields
  | _ => VUndefined
  end.

(** [a || b]. *)
Definition orElse (a b : value) : value := if truthy a then a else b.

End Json.

Module Runtime.
Import JsString Json.

Record Request : Type := { path : string; payload : value }.

(** What [fetch] resolves to: [json] is [None] when the body is not valid
    JSON. *)
Record Response : Type := { ok : bool; json : option value }.

(** The remote service: [None] is a rejected [fetch]. *)
Definition Server : Type := Request -> option Response.

Inductive Frag : Type :=
| Lit (s : string)
| Interp (v : value).

Record Toast : Type :=
  { title : string; description : list Frag; destructive : bool }.

Inductive Effect : Type :=
| Fetched (r : Request)
| Toasted (t : Toast)
| ConsoleError (e : exn).

(** Handlers run against the service, the component state and the trace of
    effects so far; an exception leaves the state and the trace as they
    were when it was thrown. *)
Definition M (S A : Type) : Type :=
  Server -> S * list Effect -> Result A * (S * list Effect).

Definition ret {S A : Type} (a : A) : M S A := fun _ w => (inr a, w).

Definition bind {S A B : Type} (c : M S A) (k : A -> M S B) : M S B :=
  fun srv w =>
    match c srv w with
    | (inl e, w') => (inl e, w')
    | (inr a, w') => k a srv w'
    end.

Definition throw {S A : Type} (e : exn) : M S A := fun _ w => (inl e, w).

Definition lift {S A : Type} (r : Result A) : M S A := fun _ w => (r, w).

Definition get {S : Type} : M S S := fun _ w => (inr (fst w), w).

Definition modify {S : Type} (f : S -> S) : M S unit :=
  fun _ w => (inr tt, (f (fst w), snd w)).

Definition emit {S : Type} (e : Effect) : M S unit :=
  fun _ w => (inr tt, (fst w, snd w ++ [e])).

Definition toast {S : Type} (t : Toast) : M S unit := emit (Toasted t).

(** [await fetch(...)]. *)
Definition fetch {S : Type} (r : Request) : M S Response :=
  fun srv w =>
    match srv r with
    | Some resp => (inr resp, (fst w, snd w ++ [Fetched r]))
    | None => (inl Rejected, (fst w, snd w ++ [Fetched r]))
    end.

(** [await response.json()]. *)
Definition parseJson {S : Type} (resp : Response) : M S value :=
  match json resp with
  | Some v => ret v
  | None => throw Rejected
  end.

(** [try { body } catch (error) { handler } finally { final }]. *)
Definition tryCatchFinally {S : Type} (body : M S unit)
    (handler : exn -> M S unit) (final : M S unit) : M S unit :=
  fun srv w =>
    let '(r1, w1) := body srv w in
    let '(r2, w2) :=
      match r1 with
      | inl e => handler e srv w1
      | inr _ => (inr tt, w1)
      end in
    let '(r3, w3) := final srv w2 in
    (match r3 with inl e => inl e | inr _ => r2 end, w3).

Definition run {S A : Type} (c : M S A) (srv : Server) (st : S)
  : Result A * (S * list Effect) := c srv (st, []).

(** The state and the trace a run ends with. *)
Definition finalState {S A : Type} (r : Result A * (S * list Effect)) : S :=
  fst (snd r).
Definition finalTrace {S A : Type} (r : Result A * (S * list Effect))
  : list Effect := snd (snd r).

(** The requests issued in a trace. *)
Fixpoint requests (trace : list Effect) : list Request :=
  match trace with
  | [] => []
  | Fetched r :: rest => r :: requests rest
  | _ :: rest => requests rest
  end.

(** The notifications shown in a trace. *)
Fixpoint toasts (trace : list Effect) : list Toast :=
  match trace with
  | [] => []
  | Toasted t :: rest => t :: toasts rest
  | _ :: rest => toasts rest
  end.

Declare Scope handler_scope.
Delimit Scope handler_scope with handler.
Notation "x <- c ;; k" := (bind c (fun x => k))
  (at level 100, c at next level, right associativity) : handler_scope.
Notation "c ;; k" := (bind c (fun _ => k))
  (at level 100, right associativity) : handler_scope.

(** What the opening of a handler's [try] block obtains: the parsed body of
    an ok response, or the exception thrown on the way; [failure] is the
    message of the error thrown for a response that is not ok. *)
Definition received (srv : Server) (req : Request) (failure : string)
  : Result value :=
  match srv req with
  | None => inl Rejected
  | Some response =>
      if negb (ok response) then inl (Error failure)
      else match json response with
           | None => inl Rejected
           | Some data => inr data
           end
  end.

End Runtime.

(** ** The components *)

(** chat-section.tsx *)
Module Chat.
Import JsString Regex Normalizer Json Runtime.
Local Open Scope string_scope.
Local Open Scope list_scope.
Local Open Scope handler_scope.

Definition cleanResponseFormatting (text : jsstring) : jsstring :=
  if isEmpty text then []
  else
    let cleanedText := replaceAll asteriskRe [] text in
    let cleanedText := replaceAll headingRe [] cleanedText in
    let cleanedText := replaceAll listMarkerRe [] cleanedText in
    let cleanedText := replaceAll newlines3Re [LF; LF] cleanedText in
    let cleanedText := trim cleanedText in
    cleanedText.


(** [cleanResponseFormatting(data.response)] on whatever the payload
    holds: a falsy argument gives the empty string, a string is cleaned and
    any other value has no [replace] method. *)
Definition cleanResponse (v : value) : Result jsstring :=
  if negb (truthy v) then inr []
  else match v with
       | VStr text => inr (cleanResponseFormatting text)
       | _ => inl TypeError
       end.

Inductive Role : Type := user | assistant.

Record Message : Type := { role : Role; content : jsstring }.

Record State : Type :=
  { messages : list Message; input : jsstring; isLoading : bool }.

Definition setInput (s : jsstring) : M State unit :=
  modify (fun st => {| messages := messages st; input := s;
                       isLoading := isLoading st |}).

Definition setMessages (f : list Message -> list Message) : M State unit :=
  modify (fun st => {| messages := f (messages st); input := input st;
                       isLoading := isLoading st |}).

Definition setIsLoading (b : bool) : M State unit :=
  modify (fun st => {| messages := messages st; input := input st;
                       isLoading := b |}).

Definition connectionToast : Toast :=
  {| title := "Connection Error";
     description :=
       [Lit "Could not connect to the AI model. Please check the API server."];
     destructive := true |}.

Definition careerRoadmap (query domain : jsstring) : Request :=
  {| path := "/career_roadmap";
     payload := VObj [("query", VStr query); ("domain", VStr domain)] |}.

(** [messageText || input.trim()]. *)
Definition textToSend (messageText : option jsstring) (st : State) : jsstring :=
  match messageText with
  | Some (c :: t) => c :: t
  | _ => trim (input st)
  end.

(** The outcome of the backend call of [handleSend], as its [try] block
    obtains it: the cleaned reply, or the exception that sends control to
    the [catch] block. *)
Definition reply (srv : Server) (req : Request) : Result jsstring :=
  match srv req with
  | None => inl Rejected
  | Some response =>
      if negb (ok response)
      then inl (Error "Failed to get response from AI backend")
      else match json response with
           | None => inl Rejected
           | Some data =>
               let? response := getProp data "response" in
               cleanResponse response
           end
  end.

(** [handleSend] run from its call to its end with nothing in between;
    its two turns are [sendStart] and [sendSettle] below. *)
Definition handleSend (domain : jsstring) (messageText : option jsstring)
  : M State unit :=
  st <- get ;;
  let textToSend := textToSend messageText st in
  if isEmpty textToSend then ret tt
  else
    setInput [] ;;
    setMessages (fun prev => prev ++ [{| role := user; content := textToSend |}]) ;;
    setIsLoading true ;;
    tryCatchFinally
      (response <- fetch (careerRoadmap textToSend domain) ;;
       (if negb (ok response)
        then throw (Error "Failed to get response from AI backend")
        else ret tt) ;;
       data <- parseJson response ;;
       cleanedResponse <- lift (let? response := getProp data "response" in
                                cleanResponse response) ;;
       setMessages
         (fun prev => prev ++ [{| role := assistant; content := cleanedResponse |}]))
      (fun error =>
         emit (ConsoleError error) ;;
         toast connectionToast ;;
         setMessages (fun prev => removelast prev))
      (setIsLoading false).

(** *** The two turns of a send

    [handleSend] is an [async] function: it runs up to the [await] of the
    [fetch], and resumes when the call settles.  Between the two turns
    the page stays live, and the updaters passed to [setMessages] are
    applied to the messages of the time they run. *)

(** The first turn; it returns the text sent, if any. *)
Definition sendStart (domain : jsstring) (messageText : option jsstring)
  : M State (option jsstring) :=
  st <- get ;;
  let textToSend := textToSend messageText st in
  if isEmpty textToSend then ret None
  else
    setInput [] ;;
    setMessages (fun prev => prev ++ [{| role := user; content := textToSend |}]) ;;
    setIsLoading true ;;
    emit (Fetched (careerRoadmap textToSend domain)) ;;
    ret (Some textToSend).

(** The second turn, on the outcome of the call (see [reply]). *)
Definition sendSettle (outcome : Result jsstring) : M State unit :=
  match outcome with
  | inr cleanedResponse =>
      setMessages
        (fun prev => prev ++ [{| role := assistant; content := cleanedResponse |}])
  | inl error =>
      emit (ConsoleError error) ;;
      toast connectionToast ;;
      setMessages (fun prev => removelast prev)
  end ;;
  setIsLoading false.

(** The turns of several sends in the order in which they run. *)
Inductive Turn : Type :=
| Start (messageText : option jsstring)
| Settle (outcome : Result jsstring).

Definition turn (domain : jsstring) (t : Turn) : M State unit :=
  match t with
  | Start messageText => sendStart domain messageText ;; ret tt
  | Settle outcome => sendSettle outcome
  end.

Fixpoint turns (domain : jsstring) (ts : list Turn) : M State unit :=
  match ts with
  | [] => ret tt
  | t :: rest => turn domain t ;; turns domain rest
  end.

(** Every settling follows the start of a call still in flight;
    [pending] is the number of calls in flight before [ts]. *)
Fixpoint causal (domain : jsstring) (srv : Server) (ts : list Turn)
    (pending : nat) (st : State) : bool :=
  match ts with
  | [] => true
  | Start messageText :: rest =>
      causal domain srv rest
        (if isEmpty (textToSend messageText st) then pending else S pending)
        (finalState (run (turn domain (Start messageText)) srv st))
  | Settle outcome :: rest =>
      match pending with
      | O => false
      | S n =>
          causal domain srv rest n
            (finalState (run (turn domain (Settle outcome)) srv st))
      end
  end.

(** Two of the suggested questions, and a service that fails on the first
    and answers the second. *)
Definition keySkills : jsstring :=
  js "What are the key skills I should focus on to advance my career?".

Definition seniorRole : jsstring :=
  js "How can I transition from my current position to a senior role?".

Definition failsOnKeySkills : Server :=
  fun req =>
    match payload req with
    | VObj (("query", VStr q) :: _) =>
        if list_eq_dec N.eq_dec q keySkills then None
        else Some {| ok := true;
                     json := Some (VObj [("response",
                                          VStr (js "Lead a project end to end."))]) |}
    | _ => None
    end.

(** The greeting of the mount effect; [domain] is the component's prop. *)
Definition welcomeMessage (domain : jsstring) : Message :=
  {| role := assistant;
     content :=
       js "Hello! I see you're interested in the " ++ domain
       ++ js " field. I'm your AI Career Advisor. Ask me anything about skill development, salary negotiation, interview prep, or your career roadmap. Let's start!" |}.

(** The state change of the effect that runs whenever [messages] or
    [domain] change (the scrolling it also does is left to the page). *)
Definition welcomeEffect (domain : jsstring) : M State unit :=
  st <- get ;;
  if Nat.eqb (List.length (messages st)) 0
  then setMessages (fun _ => [welcomeMessage domain])
  else ret tt.

Definition clearedToast : Toast :=
  {| title := "Chat cleared";
     description :=
       [Lit "Conversation history has been reset. Advisor will greet you again."];
     destructive := false |}.

Definition handleClearChat : M State unit :=
  setMessages (fun _ => []) ;;
  toast clearedToast.

Definition handleQuickQuestion (domain question : jsstring) : M State unit :=
  handleSend domain (Some question).

(** [key] and [shiftKey] are the fields of the keyboard event. *)
Definition handleKeyPress (domain : jsstring) (key : string) (shiftKey : bool)
  : M State unit :=
  if String.eqb key "Enter" && negb shiftKey
  then handleSend domain None
  else ret tt.

End Chat.

(** salary-insights-section.tsx *)
Module SalaryInsights.
Import JsString Regex Normalizer.

Definition cleanText (text : jsstring) : jsstring :=
  if isEmpty text then []
  else
    let cleanedText := replaceAll emphasisRe [] text in
    let cleanedText := replaceAll headingRe [] cleanedText in
    let cleanedText := replaceAll listMarkerRe [] cleanedText in
    let cleanedText := replaceAll blockquoteRe [] cleanedText in
    let cleanedText := trim cleanedText in
    cleanedText.

Import Json Runtime.
Local Open Scope string_scope.
Local Open Scope list_scope.
Local Open Scope handler_scope.

(** [cleanText] applied to a payload value: a falsy argument gives the
    empty string and only strings have a [replace] method. *)
Definition cleanItem (v : value) : Result jsstring :=
  if negb (truthy v) then inr []
  else match v with
       | VStr text => inr (cleanText text)
       | _ => inl TypeError
       end.

Fixpoint cleanItems (items : list value) : Result (list jsstring) :=
  match items with
  | [] => inr []
  | v :: rest =>
      let? s := cleanItem v in
      let? ss := cleanItems rest in
      inr (s :: ss)
  end.

(** [v.map(cleanText)]: only arrays have a [map] method. *)
Definition mapCleanText (v : value) : Result (list jsstring) :=
  match v with
  | VArr items => cleanItems items
  | _ => inl TypeError
  end.

Record SalaryInsights : Type :=
  { estimated_range : jsstring;
    factors : list jsstring;
    negotiation_tips : list jsstring }.

Record State : Type :=
  { isLoading : bool; insights : option SalaryInsights }.

Definition setIsLoading (b : bool) : M State unit :=
  modify (fun st => {| isLoading := b; insights := insights st |}).

Definition setInsights (i : option SalaryInsights) : M State unit :=
  modify (fun st => {| isLoading := isLoading st; insights := i |}).

Definition failedToast : Toast :=
  {| title := "Failed to load salary insights";
     description :=
       [Lit "Could not connect to the API or received bad data. Please try again."];
     destructive := true |}.

(** The request of [fetch(`${API_URL}/salary_insights`)]: no body. *)
Definition salaryInsights : Request :=
  {| path := "/salary_insights"; payload := VUndefined |}.

(** The validation and cleaning of the received [data]. *)
Definition cleanData (data : value) : Result SalaryInsights :=
  let? range := getProp data "estimated_range" in
  let? factors := getProp data "factors" in
  let? tips := getProp data "negotiation_tips" in
  if negb (truthy range) || negb (truthy factors) || negb (truthy tips)
  then inl (Error "API returned incomplete data structure.")
  else
    let? er := cleanItem range in
    let? fs := mapCleanText factors in
    let? ts := mapCleanText tips in
    inr {| estimated_range := er; factors := fs; negotiation_tips := ts |}.

Definition fetchInsights : M State unit :=
  setIsLoading true ;;
  setInsights None ;;
  tryCatchFinally
    (response <- fetch salaryInsights ;;
     (if negb (ok response)
      then throw (Error "Failed to fetch salary insights")
      else ret tt) ;;
     data <- parseJson response ;;
     cleanedData <- lift (cleanData data) ;;
     setInsights (Some cleanedData))
    (fun error => emit (ConsoleError error) ;; toast failedToast)
    (setIsLoading false).

(** What the component renders: the loading card, the "Insights
    Unavailable" card, or the cards of the insights. *)
Inductive View : Type :=
| Loading
| Unavailable
| Insights (i : SalaryInsights).

Definition render (st : State) : View :=
  if isLoading st then Loading
  else match insights st with
       | None => Unavailable
       | Some i => if isEmpty (estimated_range i) then Unavailable else Insights i
       end.

End SalaryInsights.

(** interview-prep-section.tsx *)
Module InterviewPrep.
Import JsString Regex Normalizer Json Runtime.
Local Open Scope string_scope.
Local Open Scope list_scope.
Local Open Scope handler_scope.

Definition cleanText (text : jsstring) : jsstring :=
  if isEmpty text then []
  else
    let cleanedText := replaceAll emphasisRe [] text in
    let cleanedText := replaceAll headingRe [] cleanedText in
    let cleanedText := replaceAll listMarkerRe [] cleanedText in
    let cleanedText := trim cleanedText in
    cleanedText.


(** [cleanText] as the callback of [Array.prototype.map] over payload
    items. *)
Definition cleanItem (v : value) : Result jsstring :=
  if negb (truthy v) then inr []
  else match v with
       | VStr text => inr (cleanText text)
       | _ => inl TypeError
       end.

Fixpoint cleanItems (items : list value) : Result (list jsstring) :=
  match items with
  | [] => inr []
  | v :: rest =>
      let? s := cleanItem v in
      let? ss := cleanItems rest in
      inr (s :: ss)
  end.

(** [v.map(cleanText)]: only arrays have a [map] method. *)
Definition mapCleanText (v : value) : Result (list jsstring) :=
  match v with
  | VArr items => cleanItems items
  | _ => inl TypeError
  end.

Record InterviewPrepData : Type :=
  { technical_questions : list jsstring;
    behavioral_questions : list jsstring;
    key_talking_points : list jsstring;
    questions_to_ask : list jsstring }.

Record State : Type :=
  { jobRequirement : jsstring;
    isGenerating : bool;
    prepData : option InterviewPrepData }.

Definition setIsGenerating (b : bool) : M State unit :=
  modify (fun st => {| jobRequirement := jobRequirement st;
                       isGenerating := b;
                       prepData := prepData st |}).

Definition setPrepData (d : option InterviewPrepData) : M State unit :=
  modify (fun st => {| jobRequirement := jobRequirement st;
                       isGenerating := isGenerating st;
                       prepData := d |}).

Definition requiredToast : Toast :=
  {| title := "Job requirement required";
     description := [Lit "Please enter a job description"];
     destructive := true |}.

Definition readyToast : Toast :=
  {| title := "Interview prep ready";
     description := [Lit "Your personalized interview guide is ready"];
     destructive := false |}.

Definition failedToast : Toast :=
  {| title := "Generation failed";
     description :=
       [Lit "Could not connect to the API or received bad data. Please try again."];
     destructive := true |}.

Definition interviewPrep (jobRequirement : jsstring) : Request :=
  {| path := "/interview_prep";
     payload := VObj [("job_requirement", VStr jobRequirement)] |}.

(** The validation and cleaning of the received [data]. *)
Definition cleanData (data : value) : Result InterviewPrepData :=
  let? technical := getProp data "technical_questions" in
  let? behavioral := getProp data "behavioral_questions" in
  if negb (truthy technical) || negb (truthy behavioral)
  then inl (Error "API returned incomplete data structure.")
  else
    let? tq := mapCleanText technical in
    let? bq := mapCleanText behavioral in
    let? talking := getProp data "key_talking_points" in
    let? kt := (if truthy talking then mapCleanText talking else inr []) in
    let? asking := getProp data "questions_to_ask" in
    let? qa := (if truthy asking then mapCleanText asking else inr []) in
    inr {| technical_questions := tq;
           behavioral_questions := bq;
           key_talking_points := kt;
           questions_to_ask := qa |}.

Definition handleGenerate : M State unit :=
  st <- get ;;
  if isEmpty (trim (jobRequirement st)) then toast requiredToast
  else
    setIsGenerating true ;;
    setPrepData None ;;
    tryCatchFinally
      (response <- fetch (interviewPrep (jobRequirement st)) ;;
       (if negb (ok response) then throw (Error "Generation failed") else ret tt) ;;
       data <- parseJson response ;;
       cleanedData <- lift (cleanData data) ;;
       setPrepData (Some cleanedData) ;;
       toast readyToast)
      (fun error => emit (ConsoleError error) ;; toast failedToast)
      (setIsGenerating false).

End InterviewPrep.

(** cover-letter-section.tsx *)
Module CoverLetter.
Import JsString Regex Normalizer Json Runtime.
Local Open Scope string_scope.
Local Open Scope list_scope.
Local Open Scope handler_scope.

Definition paragraphOpen : jsstring :=
  js "<p class=" ++ [DQUOTE] ++ js "mb-4 leading-relaxed" ++ [DQUOTE] ++ js ">".
Definition paragraphClose : jsstring := js "</p>".
Definition lineBreak : jsstring := js "<br>".

(** The pieces kept by [split] and [filter]. *)
Definition paragraphs (text : jsstring) : list jsstring :=
  let cleanedText := trim (replaceAll emphasisRe [] text) in
  filter (fun p => negb (isEmpty (trim p))) (split paragraphBreakRe cleanedText).

(** A character of plain text: no emphasis marker and no line break. *)
Definition plainChar (c : char) : bool :=
  negb (N.eqb c STAR || N.eqb c UNDERSCORE || N.eqb c LF || N.eqb c CR).

(** A line of plain text that neither begins nor ends with white space. *)
Definition plainLine (l : jsstring) : bool :=
  forallb plainChar l
  && match l with c :: _ => negb (isSpace c) | [] => false end
  && match rev l with c :: _ => negb (isSpace c) | [] => false end.

(** The [content] of every [<p>] element. *)
Definition paragraphContents (text : jsstring) : list jsstring :=
  List.map (fun p => replaceAll newlineRe lineBreak p) (paragraphs text).

(** The [__html] field of the result. *)
Definition textToHtmlParagraphs (text : jsstring) : jsstring :=
  if isEmpty text then []
  else
    List.concat (List.map (fun content => paragraphOpen ++ content ++ paragraphClose)
              (paragraphContents text)).

(** *** Letters as they are written

    A paragraph is a first line and further lines, each with the line
    break written before it ([true] for CR LF, [false] for LF); a letter
    is a first paragraph and further paragraphs, each with the separator
    written before it. *)
Definition Block : Type := (jsstring * list (bool * jsstring))%type.

Definition newline (crlf : bool) : jsstring :=
  if crlf then [CR; LF] else [LF].

Definition blockText (b : Block) : jsstring :=
  fst b ++ List.concat (List.map (fun l => newline (fst l) ++ snd l) (snd b)).

(** The paragraph with [<br>] for each of its line breaks. *)
Definition blockContent (b : Block) : jsstring :=
  fst b ++ List.concat (List.map (fun l => lineBreak ++ snd l) (snd b)).

Definition plainBlock (b : Block) : bool :=
  plainLine (fst b) && forallb (fun l => plainLine (snd l)) (snd b).

(** A boundary between paragraphs: a line break, any white space (further
    line breaks and blank lines included) and a line feed at the end. *)
Definition isSeparator (sep : jsstring) : bool :=
  match (match sep with
         | c :: t => if N.eqb c CR then t else sep
         | [] => []
         end) with
  | c :: t =>
      N.eqb c LF && forallb isSpace t
      && match rev t with l :: _ => N.eqb l LF | [] => false end
  | [] => false
  end.

(** The text ends with a character that is not white space. *)
Definition endsPlain (s : jsstring) : Prop :=
  exists pre y, s = pre ++ [y] /\ isSpace y = false.

Definition letterText (first : Block) (rest : list (jsstring * Block))
  : jsstring :=
  blockText first
  ++ List.concat (List.map (fun p => fst p ++ blockText (snd p)) rest).

Definition wellFormed (first : Block) (rest : list (jsstring * Block)) : bool :=
  plainBlock first
  && forallb (fun p => isSeparator (fst p) && plainBlock (snd p)) rest.


Record State : Type :=
  { jobRequirement : jsstring;
    companyName : jsstring;
    isGenerating : bool;
    coverLetter : value }.

Definition setIsGenerating (b : bool) : M State unit :=
  modify (fun st => {| jobRequirement := jobRequirement st;
                       companyName := companyName st;
                       isGenerating := b;
                       coverLetter := coverLetter st |}).

Definition setCoverLetter (v : value) : M State unit :=
  modify (fun st => {| jobRequirement := jobRequirement st;
                       companyName := companyName st;
                       isGenerating := isGenerating st;
                       coverLetter := v |}).

Definition requiredToast : Toast :=
  {| title := "Job requirement required";
     description := [Lit "Please enter a job description"];
     destructive := true |}.

Definition generatedToast : Toast :=
  {| title := "Cover letter generated";
     description := [Lit "Your personalized cover letter is ready"];
     destructive := false |}.

Definition failedToast : Toast :=
  {| title := "Generation failed";
     description := [Lit "Please check your network and API connection."];
     destructive := true |}.

(** [companyName.trim() || "Hiring Team"]. *)
Definition companyNameOrDefault (companyName : jsstring) : jsstring :=
  if isEmpty (trim companyName) then js "Hiring Team" else trim companyName.

Definition generateCoverLetter (jobRequirement companyName : jsstring) : Request :=
  {| path := "/generate_cover_letter";
     payload := VObj [("job_requirement", VStr jobRequirement);
                      ("company_name", VStr (companyNameOrDefault companyName))] |}.

Definition handleGenerate : M State unit :=
  st <- get ;;
  if isEmpty (trim (jobRequirement st)) then toast requiredToast
  else
    setIsGenerating true ;;
    setCoverLetter (VStr []) ;;
    tryCatchFinally
      (response <- fetch (generateCoverLetter (jobRequirement st) (companyName st)) ;;
       (if negb (ok response) then throw (Error "Generation failed") else ret tt) ;;
       data <- parseJson response ;;
       cover_letter <- lift (getProp data "cover_letter") ;;
       (if truthy cover_letter then setCoverLetter cover_letter
        else throw (Error "Received empty cover letter")) ;;
       toast generatedToast)
      (fun _ => toast failedToast)
      (setIsGenerating false).

End CoverLetter.

(** analysis-section.tsx *)
Module Analysis.
Import JsString Json Runtime.
Local Open Scope Q_scope.
Local Open Scope string_scope.
Local Open Scope list_scope.
Local Open Scope handler_scope.

Record State : Type :=
  { jobRequirement : jsstring; isAnalyzing : bool; analysisResult : value }.

Definition setIsAnalyzing (b : bool) : M State unit :=
  modify (fun st => {| jobRequirement := jobRequirement st;
                       isAnalyzing := b;
                       analysisResult := analysisResult st |}).

Definition setAnalysisResult (v : value) : M State unit :=
  modify (fun st => {| jobRequirement := jobRequirement st;
                       isAnalyzing := isAnalyzing st;
                       analysisResult := v |}).

Definition requiredToast : Toast :=
  {| title := "Job requirement required";
     description := [Lit "Please enter a job description"];
     destructive := true |}.

Definition completeToast (score : value) : Toast :=
  {| title := "Analysis complete";
     description := [Lit "ATS Score: "; Interp score; Lit "%"];
     destructive := false |}.

Definition failedToast : Toast :=
  {| title := "Analysis failed";
     description := [Lit "Please try again"];
     destructive := true |}.

Definition rateResumes (jobRequirement : jsstring) : Request :=
  {| path := "/rate_resumes";
     payload := VObj [("job_requirement", VStr jobRequirement)] |}.

Definition handleAnalyze : M State unit :=
  st <- get ;;
  if isEmpty (trim (jobRequirement st)) then toast requiredToast
  else
    setIsAnalyzing true ;;
    tryCatchFinally
      (response <- fetch (rateResumes (jobRequirement st)) ;;
       (if negb (ok response) then throw (Error "Analysis failed") else ret tt) ;;
       data <- parseJson response ;;
       first <- lift (let? results := getProp data "results" in getFirst results) ;;
       setAnalysisResult first ;;
       score <- lift (let? results := getProp data "results" in
                      let? first := getFirst results in
                      let? score := getProp first "score" in
                      interpolated score) ;;
       toast (completeToast score))
      (fun _ => toast failedToast)
      (setIsAnalyzing false).

Definition getScoreColor (score : Q) : string :=
  if Qle_bool 85 score then "text-green-600 dark:text-green-400"
  else if Qle_bool 70 score then "text-yellow-600 dark:text-yellow-400"
  else if Qle_bool 50 score then "text-orange-600 dark:text-orange-400"
  else "text-red-600 dark:text-red-400".

Definition getProgressColor (score : Q) : string :=
  if Qle_bool 85 score then "bg-green-600"
  else if Qle_bool 70 score then "bg-yellow-600"
  else if Qle_bool 50 score then "bg-orange-600"
  else "bg-red-600".

(** The bands in increasing order, read off the class names: red, orange,
    yellow, green. *)
Definition scoreColorBand (cls : string) : nat :=
  if String.eqb cls "text-green-600 dark:text-green-400" then 3
  else if String.eqb cls "text-yellow-600 dark:text-yellow-400" then 2
  else if String.eqb cls "text-orange-600 dark:text-orange-400" then 1
  else 0.

Definition progressColorBand (cls : string) : nat :=
  if String.eqb cls "bg-green-600" then 3
  else if String.eqb cls "bg-yellow-600" then 2
  else if String.eqb cls "bg-orange-600" then 1
  else 0.

(** A value placed among the children of an element: React renders
    strings and numbers, skips booleans, [null] and [undefined], walks
    arrays, and throws an [Error] for any other object (its message goes on
    to list the keys found). *)
Fixpoint validChild (v : value) : bool :=
  match v with
  | VObj _ => false
  | VArr items => forallb validChild items
  | _ => true
  end.

Definition child (v : value) : Result value :=
  if validChild v then inr v
  else inl (Error "Objects are not valid as a React child").

(** One labelled bar of the score card: the caption, the figure printed
    before the percent sign and the [value] of the [Progress] bar. *)
Inductive BarValue : Type :=
| AsReceived (v : value)
| Computed (x : number).

Record ProgressRow : Type :=
  { label : string; shown : value; progress : BarValue }.

(** The "Overall Match" figure. *)
Definition overallMatch (analysisResult : value) : Result value :=
  let? score := getProp analysisResult "score" in
  child score.

(** The "Score Breakdown" block.  The product of the third bar is
    computed when the element is built, before React looks at the
    children. *)
Definition scoreBreakdownRows (analysisResult : value)
  : Result (list ProgressRow) :=
  if truthy analysisResult then
    let? breakdown := getProp analysisResult "score_breakdown" in
    if truthy breakdown then
      let? skill_match := getProp breakdown "skill_match" in
      let? semantic_similarity := getProp breakdown "semantic_similarity" in
      let? keyword_density_bonus := getProp breakdown "keyword_density_bonus" in
      let? scaled := times keyword_density_bonus 10 in
      let? skill_match := child skill_match in
      let? semantic_similarity := child semantic_similarity in
      let? keyword_density_bonus := child keyword_density_bonus in
      inr [ {| label := "Keyword Match (60%)";
               shown := skill_match;
               progress := AsReceived skill_match |};
            {| label := "Content Match (30%)";
               shown := semantic_similarity;
               progress := AsReceived semantic_similarity |};
            {| label := "Density Bonus (10%)";
               shown := keyword_density_bonus;
               progress := Computed scaled |} ]
    else inr []
  else inr [].

(** The badge of the "Matching Keywords" card. *)
Definition matchingKeywordsBadge (analysisResult : value) : Result value :=
  let? keyword_analysis := getProp analysisResult "keyword_analysis" in
  let? matching_keywords := getProp keyword_analysis "matching_keywords" in
  inr (orElse (optLength matching_keywords) (VNum 0)).

(** A payload for /rate_resumes whose only result lacks the
    [keyword_analysis] key. *)
Definition resultWithoutKeywordAnalysis : value :=
  VObj [ ("score", VNum 72%Q);
         ("summary", VStr (js "Solid match"));
         ("ats_status", VObj [ ("level", VStr (js "medium"));
                               ("label", VStr (js "Good Match")) ]);
         ("score_breakdown", VObj [ ("skill_match", VNum 70%Q);
                                    ("semantic_similarity", VNum 80%Q);
                                    ("keyword_density_bonus", VNum 6%Q) ]);
         ("recommendations", VArr []) ].

Definition incompleteService : Server :=
  fun _ => Some {| ok := true;
                   json := Some (VObj [("results",
                                        VArr [resultWithoutKeywordAnalysis])]) |}.

(** A result whose score, 99, is not what the formula of the specification
    gives for its breakdown (1, 0, 0). *)
Definition resultWithOtherScore : value :=
  VObj [ ("score", VNum 99%Q);
         ("score_breakdown", VObj [ ("skill_match", VNum 1%Q);
                                    ("semantic_similarity", VNum 0%Q);
                                    ("keyword_density_bonus", VNum 0%Q) ]) ].

End Analysis.

(** The Match Scorer of the specification, section 4.1. *)
Module Scorer.
Import JsString Json.
Local Open Scope Q_scope.

Record ScoreBreakdown : Type :=
  { skillMatch : Q; semanticSimilarity : Q; keywordDensityBonus : Q }.

Definition validBreakdown (b : ScoreBreakdown) : Prop :=
  (0 <= skillMatch b /\ skillMatch b <= 100) /\
  (0 <= semanticSimilarity b /\ semanticSimilarity b <= 100) /\
  (0 <= keywordDensityBonus b /\ keywordDensityBonus b <= 10).

(** Rounding to the nearest integer, halves upwards. *)
Definition round (x : Q) : Z := Qfloor (x + (1 # 2)).

Definition weightedSum (b : ScoreBreakdown) : Q :=
  (6 # 10) * skillMatch b + (3 # 10) * semanticSimilarity b
  + (keywordDensityBonus b / 10) * 100 * (1 # 10).

(** Modelled from the spec: the combination step of the Match Scorer
    (section 4.1, step 5), which runs in the remote service and is not part
    of the client sources: the weighted sum of the three sub-scores, rounded
    to the nearest integer and clamped to [0, 100]. *)
Definition combineScore (b : ScoreBreakdown) : Z :=
  Z.max 0 (Z.min 100 (round (weightedSum b))).

(** A breakdown for which the formula gives 1: 0.6 rounds to 1. *)
Definition breakdownOfOne : ScoreBreakdown :=
  {| skillMatch := 1; semanticSimilarity := 0; keywordDensityBonus := 0 |}.

End Scorer.

(** * Properties *)

(** ** Numbers *)

Section NumberFacts.
Import JsString Json.
Local Open Scope Q_scope.

Lemma pow2_pos (x : Z) : 0 < 2 ^ x.
Proof. apply Qpower_0_lt. reflexivity. Qed.

Lemma pow2_add (x y : Z) : 2 ^ (x + y) == 2 ^ x * 2 ^ y.
Proof. apply Qpower_plus. discriminate. Qed.

Lemma pow2_le (x y : Z) : (x <= y)%Z -> 2 ^ x <= 2 ^ y.
Proof. intro H. apply Qpower_le_compat_l; [exact H | discriminate]. Qed.

Lemma pow2_lt_inv (x y : Z) : 2 ^ x < 2 ^ y -> (x < y)%Z.
Proof.
  intro H. destruct (Z.lt_ge_cases x y) as [L | G]; [exact L|].
  apply pow2_le in G. exfalso. apply (Qlt_not_le _ _ H G).
Qed.

Lemma pow2_inject (x : Z) : (0 <= x)%Z -> inject_Z (2 ^ x) == 2 ^ x.
Proof. intro H. now rewrite Zpower_Qpower. Qed.

Lemma binade_bounds (a : Q) :
  0 < a -> 2 ^ binade a <= a /\ a < 2 ^ (binade a + 1).
Proof.
  intro P. unfold binade.
  destruct a as [n d]. cbn [Qnum Qden].
  assert (N : (0 < n)%Z) by (unfold Qlt in P; simpl in P; lia).
  set (ln := Z.log2 n). set (ld := Z.log2 (Z.pos d)).
  destruct (Z.log2_spec n N) as [N1 N2]. fold ln in N1, N2.
  destruct (Z.log2_spec (Z.pos d) (Pos2Z.is_pos d)) as [D1 D2]. fold ld in D1, D2.
  assert (Ln : (0 <= ln)%Z) by apply Z.log2_nonneg.
  assert (Ld : (0 <= ld)%Z) by apply Z.log2_nonneg.
  assert (QN1 : 2 ^ ln <= inject_Z n).
  { rewrite <- pow2_inject by exact Ln. now rewrite <- Zle_Qle. }
  assert (QN2 : inject_Z n < 2 ^ (ln + 1)).
  { rewrite <- pow2_inject by lia. now rewrite <- Zlt_Qlt. }
  assert (QD1 : 2 ^ ld <= inject_Z (Z.pos d)).
  { rewrite <- pow2_inject by exact Ld. now rewrite <- Zle_Qle. }
  assert (QD2 : inject_Z (Z.pos d) < 2 ^ (ld + 1)).
  { rewrite <- pow2_inject by lia. now rewrite <- Zlt_Qlt. }
  assert (Dp : 0 < inject_Z (Z.pos d)) by (rewrite <- (Zlt_Qlt 0); lia).
  assert (E : n # d == inject_Z n / inject_Z (Z.pos d)) by apply Qmake_Qdiv.
  assert (L : 2 ^ (ln - ld - 1) <= n # d).
  { rewrite E. apply Qle_shift_div_l; [exact Dp|].
    pose proof (pow2_add (ln - ld - 1) (ld + 1)) as A.
    replace (ln - ld - 1 + (ld + 1))%Z with ln in A by lia.
    pose proof (pow2_pos (ln - ld - 1)) as X.
    apply Qle_trans with (2 ^ ln); [|exact QN1].
    rewrite A. apply Qmult_le_l; [exact X|]. now apply Qlt_le_weak. }
  assert (U : n # d < 2 ^ (ln - ld + 1)).
  { rewrite E. apply Qlt_shift_div_r; [exact Dp|].
    pose proof (pow2_add (ln - ld + 1) ld) as A.
    replace (ln - ld + 1 + ld)%Z with (ln + 1)%Z in A by lia.
    pose proof (pow2_pos (ln - ld + 1)) as X.
    apply Qlt_le_trans with (2 ^ (ln + 1)); [exact QN2|].
    rewrite A. apply Qmult_le_l; [exact X | exact QD1]. }
  destruct (Qle_bool (2 ^ (ln - ld)) (n # d)) eqn:T.
  - apply Qle_bool_iff in T. split; [exact T | exact U].
  - split; [exact L|].
    replace (ln - ld - 1 + 1)%Z with (ln - ld)%Z by lia.
    apply Qnot_le_lt. intro C. apply Qle_bool_iff in C. congruence.
Qed.

Lemma roundHalfEven_near (x : Q) :
  - (1 # 2) <= inject_Z (roundHalfEven x) - x /\
  inject_Z (roundHalfEven x) - x <= 1 # 2.
Proof.
  unfold roundHalfEven.
  pose proof (Qfloor_le x) as F1. pose proof (Qlt_floor x) as F2.
  rewrite inject_Z_plus in F2. change (inject_Z 1) with 1 in F2.
  set (f := Qfloor x) in *.
  assert (P1 : inject_Z (f + 1) == inject_Z f + 1)
    by (rewrite inject_Z_plus; reflexivity).
  destruct (Qcompare_spec (x - inject_Z f) (1 # 2)) as [E | L | G].
  - destruct (Z.even f); [|rewrite P1]; lra.
  - lra.
  - rewrite P1. lra.
Qed.

Lemma roundPositive_accurate (a : Q) :
  2 ^ (-1022) <= a -> a < 2 ^ 1023 ->
  exists p, roundPositive a = Finite p /\
            - (a * 2 ^ (-53)) <= p - a /\ p - a <= a * 2 ^ (-53).
Proof.
  intros Lo Hi.
  assert (P : 0 < a) by (eapply Qlt_le_trans; [apply (pow2_pos (-1022)) | exact Lo]).
  destruct (binade_bounds P) as [B1 B2].
  unfold roundPositive. set (e := binade a) in *.
  assert (E1 : (-1022 <= e)%Z).
  { assert (2 ^ (-1022) < 2 ^ (e + 1)) by (eapply Qle_lt_trans; eassumption).
    apply pow2_lt_inv in H. lia. }
  assert (E2 : (e <= 1022)%Z).
  { assert (2 ^ e < 2 ^ 1023) by (eapply Qle_lt_trans; eassumption).
    apply pow2_lt_inv in H. lia. }
  replace (Z.max (e - 52) (-1074)) with (e - 52)%Z by lia.
  set (s := 2 ^ (e - 52)).
  assert (S0 : 0 < s) by apply pow2_pos.
  destruct (roundHalfEven_near (a / s)) as [R1 R2].
  set (m := inject_Z (roundHalfEven (a / s))) in *.
  assert (X : a / s * s == a) by (field; lra).
  assert (S52 : 2 ^ e == s * 2 ^ 52).
  { unfold s. rewrite <- pow2_add. now replace (e - 52 + 52)%Z with e by lia. }
  assert (S970 : s <= 2 ^ 970) by (apply pow2_le; lia).
  assert (T1 : 2 ^ 970 <= 2 ^ 1023) by (apply pow2_le; lia).
  assert (T2 : 2 ^ 1024 == 2 ^ 1023 * 2 ^ 1) by (apply (pow2_add 1023 1)).
  assert (D1 : - (s * (1 # 2)) <= m * s - a).
  { setoid_replace (m * s - a) with ((m - a / s) * s) by (rewrite <- X at 1; ring).
    setoid_replace (- (s * (1 # 2))) with (- (1 # 2) * s) by ring.
    apply Qmult_le_r; [exact S0 | exact R1]. }
  assert (D2 : m * s - a <= s * (1 # 2)).
  { setoid_replace (m * s - a) with ((m - a / s) * s) by (rewrite <- X at 1; ring).
    setoid_replace (s * (1 # 2)) with ((1 # 2) * s) by ring.
    apply Qmult_le_r; [exact S0 | exact R2]. }
  change (2 ^ 52) with (4503599627370496 # 1) in S52.
  change (2 ^ 1) with (2 # 1) in T2.
  change (2 ^ (-53)) with (1 # 9007199254740992).
  set (t970 := 2 ^ 970) in *. set (t1023 := 2 ^ 1023) in *.
  set (t1024 := 2 ^ 1024) in *. set (te := 2 ^ e) in *.
  destruct (Qle_bool t1024 (m * s)) eqn:O.
  - apply Qle_bool_iff in O. exfalso. lra.
  - exists (Qred (m * s)). split; [reflexivity|].
    rewrite Qred_correct. split; lra.
Qed.

Lemma roundDouble_positive (a : Q) : 0 < a -> roundDouble a = roundPositive a.
Proof. intro P. unfold roundDouble. now rewrite (proj1 (Qgt_alt a 0) P). Qed.

Lemma roundDouble_ten : roundDouble 10 = Finite 10.
Proof. vm_compute. reflexivity. Qed.

(** The product [k * 10] of a positive normal [k] up to 10 is finite and
    within the relative error of two roundings of ten times [k]. *)
Lemma times_ten_accurate (k : Q) :
  2 ^ (-1022) <= k -> k <= 10 ->
  exists p, times (VNum k) 10 = inr (Finite p) /\
            - (10 * k * 2 ^ (-51)) <= p - 10 * k /\
            p - 10 * k <= 10 * k * 2 ^ (-51).
Proof.
  intros Lo Hi.
  assert (P : 0 < k) by (eapply Qlt_le_trans; [apply (pow2_pos (-1022)) | exact Lo]).
  assert (T7 : 2 ^ 7 <= 2 ^ 1023) by (apply pow2_le; lia).
  change (2 ^ 7) with (128 # 1) in T7.
  assert (Hi' : k < 2 ^ 1023) by lra.
  destruct (roundPositive_accurate Lo Hi') as (k' & Ek & K1 & K2).
  unfold times. cbn [toNumber rbind].
  rewrite (roundDouble_positive P), Ek, roundDouble_ten. cbn [multiply].
  change (2 ^ (-53)) with (1 # 9007199254740992) in *.
  assert (P' : 0 < k' * 10) by lra.
  assert (Lo' : 2 ^ (-1022) <= k' * 10) by lra.
  assert (Hi'' : k' * 10 < 2 ^ 1023) by lra.
  destruct (roundPositive_accurate Lo' Hi'') as (p & Ep & P1 & P2).
  rewrite (roundDouble_positive P'), Ep.
  exists p. split; [reflexivity|].
  change (2 ^ (-53)) with (1 # 9007199254740992) in *.
  change (2 ^ (-51)) with (1 # 2251799813685248).
  split; lra.
Qed.

End NumberFacts.

(** ** Score presentation *)

Section ScorePresentation.
Import JsString Json Runtime Analysis Scorer.
Local Open Scope Q_scope.

Lemma Qle_bool_false (x y : Q) : Qle_bool x y = false -> y < x.
Proof.
  intro H. apply Qnot_le_lt. intro L.
  apply Qle_bool_iff in L. congruence.
Qed.

(** Turns the outcome of every threshold test into an inequality. *)
Ltac thresholds :=
  repeat match goal with
         | E : Qle_bool _ _ = true |- _ => apply Qle_bool_iff in E
         | E : Qle_bool _ _ = false |- _ => apply Qle_bool_false in E
         end.

Lemma scoreColorBand_spec (s : Q) :
  scoreColorBand (getScoreColor s) =
  (if Qle_bool 85 s then 3 else if Qle_bool 70 s then 2
   else if Qle_bool 50 s then 1 else 0)%nat.
Proof.
  unfold getScoreColor.
  destruct (Qle_bool 85 s); [reflexivity|].
  destruct (Qle_bool 70 s); [reflexivity|].
  destruct (Qle_bool 50 s); reflexivity.
Qed.

Lemma progressColorBand_spec (s : Q) :
  progressColorBand (getProgressColor s) =
  (if Qle_bool 85 s then 3 else if Qle_bool 70 s then 2
   else if Qle_bool 50 s then 1 else 0)%nat.
Proof.
  unfold getProgressColor.
  destruct (Qle_bool 85 s); [reflexivity|].
  destruct (Qle_bool 70 s); [reflexivity|].
  destruct (Qle_bool 50 s); reflexivity.
Qed.

Lemma band_monotone (s t : Q) :
  s <= t ->
  ((if Qle_bool 85 s then 3 else if Qle_bool 70 s then 2
    else if Qle_bool 50 s then 1 else 0)
   <=
   (if Qle_bool 85 t then 3 else if Qle_bool 70 t then 2
    else if Qle_bool 50 t then 1 else 0))%nat.
Proof.
  intro H.
  destruct (Qle_bool 85 s) eqn:S85; destruct (Qle_bool 85 t) eqn:T85;
  destruct (Qle_bool 70 s) eqn:S70; destruct (Qle_bool 70 t) eqn:T70;
  destruct (Qle_bool 50 s) eqn:S50; destruct (Qle_bool 50 t) eqn:T50;
  try lia;
  thresholds; exfalso; lra.
Qed.

Lemma weightedSum_simpl (b : ScoreBreakdown) :
  weightedSum b ==
  (6 # 10) * skillMatch b + (3 # 10) * semanticSimilarity b
  + keywordDensityBonus b.
Proof. unfold weightedSum. field. Qed.

Lemma round_weightedSum_bounds (b : ScoreBreakdown) :
  validBreakdown b -> (0 <= round (weightedSum b) <= 100)%Z.
Proof.
  intros [[S0 S1] [[M0 M1] [D0 D1]]].
  pose proof (weightedSum_simpl b) as W.
  unfold round. split.
  - change 0%Z with (Qfloor 0). apply Qfloor_resp_le. lra.
  - change 100%Z with (Qfloor (201 # 2)). apply Qfloor_resp_le. lra.
Qed.

Lemma combineScore_monotone (b b' : ScoreBreakdown) :
  skillMatch b <= skillMatch b' ->
  semanticSimilarity b <= semanticSimilarity b' ->
  keywordDensityBonus b <= keywordDensityBonus b' ->
  (combineScore b <= combineScore b')%Z.
Proof.
  intros S M D.
  pose proof (weightedSum_simpl b) as W.
  pose proof (weightedSum_simpl b') as W'.
  unfold combineScore, round.
  apply Z.max_le_compat_l, Z.min_le_compat_l, Qfloor_resp_le. lra.
Qed.

(** C8: the colour band of a score is cut at the fixed thresholds 85, 70
    and 50 (green from 85, yellow from 70, orange from 50, red below), for
    the text colour and the bar colour alike, and it never decreases when
    the score increases. *)
Theorem ats_band_thresholds_monotone (s t : Q) (H : s <= t) :
  (scoreColorBand (getScoreColor s) <= scoreColorBand (getScoreColor t))%nat /\
  (progressColorBand (getProgressColor s)
   <= progressColorBand (getProgressColor t))%nat /\
  (85 <= s ->
   getScoreColor s = "text-green-600 dark:text-green-400"%string /\
   getProgressColor s = "bg-green-600"%string) /\
  (70 <= s -> s < 85 ->
   getScoreColor s = "text-yellow-600 dark:text-yellow-400"%string /\
   getProgressColor s = "bg-yellow-600"%string) /\
  (50 <= s -> s < 70 ->
   getScoreColor s = "text-orange-600 dark:text-orange-400"%string /\
   getProgressColor s = "bg-orange-600"%string) /\
  (s < 50 ->
   getScoreColor s = "text-red-600 dark:text-red-400"%string /\
   getProgressColor s = "bg-red-600"%string).
Proof.
  split; [|split].
  - rewrite !scoreColorBand_spec. now apply band_monotone.
  - rewrite !progressColorBand_spec. now apply band_monotone.
  - unfold getScoreColor, getProgressColor.
    destruct (Qle_bool 85 s) eqn:S85; destruct (Qle_bool 70 s) eqn:S70;
    destruct (Qle_bool 50 s) eqn:S50;
    thresholds; repeat split; intros; try reflexivity; exfalso; lra.
Qed.

Lemma ats_band_thresholds_monotone_witness :
  (scoreColorBand (getScoreColor 60) <= scoreColorBand (getScoreColor 90))%nat.
Proof.
  refine (proj1 (@ats_band_thresholds_monotone 60 90 _)).
  unfold Qle; simpl; lia.
Defined.




End ScorePresentation.

(** ** Request handlers *)

Section Handlers.
Import JsString Json Runtime.
Local Open Scope nat_scope.

(** Runs the combinators of a handler up to the answers of the service. *)
Ltac step_handler :=
  unfold tryCatchFinally, bind, fetch, parseJson, lift, toast, emit, throw,
    ret, modify;
  simpl.

(** C7: when the job description is blank after trimming, the analyze
    handler stops at the validation: its only effect is the destructive
    "Job requirement required" notification, no request is issued and the
    state, with the stored analysis result, is unchanged. *)
Theorem blank_job_description_rejected (srv : Server) (st : Analysis.State)
    (H : trim (Analysis.jobRequirement st) = []) :
  let r := run Analysis.handleAnalyze srv st in
  finalState r = st /\
  Analysis.analysisResult (finalState r) = Analysis.analysisResult st /\
  finalTrace r = [Toasted Analysis.requiredToast] /\
  requests (finalTrace r) = [] /\
  destructive Analysis.requiredToast = true.
Proof.
  unfold run, Analysis.handleAnalyze, bind, get, finalState, finalTrace.
  simpl. rewrite H. simpl. destruct st; repeat split.
Qed.

Lemma blank_job_description_rejected_witness :
  requests
    (finalTrace
       (run Analysis.handleAnalyze (fun _ => None)
          {| Analysis.jobRequirement := js "   ";
             Analysis.isAnalyzing := false;
             Analysis.analysisResult := VNull |})) = [].
Proof.
  refine (proj1 (proj2 (proj2 (proj2
    (@blank_job_description_rejected (fun _ => None)
       {| Analysis.jobRequirement := js "   ";
          Analysis.isAnalyzing := false;
          Analysis.analysisResult := VNull |} _))))).
  reflexivity.
Defined.

Lemma isEmpty_false (s : jsstring) : s <> [] -> isEmpty s = false.
Proof. destruct s; [congruence | reflexivity]. Qed.

Lemma isEmpty_true (s : jsstring) : isEmpty s = true -> s = [].
Proof. destruct s; [reflexivity | discriminate]. Qed.

(** C10: a cover-letter generation issues one request, to
    /generate_cover_letter; its company_name is "Hiring Team" when the
    company-name input is empty after trimming and the trimmed input
    otherwise. *)
Theorem company_name_defaults (srv : Server) (st : CoverLetter.State)
    (H : trim (CoverLetter.jobRequirement st) <> []) :
  exists req,
    requests (finalTrace (run CoverLetter.handleGenerate srv st)) = [req] /\
    path req = "/generate_cover_letter"%string /\
    getProp (payload req) "job_requirement"
    = inr (VStr (CoverLetter.jobRequirement st)) /\
    (trim (CoverLetter.companyName st) = [] ->
     getProp (payload req) "company_name" = inr (VStr (js "Hiring Team"))) /\
    (trim (CoverLetter.companyName st) <> [] ->
     getProp (payload req) "company_name"
     = inr (VStr (trim (CoverLetter.companyName st)))).
Proof.
  exists (CoverLetter.generateCoverLetter (CoverLetter.jobRequirement st)
            (CoverLetter.companyName st)).
  split.
  - unfold run, finalTrace, CoverLetter.handleGenerate, bind, get. simpl.
    rewrite (isEmpty_false H).
    unfold CoverLetter.setIsGenerating, CoverLetter.setCoverLetter.
    step_handler.
    destruct (srv _) as [resp|]; simpl; [|reflexivity].
    destruct (ok resp); simpl; [|reflexivity].
    destruct (json resp) as [data|]; simpl; [|reflexivity].
    destruct (getProp data "cover_letter") as [e|v]; simpl; [reflexivity|].
    destruct (truthy v); reflexivity.
  - split; [reflexivity|]. split; [reflexivity|].
    unfold CoverLetter.generateCoverLetter, CoverLetter.companyNameOrDefault.
    simpl. split; intro E.
    + now rewrite E.
    + now rewrite (isEmpty_false E).
Qed.

Lemma company_name_defaults_witness :
  exists req,
    requests
      (finalTrace
         (run CoverLetter.handleGenerate (fun _ => None)
            {| CoverLetter.jobRequirement := js "Backend engineer";
               CoverLetter.companyName := js "  ";
               CoverLetter.isGenerating := false;
               CoverLetter.coverLetter := VStr [] |})) = [req] /\
    getProp (payload req) "company_name" = inr (VStr (js "Hiring Team")).
Proof.
  destruct (@company_name_defaults (fun _ => None)
              {| CoverLetter.jobRequirement := js "Backend engineer";
                 CoverLetter.companyName := js "  ";
                 CoverLetter.isGenerating := false;
                 CoverLetter.coverLetter := VStr [] |}
              ltac:(discriminate)) as [req [R [_ [_ [D _]]]]].
  exists req. split; [exact R | apply D; reflexivity].
Defined.

Lemma reply_failure_modes (srv : Server) (req : Request) :
  (srv req = None -> Chat.reply srv req = inl Rejected) /\
  (forall resp, srv req = Some resp -> ok resp = false ->
     Chat.reply srv req = inl (Error "Failed to get response from AI backend")) /\
  (forall resp, srv req = Some resp -> ok resp = true -> json resp = None ->
     Chat.reply srv req = inl Rejected).
Proof.
  unfold Chat.reply. repeat split.
  - now intros ->.
  - now intros resp -> ->.
  - now intros resp -> -> ->.
Qed.

Lemma handleSend_messages (srv : Server) (domain : jsstring)
    (messageText : option jsstring) (st : Chat.State) :
  Chat.textToSend messageText st <> [] ->
  Chat.messages (finalState (run (Chat.handleSend domain messageText) srv st))
  = match Chat.reply srv
            (Chat.careerRoadmap (Chat.textToSend messageText st) domain) with
    | inl _ => Chat.messages st
    | inr r =>
        Chat.messages st
        ++ [ {| Chat.role := Chat.user;
                Chat.content := Chat.textToSend messageText st |};
             {| Chat.role := Chat.assistant; Chat.content := r |} ]
    end.
Proof.
  intro H.
  unfold run, finalState, Chat.handleSend, Chat.reply, bind, get. simpl.
  rewrite (isEmpty_false H).
  unfold Chat.setInput, Chat.setMessages, Chat.setIsLoading.
  step_handler.
  destruct (srv _) as [resp|]; simpl; [|apply removelast_last].
  destruct (ok resp); simpl; [|apply removelast_last].
  destruct (json resp) as [data|]; simpl; [|apply removelast_last].
  destruct (getProp data "response") as [e|v]; simpl; [apply removelast_last|].
  destruct (Chat.cleanResponse v) as [e|r]; simpl; [apply removelast_last|].
  now rewrite <- app_assoc.
Qed.

(** A send that no other handler interrupts: when its call fails the
    message list is as it was before the send, and when it succeeds the
    user message and the assistant's cleaned reply have been appended. *)
Lemma handleSend_alone (srv : Server) (domain : jsstring)
    (messageText : option jsstring) (st : Chat.State)
    (H : Chat.textToSend messageText st <> []) :
  let text := Chat.textToSend messageText st in
  let st' := finalState (run (Chat.handleSend domain messageText) srv st) in
  (forall e, Chat.reply srv (Chat.careerRoadmap text domain) = inl e ->
     Chat.messages st' = Chat.messages st) /\
  (forall r, Chat.reply srv (Chat.careerRoadmap text domain) = inr r ->
     Chat.messages st'
     = Chat.messages st
       ++ [ {| Chat.role := Chat.user; Chat.content := text |};
            {| Chat.role := Chat.assistant; Chat.content := r |} ]) /\
  (List.length (Chat.messages st') = List.length (Chat.messages st) + 2
   <-> exists r, Chat.reply srv (Chat.careerRoadmap text domain) = inr r).
Proof.
  intros text st'. subst st'.
  rewrite (handleSend_messages srv domain messageText st H). fold text.
  destruct (Chat.reply srv (Chat.careerRoadmap text domain)) as [e|r].
  - split; [reflexivity|]. split; [discriminate|].
    split; [lia | intros [r R]; discriminate].
  - split; [discriminate|]. split; [now intros r' [= ->]|].
    split; [now exists r | intros _; rewrite length_app; simpl; lia].
Qed.

Ltac run_turn :=
  unfold run, finalState, finalTrace, Chat.turn, Chat.sendStart,
    Chat.sendSettle, Chat.setInput, Chat.setMessages, Chat.setIsLoading,
    tryCatchFinally, bind, get, fetch, parseJson, lift, toast, emit, throw,
    ret, modify;
  simpl.

(** An uninterrupted send is its first turn followed by its second. *)
Lemma handleSend_turns (srv : Server) (domain : jsstring)
    (messageText : option jsstring) (st : Chat.State) :
  run (Chat.handleSend domain messageText) srv st
  = run (bind (Chat.sendStart domain messageText)
           (fun sent =>
              match sent with
              | None => ret tt
              | Some text =>
                  Chat.sendSettle (Chat.reply srv (Chat.careerRoadmap text domain))
              end)) srv st.
Proof.
  unfold Chat.handleSend, Chat.reply. run_turn.
  destruct (isEmpty (Chat.textToSend messageText st)); [reflexivity|]. simpl.
  destruct (srv _) as [resp|]; simpl; [|reflexivity].
  destruct (ok resp); simpl; [|reflexivity].
  destruct (json resp) as [data|]; simpl; [|reflexivity].
  destruct (getProp data "response") as [e|v]; simpl; [reflexivity|].
  destruct (Chat.cleanResponse v) as [e|r]; reflexivity.
Qed.

(** What a turn does to the messages, whatever the trace so far. *)
Lemma turn_messages (domain : jsstring) (t : Chat.Turn) (srv : Server)
    (st : Chat.State) (tr : list Effect) :
  fst (Chat.turn domain t srv (st, tr)) = inr tt /\
  fst (snd (Chat.turn domain t srv (st, tr)))
  = finalState (run (Chat.turn domain t) srv st) /\
  Chat.messages (finalState (run (Chat.turn domain t) srv st))
  = match t with
    | Chat.Start messageText =>
        if isEmpty (Chat.textToSend messageText st) then Chat.messages st
        else Chat.messages st
             ++ [ {| Chat.role := Chat.user;
                     Chat.content := Chat.textToSend messageText st |} ]
    | Chat.Settle (inr r) =>
        Chat.messages st ++ [ {| Chat.role := Chat.assistant; Chat.content := r |} ]
    | Chat.Settle (inl _) => removelast (Chat.messages st)
    end.
Proof.
  destruct t as [messageText | [e | r]]; run_turn.
  - destruct (isEmpty (Chat.textToSend messageText st)); simpl; repeat split.
  - repeat split.
  - repeat split.
Qed.

Lemma turns_cons (domain : jsstring) (t : Chat.Turn) (ts : list Chat.Turn)
    (srv : Server) (st : Chat.State) (tr : list Effect) :
  exists tr',
    Chat.turns domain (t :: ts) srv (st, tr)
    = Chat.turns domain ts srv
        (finalState (run (Chat.turn domain t) srv st), tr').
Proof.
  destruct (turn_messages domain t srv st tr) as (R & S & _).
  cbn [Chat.turns]. unfold bind at 1.
  destruct (Chat.turn domain t srv (st, tr)) as [r [st' tr']].
  simpl in R, S. subst r st'. now exists tr'.
Qed.

Lemma removelast_app_last (A : Type) (base extra : list A) :
  extra <> [] -> removelast (base ++ extra) = base ++ removelast extra.
Proof. intro N. now apply removelast_app. Qed.

(** While no more calls settle than were started, the messages that were
    there before the calls in flight stay. *)
Lemma turns_keep_base (domain : jsstring) (srv : Server) :
  forall (ts : list Chat.Turn) (pending : nat) (st : Chat.State)
         (tr : list Effect) (base extra : list Chat.Message),
    Chat.causal domain srv ts pending st = true ->
    Chat.messages st = base ++ extra ->
    pending <= List.length extra ->
    exists added,
      Chat.messages (fst (snd (Chat.turns domain ts srv (st, tr))))
      = base ++ added.
Proof.
  induction ts as [|t ts IH]; intros pending st tr base extra C M P.
  - exists extra. exact M.
  - destruct (turns_cons domain t ts srv st tr) as [tr' ->].
    destruct (turn_messages domain t srv st tr) as (_ & _ & T).
    destruct t as [messageText | [e | r]]; cbn [Chat.causal] in C.
    + destruct (isEmpty (Chat.textToSend messageText st)).
      * apply (IH pending _ tr' base extra C); [now rewrite T, M | exact P].
      * apply (IH (S pending) _ tr' base
                 (extra ++ [ {| Chat.role := Chat.user;
                                Chat.content := Chat.textToSend messageText st |} ])
                 C).
        -- now rewrite T, M, app_assoc.
        -- rewrite length_app. simpl. lia.
    + destruct pending as [|n]; [discriminate|].
      assert (N : extra <> []) by (destruct extra; [simpl in P; lia | discriminate]).
      apply (IH n _ tr' base (removelast extra) C).
      * now rewrite T, M, removelast_app_last.
      * destruct (exists_last N) as (l & x & ->).
        rewrite removelast_last. rewrite length_app in P. simpl in P. lia.
    + destruct pending as [|n]; [discriminate|].
      apply (IH n _ tr' base
               (extra ++ [ {| Chat.role := Chat.assistant; Chat.content := r |} ])
               C).
      * now rewrite T, M, app_assoc.
      * rewrite length_app. simpl. lia.
Qed.

(** C9: a failed send does not always remove its own user message.  The
    catch block drops the last message of the list at the time it runs,
    and the suggested questions can be clicked while a call is in flight:
    when the first of two overlapping questions fails and the second is
    answered, the failed question stays in the conversation, the answered
    question is removed (already when the first call fails) and its reply
    follows the failed question.  The same two sends one after the other
    leave the second question and its reply. *)
Theorem overlapping_sends_remove_the_wrong_message :
  let domain := js "Finance" in
  let srv := Chat.failsOnKeySkills in
  let st := {| Chat.messages := [Chat.welcomeMessage domain];
               Chat.input := [];
               Chat.isLoading := false |} in
  let failed := Chat.reply srv (Chat.careerRoadmap Chat.keySkills domain) in
  let answered := Chat.reply srv (Chat.careerRoadmap Chat.seniorRole domain) in
  failed = inl Rejected /\
  answered = inr (js "Lead a project end to end.") /\
  Chat.messages
    (finalState
       (run (Chat.turns domain
               [ Chat.Start (Some Chat.keySkills);
                 Chat.Start (Some Chat.seniorRole);
                 Chat.Settle failed;
                 Chat.Settle answered ]) srv st))
  = [ Chat.welcomeMessage domain;
      {| Chat.role := Chat.user; Chat.content := Chat.keySkills |};
      {| Chat.role := Chat.assistant;
         Chat.content := js "Lead a project end to end." |} ] /\
  Chat.messages
    (finalState
       (run (Chat.turns domain
               [ Chat.Start (Some Chat.keySkills);
                 Chat.Start (Some Chat.seniorRole);
                 Chat.Settle failed ]) srv st))
  = [ Chat.welcomeMessage domain;
      {| Chat.role := Chat.user; Chat.content := Chat.keySkills |} ] /\
  Chat.messages
    (finalState
       (run (bind (Chat.handleSend domain (Some Chat.keySkills))
               (fun _ => Chat.handleSend domain (Some Chat.seniorRole))) srv st))
  = [ Chat.welcomeMessage domain;
      {| Chat.role := Chat.user; Chat.content := Chat.seniorRole |};
      {| Chat.role := Chat.assistant;
         Chat.content := js "Lead a project end to end." |} ].
Proof.
  repeat split; vm_compute; reflexivity.
Qed.

(** C6: on a payload whose result lacks [keyword_analysis] the analyze
    handler raises nothing: it stores the partial result, reports
    "Analysis complete" and leaves the missing key to the view, where the
    badge of the matching-keywords card dereferences it. *)
Theorem missing_keyword_analysis_is_stored :
  let st := {| Analysis.jobRequirement := js "Requires Python, SQL, AWS";
               Analysis.isAnalyzing := false;
               Analysis.analysisResult := VNull |} in
  run Analysis.handleAnalyze Analysis.incompleteService st
  = (inr tt,
     ({| Analysis.jobRequirement := js "Requires Python, SQL, AWS";
         Analysis.isAnalyzing := false;
         Analysis.analysisResult := Analysis.resultWithoutKeywordAnalysis |},
      [ Fetched (Analysis.rateResumes (js "Requires Python, SQL, AWS"));
        Toasted (Analysis.completeToast (VNum 72%Q)) ])) /\
  destructive (Analysis.completeToast (VNum 72%Q)) = false /\
  Analysis.matchingKeywordsBadge Analysis.resultWithoutKeywordAnalysis = inl TypeError.
Proof. repeat split. Qed.

(** The sibling handler of the interview-prep section validates what it
    receives: without [technical_questions] or [behavioral_questions]
    nothing is stored and the failure notification is shown. *)
Lemma interview_prep_rejects_incomplete (srv : Server)
    (st : InterviewPrep.State) (resp : Response)
    (fields : list (string * value)) :
  trim (InterviewPrep.jobRequirement st) <> [] ->
  srv (InterviewPrep.interviewPrep (InterviewPrep.jobRequirement st)) = Some resp ->
  ok resp = true ->
  json resp = Some (VObj fields) ->
  truthy (lookup "technical_questions" fields) = false \/
  truthy (lookup "behavioral_questions" fields) = false ->
  let r := run InterviewPrep.handleGenerate srv st in
  InterviewPrep.prepData (finalState r) = None /\
  toasts (finalTrace r) = [InterviewPrep.failedToast].
Proof.
  intros H S O J T.
  unfold run, finalState, finalTrace, InterviewPrep.handleGenerate, bind, get.
  simpl. rewrite (isEmpty_false H).
  unfold InterviewPrep.setIsGenerating, InterviewPrep.setPrepData.
  step_handler. rewrite S. simpl. rewrite O, J. simpl.
  unfold InterviewPrep.cleanData. simpl.
  assert (E : negb (truthy (lookup "technical_questions" fields))
              || negb (truthy (lookup "behavioral_questions" fields)) = true).
  { destruct T as [-> | ->]; simpl; [reflexivity | apply orb_true_r]. }
  rewrite E. simpl. split; reflexivity.
Qed.

(** The optional arrays of the interview-prep payload default to the empty
    list. *)
Lemma interview_prep_defaults_optional_arrays (technical behavioral : list value)
    (tq bq : list jsstring) :
  InterviewPrep.cleanItems technical = inr tq ->
  InterviewPrep.cleanItems behavioral = inr bq ->
  InterviewPrep.cleanData
    (VObj [ ("technical_questions", VArr technical);
            ("behavioral_questions", VArr behavioral) ]%string)
  = inr {| InterviewPrep.technical_questions := tq;
           InterviewPrep.behavioral_questions := bq;
           InterviewPrep.key_talking_points := [];
           InterviewPrep.questions_to_ask := [] |}.
Proof.
  intros T B. unfold InterviewPrep.cleanData. simpl. now rewrite T, B.
Qed.

End Handlers.

(** ** Facts about matching and replacing *)

Section RegexFacts.
Import JsString Regex.
Local Open Scope nat_scope.
Local Arguments N.eqb : simpl never.
Local Arguments N.leb : simpl never.
Local Arguments Nat.sub : simpl never.
Local Arguments Nat.ltb : simpl never.

Lemma replaceGo_Forall (P : char -> Prop) (r : regex) (rep : jsstring) :
  Forall P rep ->
  forall s prev skip, Forall P s -> Forall P (replaceGo r rep prev s skip).
Proof.
  intros R s. induction s as [|c s IH]; intros prev skip F; simpl.
  - destruct skip; [destruct (matchAt r prev [])|]; auto.
  - inversion F; subst. destruct skip as [|n]; [|auto].
    destruct (matchAt r prev (c :: s)) as [[|n]|].
    + apply Forall_app; split; auto.
    + apply Forall_app; auto.
    + constructor; auto.
Qed.

Lemma replaceGo_emitted (P : char -> Prop) (r : regex) :
  (forall prev c s, matchAt r prev (c :: s) = None -> P c) ->
  neverEmpty r ->
  forall s prev skip, Forall P (replaceGo r [] prev s skip).
Proof.
  intros N E s. induction s as [|c s IH]; intros prev skip; simpl.
  - destruct skip; [destruct (matchAt r prev [])|]; constructor.
  - destruct skip as [|n]; [|apply IH].
    destruct (matchAt r prev (c :: s)) as [[|n]|] eqn:M; simpl.
    + now apply E in M.
    + apply IH.
    + constructor; [eapply N; eassumption | apply IH].
Qed.

Lemma replaceGo_prefix (r : regex) (P : char -> bool) (rep : jsstring) :
  neverStartsWith r P ->
  forall a prev rest,
    forallb P a = true ->
    replaceGo r rep prev (a ++ rest) 0
    = a ++ replaceGo r rep (prevAfter prev a) rest 0.
Proof.
  intros N a. induction a as [|c a IH]; intros prev rest F; simpl in *.
  - reflexivity.
  - apply andb_true_iff in F. destruct F as [Pc F].
    rewrite (N c prev (a ++ rest) Pc). f_equal. now apply IH.
Qed.

Lemma replaceGo_id (r : regex) (P : char -> bool) (rep : jsstring) :
  neverStartsWith r P -> neverAtEnd r ->
  forall a prev, forallb P a = true -> replaceGo r rep prev a 0 = a.
Proof.
  intros N E a prev F.
  rewrite <- (app_nil_r a) at 1.
  rewrite (replaceGo_prefix rep N a prev [] F). simpl.
  rewrite E. apply app_nil_r.
Qed.

Lemma splitGo_prefix (r : regex) (P : char -> bool) :
  neverStartsWith r P ->
  forall a prev rest cur,
    forallb P a = true ->
    splitGo r prev (a ++ rest) 0 cur
    = splitGo r (prevAfter prev a) rest 0 (rev a ++ cur).
Proof.
  intros N a. induction a as [|c a IH]; intros prev rest cur F; simpl in *.
  - reflexivity.
  - apply andb_true_iff in F. destruct F as [Pc F].
    rewrite (N c prev (a ++ rest) Pc). rewrite IH by assumption.
    now rewrite <- app_assoc.
Qed.

Lemma splitGo_skip (r : regex) :
  forall w prev rest cur,
    splitGo r prev (w ++ rest) (List.length w) cur
    = splitGo r (prevAfter prev w) rest 0 cur.
Proof.
  induction w as [|c w IH]; intros prev rest cur; simpl.
  - reflexivity.
  - apply IH.
Qed.

Lemma replaceGo_skip (r : regex) (rep : jsstring) :
  forall w prev rest,
    replaceGo r rep prev (w ++ rest) (List.length w)
    = replaceGo r rep (prevAfter prev w) rest 0.
Proof.
  induction w as [|c w IH]; intros prev rest; simpl.
  - reflexivity.
  - apply IH.
Qed.

(** *** Trimming *)

Lemma dropWhile_Forall (P : char -> Prop) (p : char -> bool) (s : jsstring) :
  Forall P s -> Forall P (dropWhile p s).
Proof.
  induction 1 as [|c s Pc F IH]; simpl; [constructor|].
  destruct (p c); [exact IH | now constructor].
Qed.

Lemma trim_Forall (P : char -> Prop) (s : jsstring) :
  Forall P s -> Forall P (trim s).
Proof.
  intro F. unfold trim.
  apply Forall_rev, dropWhile_Forall, Forall_rev, dropWhile_Forall, F.
Qed.

Lemma dropWhile_idem (p : char -> bool) (s : jsstring) :
  dropWhile p (dropWhile p s) = dropWhile p s.
Proof.
  induction s as [|c s IH]; simpl; [reflexivity|].
  destruct (p c) eqn:E; [exact IH | simpl; now rewrite E].
Qed.

Lemma dropWhile_split (p : char -> bool) (s : jsstring) :
  exists w, s = w ++ dropWhile p s /\ forallb p w = true.
Proof.
  induction s as [|c s [w [E F]]]; simpl.
  - now exists [].
  - destruct (p c) eqn:Pc.
    + exists (c :: w). simpl. rewrite Pc, F. split; [now f_equal | reflexivity].
    + now exists [].
Qed.

Lemma dropWhile_fixed_head (p : char -> bool) (c : char) (s : jsstring) :
  dropWhile p (c :: s) = c :: s -> p c = false.
Proof.
  simpl. destruct (p c) eqn:Pc; [|reflexivity].
  intro E. destruct (dropWhile_split p s) as [w [W _]].
  rewrite E in W. apply (f_equal (@List.length char)) in W.
  rewrite length_app in W. simpl in W. lia.
Qed.

Lemma dropWhile_head_false (p : char -> bool) (c : char) (s : jsstring) :
  p c = false -> dropWhile p (c :: s) = c :: s.
Proof. intro E. simpl. now rewrite E. Qed.

Lemma trimmed_trim (s : jsstring) : trimmed s -> trim s = s.
Proof.
  intros [A B]. unfold trim. rewrite A, B. apply rev_involutive.
Qed.

Lemma trim_trimmed (s : jsstring) : trimmed (trim s).
Proof.
  unfold trimmed, trim. split.
  - set (x := dropWhile isSpace s).
    assert (X : dropWhile isSpace x = x) by apply dropWhile_idem.
    destruct (dropWhile_split isSpace (rev x)) as [w [W F]].
    set (y := dropWhile isSpace (rev x)) in *.
    assert (E : x = rev y ++ rev w).
    { rewrite <- (rev_involutive x), W. apply rev_app_distr. }
    destruct (rev y) as [|c t] eqn:Y; [reflexivity|].
    apply dropWhile_head_false.
    rewrite E in X. simpl in X. now apply dropWhile_fixed_head in X.
  - rewrite rev_involutive. apply dropWhile_idem.
Qed.

Lemma trim_idempotent (s : jsstring) : trim (trim s) = trim s.
Proof. apply trimmed_trim, trim_trimmed. Qed.

End RegexFacts.

Section PatternFacts.
Import JsString Regex Normalizer.
Local Open Scope nat_scope.
Local Arguments N.eqb : simpl never.
Local Arguments N.leb : simpl never.
Local Arguments Nat.sub : simpl never.
Local Arguments Nat.ltb : simpl never.

Lemma length_sub_1 (c : char) (s : jsstring) :
  List.length (c :: s) - List.length s = 1.
Proof. simpl. lia. Qed.

Lemma length_sub_2 (c d : char) (s : jsstring) :
  List.length (c :: d :: s) - List.length s = 2.
Proof. simpl. lia. Qed.

Lemma matchAt_emphasis (prev : option char) (c : char) (s : jsstring) :
  matchAt emphasisRe prev (c :: s)
  = if isEmphasis c
    then match s with
         | d :: _ => if N.eqb c d then Some 2 else Some 1
         | [] => Some 1
         end
    else None.
Proof.
  unfold matchAt, emphasisRe, lit, isEmphasis.
  cbn [rmatch].
  rewrite (N.eqb_sym c STAR), (N.eqb_sym c UNDERSCORE).
  destruct (N.eqb STAR c) eqn:A.
  - apply N.eqb_eq in A. subst c. simpl orb. cbv iota.
    destruct s as [|d s]; [now rewrite length_sub_1|].
    destruct (N.eqb STAR d); [now rewrite length_sub_2 | now rewrite length_sub_1].
  - destruct (N.eqb UNDERSCORE c) eqn:B; [|reflexivity].
    apply N.eqb_eq in B. subst c. simpl orb. cbv iota.
    destruct s as [|d s]; [now rewrite length_sub_1|].
    destruct (N.eqb UNDERSCORE d); [now rewrite length_sub_2 | now rewrite length_sub_1].
Qed.

Lemma matchAt_asterisk (prev : option char) (c : char) (s : jsstring) :
  matchAt asteriskRe prev (c :: s)
  = if isAsterisk c
    then match s with
         | d :: _ => if N.eqb c d then Some 2 else Some 1
         | [] => Some 1
         end
    else None.
Proof.
  unfold matchAt, asteriskRe, lit, isAsterisk.
  cbn [rmatch].
  rewrite (N.eqb_sym c STAR).
  destruct (N.eqb STAR c) eqn:A; [|reflexivity].
  apply N.eqb_eq in A. subst c. cbv iota.
  destruct s as [|d s]; [now rewrite length_sub_1|].
  destruct (N.eqb STAR d); [now rewrite length_sub_2 | now rewrite length_sub_1].
Qed.

Lemma emphasis_neverEmpty : neverEmpty emphasisRe.
Proof.
  intros prev [|c s]; [discriminate|].
  rewrite matchAt_emphasis.
  destruct (isEmphasis c); [|discriminate].
  destruct s as [|d s]; [discriminate|]. destruct (N.eqb c d); discriminate.
Qed.

Lemma asterisk_neverEmpty : neverEmpty asteriskRe.
Proof.
  intros prev [|c s]; [discriminate|].
  rewrite matchAt_asterisk.
  destruct (isAsterisk c); [|discriminate].
  destruct s as [|d s]; [discriminate|]. destruct (N.eqb c d); discriminate.
Qed.

Lemma emphasis_none (prev : option char) (c : char) (s : jsstring) :
  matchAt emphasisRe prev (c :: s) = None -> isEmphasis c = false.
Proof.
  rewrite matchAt_emphasis. destruct (isEmphasis c); [|reflexivity].
  destruct s as [|d s]; [discriminate|]. destruct (N.eqb c d); discriminate.
Qed.

Lemma asterisk_none (prev : option char) (c : char) (s : jsstring) :
  matchAt asteriskRe prev (c :: s) = None -> isAsterisk c = false.
Proof.
  rewrite matchAt_asterisk. destruct (isAsterisk c); [|reflexivity].
  destruct s as [|d s]; [discriminate|]. destruct (N.eqb c d); discriminate.
Qed.

Lemma emphasis_neverStartsWith :
  neverStartsWith emphasisRe (fun c => negb (isEmphasis c)).
Proof.
  intros c prev s H. rewrite matchAt_emphasis.
  now destruct (isEmphasis c).
Qed.

Lemma emphasis_neverAtEnd : neverAtEnd emphasisRe.
Proof. intro prev. reflexivity. Qed.

Lemma isEmphasis_false (c : char) :
  isEmphasis c = false <-> c <> STAR /\ c <> UNDERSCORE.
Proof.
  unfold isEmphasis. rewrite orb_false_iff, !N.eqb_neq. tauto.
Qed.

Lemma Forall_not_emphasis (s : jsstring) :
  Forall (fun c => isEmphasis c = false) s <->
  Forall (fun c => c <> STAR /\ c <> UNDERSCORE) s.
Proof.
  split; intro F; (eapply Forall_impl; [|exact F]); intros c; apply isEmphasis_false.
Qed.

End PatternFacts.

(** ** The normalisers *)

Section NormalizerProperties.
Import JsString Regex Normalizer.
Local Open Scope nat_scope.

Lemma cleanText_salary_clean (s : jsstring) :
  Forall (fun c => isEmphasis c = false) (SalaryInsights.cleanText s).
Proof.
  unfold SalaryInsights.cleanText.
  destruct (isEmpty s); [constructor|].
  apply trim_Forall.
  unfold replaceAll.
  do 3 (apply replaceGo_Forall; [constructor|]).
  apply replaceGo_emitted;
    [exact emphasis_none | exact emphasis_neverEmpty].
Qed.

Lemma cleanText_interview_clean (s : jsstring) :
  Forall (fun c => isEmphasis c = false) (InterviewPrep.cleanText s).
Proof.
  unfold InterviewPrep.cleanText.
  destruct (isEmpty s); [constructor|].
  apply trim_Forall.
  unfold replaceAll.
  do 2 (apply replaceGo_Forall; [constructor|]).
  apply replaceGo_emitted;
    [exact emphasis_none | exact emphasis_neverEmpty].
Qed.

Lemma cleanResponseFormatting_clean (s : jsstring) :
  Forall (fun c => isAsterisk c = false) (Chat.cleanResponseFormatting s).
Proof.
  unfold Chat.cleanResponseFormatting.
  destruct (isEmpty s); [constructor|].
  apply trim_Forall.
  unfold replaceAll.
  apply replaceGo_Forall; [repeat constructor|].
  do 2 (apply replaceGo_Forall; [constructor|]).
  apply replaceGo_emitted;
    [exact asterisk_none | exact asterisk_neverEmpty].
Qed.

(** C2, as the code has it: the two [cleanText] normalisers (salary
    insights, interview preparation) remove every asterisk and every
    underscore, paired or not, so their output contains neither; the chat
    normaliser [cleanResponseFormatting] removes asterisks only, so its
    output contains no asterisk. *)
Theorem emphasis_markers_removed (s : jsstring) :
  Forall (fun c => c <> STAR /\ c <> UNDERSCORE) (SalaryInsights.cleanText s) /\
  Forall (fun c => c <> STAR /\ c <> UNDERSCORE) (InterviewPrep.cleanText s) /\
  Forall (fun c => c <> STAR) (Chat.cleanResponseFormatting s).
Proof.
  split; [|split].
  - apply Forall_not_emphasis, cleanText_salary_clean.
  - apply Forall_not_emphasis, cleanText_interview_clean.
  - eapply Forall_impl; [|apply cleanResponseFormatting_clean].
    intros c. unfold isAsterisk. now rewrite N.eqb_neq.
Qed.

(** C2 as stated fails for the chat normaliser: an underscore survives. *)
Lemma chat_keeps_underscores :
  Chat.cleanResponseFormatting (js "use snake_case and __init__")
  = js "use snake_case and __init__" /\
  ~ Forall (fun c => c <> STAR /\ c <> UNDERSCORE)
      (Chat.cleanResponseFormatting (js "use snake_case and __init__")).
Proof.
  split; [reflexivity|].
  intro F. rewrite Forall_forall in F.
  destruct (F UNDERSCORE) as [_ U]; [vm_compute; tauto | now apply U].
Qed.

(** C3: the list-marker step removes a number that begins a line, whether
    or not a full stop or white space follows it, so words of the input are
    missing from the output. *)
Theorem list_marker_step_removes_leading_numbers :
  SalaryInsights.cleanText (js "2024 revenue grew by 10 percent")
  = js "revenue grew by 10 percent" /\
  Chat.cleanResponseFormatting (js "3D printing experience")
  = js "D printing experience" /\
  InterviewPrep.cleanText (js "100 engineers reported to me")
  = js "engineers reported to me".
Proof. repeat split; vm_compute; reflexivity. Qed.

(** C4 as stated fails: a marker that follows a stripped marker on the
    same line is stripped only by the next application. *)
Lemma cleanText_not_idempotent :
  InterviewPrep.cleanText (js "1. 2. Review the basics")
  = js "2. Review the basics" /\
  InterviewPrep.cleanText (InterviewPrep.cleanText (js "1. 2. Review the basics"))
  = js "Review the basics" /\
  InterviewPrep.cleanText (InterviewPrep.cleanText (js "1. 2. Review the basics"))
  <> InterviewPrep.cleanText (js "1. 2. Review the basics") /\
  SalaryInsights.cleanText (SalaryInsights.cleanText (js "1. 2. Review the basics"))
  <> SalaryInsights.cleanText (js "1. 2. Review the basics").
Proof. repeat split; vm_compute; congruence. Qed.

Local Arguments N.eqb : simpl never.
Local Arguments N.leb : simpl never.
Local Arguments Nat.sub : simpl never.
Local Arguments Nat.ltb : simpl never.

Lemma rmatch_Seq (a b : regex) prev s k :
  rmatch (Seq a b) prev s k = rmatch a prev s (fun p s' => rmatch b p s' k).
Proof. reflexivity. Qed.

Lemma rmatch_Star (a : regex) prev s k :
  rmatch (Star a) prev s k = starLoop (rmatch a) k (List.length s) prev s.
Proof. reflexivity. Qed.

Lemma rmatch_Bol_inv (r : regex) prev s k e :
  rmatch (Seq Bol r) prev s k = Some e ->
  lineStart prev = true /\ rmatch r prev s k = Some e.
Proof.
  cbn [rmatch]. destruct (lineStart prev); [auto | discriminate].
Qed.

Lemma rmatch_Chr_inv (p : char -> bool) prev s k e :
  rmatch (Chr p) prev s k = Some e ->
  exists c s', s = c :: s' /\ p c = true /\ k (Some c) s' = Some e.
Proof.
  cbn [rmatch]. destruct s as [|c s']; [discriminate|].
  destruct (p c) eqn:P; [|discriminate].
  intro K. now exists c, s'.
Qed.

Lemma starLoop_Chr_inv (p : char -> bool) (k : cont) :
  forall n prev s e,
    starLoop (rmatch (Chr p)) k n prev s = Some e ->
    exists w s' prev',
      s = w ++ s' /\ forallb p w = true /\ k prev' s' = Some e.
Proof.
  induction n as [|n IH]; intros prev s e H; cbn [starLoop] in H.
  - now exists [], s, prev.
  - destruct (rmatch (Chr p) prev s _) as [e'|] eqn:B.
    + injection H as ->.
      apply rmatch_Chr_inv in B. destruct B as (c & s1 & -> & Pc & B).
      destruct (List.length s1 <? List.length (c :: s1)); [|discriminate].
      apply IH in B. destruct B as (w & s' & prev' & -> & F & K).
      exists (c :: w), s', prev'. simpl. now rewrite Pc, F.
    + now exists [], s, prev.
Qed.

Lemma dropWhile_app_all (p : char -> bool) (w : jsstring) (c : char) (r : jsstring) :
  forallb p w = true -> p c = false -> dropWhile p (w ++ c :: r) = c :: r.
Proof.
  intros F Pc. induction w as [|d w IH]; simpl in *.
  - now rewrite Pc.
  - apply andb_true_iff in F. destruct F as [-> F]. now apply IH.
Qed.

Lemma listChar_not_space (c : char) : isListChar c = true -> isSpace c = false.
Proof.
  unfold isListChar, isSpace, isDigit, MINUS, PLUS. intro H.
  rewrite !orb_true_iff, andb_true_iff, !N.eqb_eq, !N.leb_le in H.
  apply not_true_is_false. intro S.
  rewrite !orb_true_iff, !andb_true_iff, !N.eqb_eq, !N.leb_le in S. lia.
Qed.

Lemma heading_match_begins prev s :
  matchAt headingRe prev s <> None ->
  lineStart prev = true /\ beginsHeading s = true.
Proof.
  unfold matchAt.
  destruct (rmatch headingRe prev s _) as [e|] eqn:E; [intros _ | congruence].
  apply rmatch_Bol_inv in E. destruct E as [L E]. split; [exact L|].
  unfold Plus in E. rewrite !rmatch_Seq in E.
  apply rmatch_Chr_inv in E. destruct E as (c & s' & -> & Pc & _).
  simpl. now rewrite N.eqb_sym.
Qed.

Lemma blockquote_match_begins prev s :
  matchAt blockquoteRe prev s <> None ->
  lineStart prev = true /\ beginsBlockquote s = true.
Proof.
  unfold matchAt.
  destruct (rmatch blockquoteRe prev s _) as [e|] eqn:E; [intros _ | congruence].
  apply rmatch_Bol_inv in E. destruct E as [L E]. split; [exact L|].
  rewrite rmatch_Seq in E.
  apply rmatch_Chr_inv in E. destruct E as (c & s' & -> & Pc & _).
  simpl. now rewrite N.eqb_sym.
Qed.

Lemma listMarker_match_begins prev s :
  matchAt listMarkerRe prev s <> None ->
  lineStart prev = true /\ beginsListMarker s = true.
Proof.
  unfold matchAt.
  destruct (rmatch listMarkerRe prev s _) as [e|] eqn:E; [intros _ | congruence].
  apply rmatch_Bol_inv in E. destruct E as [L E]. split; [exact L|].
  rewrite !rmatch_Seq in E. unfold ws in E at 1. rewrite rmatch_Star in E.
  apply starLoop_Chr_inv in E. destruct E as (w & s' & prev' & -> & F & E).
  unfold Plus in E. rewrite !rmatch_Seq in E.
  apply rmatch_Chr_inv in E. destruct E as (c & r & -> & Pc & _).
  unfold beginsListMarker.
  rewrite (dropWhile_app_all isSpace w c r F (listChar_not_space c Pc)).
  exact Pc.
Qed.

Lemma replaceGo_noLineBegins (r : regex) (bad : jsstring -> bool) (rep : jsstring) :
  (forall prev s, matchAt r prev s <> None ->
                  lineStart prev = true /\ bad s = true) ->
  forall t prev, noLineBegins bad prev t = true -> replaceGo r rep prev t 0 = t.
Proof.
  intros M t. induction t as [|c t IH]; intros prev H; simpl in *.
  - destruct (matchAt r prev []) eqn:E; [|reflexivity].
    destruct (M prev []) as [L B]; [congruence|].
    rewrite L, B in H. discriminate.
  - apply andb_true_iff in H. destruct H as [H1 H2].
    destruct (matchAt r prev (c :: t)) eqn:E.
    + destruct (M prev (c :: t)) as [L B]; [congruence|].
      rewrite L, B in H1. discriminate.
    + f_equal. now apply IH.
Qed.

Lemma not_emphasis_forallb (t : jsstring) :
  Forall (fun c => isEmphasis c = false) t ->
  forallb (fun c => negb (isEmphasis c)) t = true.
Proof.
  intro F. apply forallb_forall. intros c I.
  rewrite Forall_forall in F. now rewrite (F c I).
Qed.

Lemma replaceAll_emphasis_id (t : jsstring) :
  Forall (fun c => isEmphasis c = false) t -> replaceAll emphasisRe [] t = t.
Proof.
  intro F. unfold replaceAll.
  apply (replaceGo_id [] emphasis_neverStartsWith emphasis_neverAtEnd).
  now apply not_emphasis_forallb.
Qed.

Lemma interview_cleanText_fixed (t : jsstring) :
  Forall (fun c => isEmphasis c = false) t ->
  trimmed t ->
  residualMarkerFree false t = true ->
  InterviewPrep.cleanText t = t.
Proof.
  intros F T R. unfold InterviewPrep.cleanText.
  destruct (isEmpty t) eqn:E; [symmetry; now apply isEmpty_true|].
  unfold residualMarkerFree in R.
  apply andb_true_iff in R. destruct R as [R _].
  apply andb_true_iff in R. destruct R as [RH RL].
  rewrite (replaceAll_emphasis_id F).
  unfold replaceAll.
  rewrite (replaceGo_noLineBegins headingRe beginsHeading [] heading_match_begins t None RH).
  rewrite (replaceGo_noLineBegins listMarkerRe beginsListMarker [] listMarker_match_begins t None RL).
  now apply trimmed_trim.
Qed.

Lemma salary_cleanText_fixed (t : jsstring) :
  Forall (fun c => isEmphasis c = false) t ->
  trimmed t ->
  residualMarkerFree true t = true ->
  SalaryInsights.cleanText t = t.
Proof.
  intros F T R. unfold SalaryInsights.cleanText.
  destruct (isEmpty t) eqn:E; [symmetry; now apply isEmpty_true|].
  unfold residualMarkerFree in R.
  apply andb_true_iff in R. destruct R as [R RQ].
  apply andb_true_iff in R. destruct R as [RH RL].
  rewrite (replaceAll_emphasis_id F).
  unfold replaceAll.
  rewrite (replaceGo_noLineBegins headingRe beginsHeading [] heading_match_begins t None RH).
  rewrite (replaceGo_noLineBegins listMarkerRe beginsListMarker [] listMarker_match_begins t None RL).
  rewrite (replaceGo_noLineBegins blockquoteRe beginsBlockquote [] blockquote_match_begins t None RQ).
  now apply trimmed_trim.
Qed.

Lemma cleanText_interview_trimmed (s : jsstring) : trimmed (InterviewPrep.cleanText s).
Proof.
  unfold InterviewPrep.cleanText.
  destruct (isEmpty s); [now split | apply trim_trimmed].
Qed.

Lemma cleanText_salary_trimmed (s : jsstring) : trimmed (SalaryInsights.cleanText s).
Proof.
  unfold SalaryInsights.cleanText.
  destruct (isEmpty s); [now split | apply trim_trimmed].
Qed.

(** C4, as the code has it: [cleanText] applied to its own output gives
    that output back whenever the output has no line that still begins
    with a heading marker or a list marker (or, for the salary variant, a
    block-quote marker). *)
Theorem cleanText_idempotent_without_residual_markers (s : jsstring) :
  (residualMarkerFree false (InterviewPrep.cleanText s) = true ->
   InterviewPrep.cleanText (InterviewPrep.cleanText s)
   = InterviewPrep.cleanText s) /\
  (residualMarkerFree true (SalaryInsights.cleanText s) = true ->
   SalaryInsights.cleanText (SalaryInsights.cleanText s)
   = SalaryInsights.cleanText s).
Proof.
  split; intro R.
  - apply interview_cleanText_fixed;
      [apply cleanText_interview_clean | apply cleanText_interview_trimmed | exact R].
  - apply salary_cleanText_fixed;
      [apply cleanText_salary_clean | apply cleanText_salary_trimmed | exact R].
Qed.

Lemma cleanText_idempotent_without_residual_markers_witness :
  InterviewPrep.cleanText
    (InterviewPrep.cleanText (js "## 1. **Tell me** about _yourself_"))
  = InterviewPrep.cleanText (js "## 1. **Tell me** about _yourself_").
Proof.
  apply (proj1 (cleanText_idempotent_without_residual_markers
                  (js "## 1. **Tell me** about _yourself_"))).
  vm_compute. reflexivity.
Defined.

(** *** Paragraph mode *)

Import CoverLetter.

Lemma isBreak_isSpace (c : char) : isBreak c = true -> isSpace c = true.
Proof.
  unfold isBreak, LF, CR. rewrite orb_true_iff, !N.eqb_eq.
  intros [-> | ->]; reflexivity.
Qed.

Lemma not_space_not_break (c : char) :
  isSpace c = false -> N.eqb LF c = false /\ N.eqb CR c = false.
Proof.
  intro S.
  assert (B : isBreak c = false).
  { destruct (isBreak c) eqn:B; [|reflexivity].
    apply isBreak_isSpace in B. congruence. }
  unfold isBreak in B. apply orb_false_iff in B.
  now rewrite (N.eqb_sym LF c), (N.eqb_sym CR c).
Qed.

Lemma not_break_eqb (c : char) :
  negb (isBreak c) = true -> N.eqb LF c = false /\ N.eqb CR c = false.
Proof.
  intro B. apply negb_true_iff in B.
  unfold isBreak in B. apply orb_false_iff in B.
  now rewrite (N.eqb_sym LF c), (N.eqb_sym CR c).
Qed.

Lemma newline_neverStartsWith :
  neverStartsWith newlineRe (fun c => negb (isBreak c)).
Proof.
  intros c prev s H. destruct (not_break_eqb c H) as [L C].
  unfold matchAt, newlineRe, Opt, lit. cbn [rmatch]. now rewrite L, C.
Qed.

Lemma newline_neverAtEnd : neverAtEnd newlineRe.
Proof. intro prev. reflexivity. Qed.

Lemma paragraphBreak_neverStartsWith :
  neverStartsWith paragraphBreakRe (fun c => negb (isBreak c)).
Proof.
  intros c prev s H. destruct (not_break_eqb c H) as [L C].
  unfold matchAt, paragraphBreakRe, Opt, lit. cbn [rmatch]. now rewrite L, C.
Qed.

Lemma matchAt_newline_LF prev (s : jsstring) :
  matchAt newlineRe prev (LF :: s) = Some 1.
Proof.
  unfold matchAt, newlineRe, Opt, lit. cbn [rmatch].
  change (N.eqb CR LF) with false. change (N.eqb LF LF) with true.
  cbv iota. now rewrite length_sub_1.
Qed.

Lemma afterSpaces_LF prev (s : jsstring) :
  rmatch newlineRe prev (LF :: s) (fun _ rest => Some rest) = Some s.
Proof.
  unfold newlineRe, Opt, lit. cbn [rmatch].
  change (N.eqb CR LF) with false. now change (N.eqb LF LF) with true.
Qed.

Lemma afterSpaces_other prev (x : char) (s : jsstring) :
  isSpace x = false ->
  rmatch newlineRe prev (x :: s) (fun _ rest => Some rest) = None.
Proof.
  intro X. destruct (not_space_not_break x X) as [L C].
  unfold newlineRe, Opt, lit. cbn [rmatch]. now rewrite L, C.
Qed.

Lemma spaces_then_text (x : char) (b : jsstring) :
  isSpace x = false ->
  forall fuel prev,
    starLoop (rmatch (Chr isSpace))
      (fun p s' => rmatch newlineRe p s' (fun _ rest => Some rest)) fuel prev (x :: b) = None.
Proof.
  intros X fuel prev. destruct fuel as [|fuel]; cbn [starLoop].
  - now apply afterSpaces_other.
  - cbn [rmatch]. rewrite X. now apply afterSpaces_other.
Qed.

Lemma spaces_over_newlines (x : char) (b : jsstring) :
  isSpace x = false ->
  forall m fuel prev,
    m <= fuel ->
    starLoop (rmatch (Chr isSpace))
      (fun p s' => rmatch newlineRe p s' (fun _ rest => Some rest)) fuel prev
      (repeat LF (S m) ++ x :: b) = Some (x :: b).
Proof.
  intros X m. induction m as [|m IH]; intros fuel prev Le.
  - cbn [repeat app]. destruct fuel as [|fuel]; cbn [starLoop].
    + apply afterSpaces_LF.
    + cbn [rmatch]. change (isSpace LF) with true. cbv iota.
      destruct (List.length (x :: b) <? List.length (LF :: x :: b));
        [rewrite (@spaces_then_text x b X) | ]; apply afterSpaces_LF.
  - destruct fuel as [|fuel]; [lia|].
    change (repeat LF (S (S m)) ++ x :: b)
      with (LF :: (repeat LF (S m) ++ x :: b)).
    cbn [starLoop rmatch]. change (isSpace LF) with true. cbv iota.
    assert (L : (List.length (repeat LF (S m) ++ x :: b)
                 <? List.length (LF :: repeat LF (S m) ++ x :: b)) = true)
      by (apply Nat.ltb_lt; simpl; lia).
    rewrite L. rewrite IH by lia. reflexivity.
Qed.

Lemma matchAt_paragraphBreak prev (m : nat) (x : char) (b : jsstring) :
  isSpace x = false ->
  matchAt paragraphBreakRe prev (repeat LF (S (S m)) ++ x :: b) = Some (S (S m)).
Proof.
  intro X. unfold matchAt.
  assert (E : rmatch paragraphBreakRe prev (repeat LF (S (S m)) ++ x :: b)
                (fun _ rest => Some rest) = Some (x :: b)).
  { change (repeat LF (S (S m)) ++ x :: b)
      with (LF :: (repeat LF (S m) ++ x :: b)).
    unfold paragraphBreakRe, Opt, lit. cbn [rmatch].
    change (N.eqb CR LF) with false. change (N.eqb LF LF) with true. cbv iota.
    apply (@spaces_over_newlines x b X). rewrite length_app, repeat_length. lia. }
  rewrite E. f_equal. rewrite length_app, repeat_length. lia.
Qed.

Lemma matchAt_single_newline prev (x : char) (b : jsstring) :
  isSpace x = false ->
  matchAt paragraphBreakRe prev (LF :: x :: b) = None.
Proof.
  intro X. unfold matchAt, paragraphBreakRe, Opt, lit. cbn [rmatch].
  change (N.eqb CR LF) with false. change (N.eqb LF LF) with true. cbv iota.
  fold newlineRe.
  change (starLoop _ _ _ _ _)
    with (starLoop (rmatch (Chr isSpace))
            (fun p s' => rmatch newlineRe p s' (fun _ rest => Some rest))
            (List.length (x :: b)) (Some LF) (x :: b)).
  now rewrite (@spaces_then_text x b X).
Qed.

(** What a plain line is made of. *)
Lemma plainLine_inv (l : jsstring) :
  plainLine l = true ->
  forallb (fun c => negb (isBreak c)) l = true /\
  Forall (fun c => isEmphasis c = false) l /\
  trimmed l /\
  (exists x l', l = x :: l' /\ isSpace x = false) /\
  (exists y l', rev l = y :: l' /\ isSpace y = false).
Proof.
  unfold plainLine. rewrite !andb_true_iff. intros [[P H] T].
  assert (PB : forall c, plainChar c = true ->
                         negb (isBreak c) = true /\ isEmphasis c = false).
  { intros c. unfold plainChar, isBreak, isEmphasis.
    rewrite negb_true_iff, !orb_false_iff.
    intros [[[A B] C] D]. rewrite A, B, C, D. now split. }
  rewrite forallb_forall in P.
  destruct l as [|x l']; [discriminate|].
  destruct (rev (x :: l')) as [|y r] eqn:R; [discriminate|].
  apply negb_true_iff in H. apply negb_true_iff in T.
  repeat split.
  - apply forallb_forall. intros c I. now apply PB, P.
  - apply Forall_forall. intros c I. now apply PB, P.
  - now apply dropWhile_head_false.
  - rewrite R. now apply dropWhile_head_false.
  - now exists x, l'.
  - now exists y, r.
Qed.

Lemma trimmed_between (a mid b : jsstring) :
  plainLine a = true -> plainLine b = true -> trimmed (a ++ mid ++ b).
Proof.
  intros A B.
  destruct (plainLine_inv a A) as (_ & _ & _ & (x & a' & -> & X) & _).
  destruct (plainLine_inv b B) as (_ & _ & _ & _ & (y & r & R & Y)).
  split.
  - now apply dropWhile_head_false.
  - rewrite !rev_app_distr, R. now apply dropWhile_head_false.
Qed.

Lemma trimmed_nonempty_kept (t : jsstring) :
  trimmed t -> t <> [] -> negb (isEmpty (trim t)) = true.
Proof.
  intros T N. rewrite (trimmed_trim T). now rewrite (isEmpty_false N).
Qed.

Lemma split_plain_tail prev (b cur : jsstring) :
  forallb (fun c => negb (isBreak c)) b = true ->
  splitGo paragraphBreakRe prev b 0 cur = [rev cur ++ b].
Proof.
  intro F. rewrite <- (app_nil_r b) at 1.
  rewrite (@splitGo_prefix _ _ paragraphBreak_neverStartsWith b prev [] cur F).
  simpl. now rewrite rev_app_distr, rev_involutive.
Qed.

Lemma split_two_paragraphs (a b : jsstring) (n : nat) :
  plainLine a = true -> plainLine b = true -> 2 <= n ->
  split paragraphBreakRe (a ++ repeat LF n ++ b) = [a; b].
Proof.
  intros A B N.
  destruct (plainLine_inv a A) as (FA & _ & _ & (x & a' & Ea & X) & _).
  destruct (plainLine_inv b B) as (FB & _ & _ & (y & b' & Eb & Y) & _).
  destruct n as [|[|m]]; try lia.
  unfold split.
  destruct (a ++ repeat LF (S (S m)) ++ b) as [|c0 t0] eqn:T;
    [subst a; discriminate|].
  rewrite <- T.
  rewrite (@splitGo_prefix _ _ paragraphBreak_neverStartsWith a None _ [] FA).
  rewrite app_nil_r. subst b.
  change (repeat LF (S (S m)) ++ y :: b')
    with (LF :: (repeat LF (S m) ++ y :: b')) at 1.
  cbn [splitGo].
  change (LF :: (repeat LF (S m) ++ y :: b'))
    with (repeat LF (S (S m)) ++ y :: b').
  rewrite (@matchAt_paragraphBreak _ m y b' Y).
  rewrite rev_involutive. f_equal.
  rewrite <- (repeat_length LF (S m)) at 2.
  rewrite splitGo_skip.
  exact (@split_plain_tail _ (y :: b') [] FB).
Qed.

Lemma split_single_break (a b : jsstring) :
  plainLine a = true -> plainLine b = true ->
  split paragraphBreakRe (a ++ LF :: b) = [a ++ LF :: b].
Proof.
  intros A B.
  destruct (plainLine_inv a A) as (FA & _ & _ & (x & a' & Ea & X) & _).
  destruct (plainLine_inv b B) as (FB & _ & _ & (y & b' & Eb & Y) & _).
  unfold split.
  destruct (a ++ LF :: b) as [|c0 t0] eqn:T; [subst a; discriminate|].
  rewrite <- T.
  rewrite (@splitGo_prefix _ _ paragraphBreak_neverStartsWith a None _ [] FA).
  rewrite app_nil_r. cbn [splitGo].
  assert (MN : matchAt paragraphBreakRe (prevAfter None a) (LF :: b) = None)
    by (rewrite Eb; now apply matchAt_single_newline).
  rewrite MN.
  rewrite (@split_plain_tail _ b _ FB).
  simpl. rewrite rev_involutive. now rewrite <- app_assoc.
Qed.

Lemma replaceAll_newline_plain (l : jsstring) :
  forallb (fun c => negb (isBreak c)) l = true ->
  replaceAll newlineRe lineBreak l = l.
Proof.
  intro F. unfold replaceAll.
  exact (@replaceGo_id _ _ lineBreak newline_neverStartsWith
           newline_neverAtEnd l None F).
Qed.

Lemma replaceAll_newline_two_lines (a b : jsstring) :
  forallb (fun c => negb (isBreak c)) a = true ->
  forallb (fun c => negb (isBreak c)) b = true ->
  replaceAll newlineRe lineBreak (a ++ LF :: b) = a ++ lineBreak ++ b.
Proof.
  intros FA FB. unfold replaceAll.
  rewrite (@replaceGo_prefix _ _ lineBreak newline_neverStartsWith a None _ FA).
  f_equal. cbn [replaceGo]. rewrite matchAt_newline_LF. f_equal.
  exact (@replaceGo_id _ _ lineBreak newline_neverStartsWith
           newline_neverAtEnd b _ FB).
Qed.

Lemma Forall_repeat_LF (n : nat) :
  Forall (fun c => isEmphasis c = false) (repeat LF n).
Proof.
  apply Forall_forall. intros c I. apply repeat_spec in I. now subst c.
Qed.

Lemma paragraphs_of_clean (t : jsstring) :
  Forall (fun c => isEmphasis c = false) t -> trimmed t ->
  paragraphs t
  = filter (fun p => negb (isEmpty (trim p))) (split paragraphBreakRe t).
Proof.
  intros F T. unfold paragraphs.
  now rewrite (replaceAll_emphasis_id F), (trimmed_trim T).
Qed.

Lemma plainLine_kept (l : jsstring) :
  plainLine l = true -> negb (isEmpty (trim l)) = true.
Proof.
  intro P.
  destruct (plainLine_inv l P) as (_ & _ & T & (x & l' & -> & _) & _).
  now apply trimmed_nonempty_kept.
Qed.

Lemma paragraphContents_two_paragraphs (a b : jsstring) (n : nat) :
  plainLine a = true -> plainLine b = true -> 2 <= n ->
  paragraphContents (a ++ repeat LF n ++ b) = [a; b].
Proof.
  intros A B N.
  destruct (plainLine_inv a A) as (FA & EA & _).
  destruct (plainLine_inv b B) as (FB & EB & _).
  unfold paragraphContents.
  rewrite paragraphs_of_clean.
  - rewrite (split_two_paragraphs a b A B N). cbn [filter].
    rewrite (plainLine_kept a A), (plainLine_kept b B). cbn [List.map].
    now rewrite (replaceAll_newline_plain a FA), (replaceAll_newline_plain b FB).
  - repeat (apply Forall_app; split); auto using Forall_repeat_LF.
  - now apply trimmed_between.
Qed.

Lemma paragraphContents_line_break (a b : jsstring) :
  plainLine a = true -> plainLine b = true ->
  paragraphContents (a ++ LF :: b) = [a ++ lineBreak ++ b].
Proof.
  intros A B.
  destruct (plainLine_inv a A) as (FA & EA & _ & (x & a' & Ea & _) & _).
  destruct (plainLine_inv b B) as (FB & EB & _).
  assert (T : trimmed (a ++ LF :: b)) by exact (trimmed_between a [LF] b A B).
  unfold paragraphContents.
  rewrite paragraphs_of_clean.
  - rewrite (split_single_break a b A B). cbn [filter].
    rewrite trimmed_nonempty_kept; [|exact T | subst a; discriminate].
    cbn [List.map].
    now rewrite (replaceAll_newline_two_lines a b FA FB).
  - apply Forall_app; split; [exact EA | now constructor].
  - exact T.
Qed.

Lemma paragraphs_nonblank (text : jsstring) :
  Forall (fun p => trim p <> []) (paragraphs text).
Proof.
  unfold paragraphs. apply Forall_forall. intros p I.
  apply filter_In in I. destruct I as [_ K].
  intro E. rewrite E in K. discriminate.
Qed.

End NormalizerProperties.

(** * Further properties of the handlers *)

Section HandlerOutcomes.
Import JsString Regex Normalizer Json Runtime.
Local Open Scope nat_scope.

(** Runs the combinators of a handler up to the answers of the service. *)
Ltac run_handler :=
  unfold run, finalState, finalTrace, tryCatchFinally, bind, get, fetch,
    parseJson, lift, toast, emit, throw, ret, modify, received;
  simpl.

Lemma received_cases (srv : Server) (req : Request) (failure : string) :
  (srv req = None /\ received srv req failure = inl Rejected) \/
  (exists resp, srv req = Some resp /\ ok resp = false /\
                received srv req failure = inl (Error failure)) \/
  (exists resp, srv req = Some resp /\ ok resp = true /\ json resp = None /\
                received srv req failure = inl Rejected) \/
  (exists resp data, srv req = Some resp /\ ok resp = true /\
                     json resp = Some data /\
                     received srv req failure = inr data).
Proof.
  unfold received. destruct (srv req) as [resp|]; [|now left].
  right. destruct (ok resp) eqn:O; simpl.
  - right. destruct (json resp) as [data|] eqn:J.
    + right. now exists resp, data.
    + left. now exists resp.
  - left. now exists resp.
Qed.



(** X2.  When the call of [handleAnalyze] fails before a result is
    stored (the fetch is rejected, the status is not ok, the body is no
    JSON, or [data.results[0]] cannot be read), the analysis shown before
    is kept and the only toast is "Analysis failed". *)
Theorem handleAnalyze_failure_keeps_result (srv : Server) (st : Analysis.State)
    (H : trim (Analysis.jobRequirement st) <> [])
    (F : (exists e, received srv (Analysis.rateResumes (Analysis.jobRequirement st))
                      "Analysis failed" = inl e) \/
         (exists data e,
            received srv (Analysis.rateResumes (Analysis.jobRequirement st))
              "Analysis failed" = inr data /\
            (let? results := getProp data "results" in getFirst results) = inl e)) :
  let r := run Analysis.handleAnalyze srv st in
  Analysis.analysisResult (finalState r) = Analysis.analysisResult st /\
  toasts (finalTrace r) = [Analysis.failedToast].
Proof.
  unfold Analysis.handleAnalyze.
  unfold Analysis.setIsAnalyzing, Analysis.setAnalysisResult.
  revert F. run_handler.
  rewrite (isEmpty_false H). simpl.
  destruct (srv _) as [resp|]; simpl; [|now repeat split].
  destruct (ok resp); simpl; [|now repeat split].
  destruct (json resp) as [data|]; simpl; [|now repeat split].
  intros [[e E] | (d & e & [= <-] & E)]; [discriminate|].
  unfold rbind in E.
  destruct (getProp data "results") as [e'|results]; simpl; [now repeat split|].
  destruct (getFirst results) as [e'|first]; simpl; [now repeat split|].
  discriminate.
Qed.

Lemma handleAnalyze_failure_keeps_result_witness :
  Analysis.analysisResult
    (finalState
       (run Analysis.handleAnalyze (fun _ => None)
          {| Analysis.jobRequirement := js "Data analyst";
             Analysis.isAnalyzing := false;
             Analysis.analysisResult := Analysis.resultWithoutKeywordAnalysis |}))
  = Analysis.resultWithoutKeywordAnalysis.
Proof.
  refine (proj1 (@handleAnalyze_failure_keeps_result (fun _ => None)
    {| Analysis.jobRequirement := js "Data analyst";
       Analysis.isAnalyzing := false;
       Analysis.analysisResult := Analysis.resultWithoutKeywordAnalysis |} _ _)).
  - discriminate.
  - left. exists Rejected. reflexivity.
Defined.

(** X3.  When the body of the answer has a readable [results[0]],
    [handleAnalyze] stores it as the analysis result, and raises one toast:
    "Analysis complete" if its [score] can be read and converted to a string
    by the template literal, and "Analysis failed" if reading the score
    throws or if its conversion does (an object with a [toString] key, or an
    array holding one).  In particular an empty [results] array stores
    [undefined] and reports a failure. *)
Theorem handleAnalyze_stores_first_result (srv : Server) (st : Analysis.State)
    (data results first : value)
    (H : trim (Analysis.jobRequirement st) <> [])
    (R : received srv (Analysis.rateResumes (Analysis.jobRequirement st))
           "Analysis failed" = inr data)
    (G : getProp data "results" = inr results)
    (F : getFirst results = inr first) :
  let r := run Analysis.handleAnalyze srv st in
  Analysis.analysisResult (finalState r) = first /\
  (forall score,
     getProp first "score" = inr score -> stringifies score = true ->
     toasts (finalTrace r) = [Analysis.completeToast score]) /\
  (forall score,
     getProp first "score" = inr score -> stringifies score = false ->
     toasts (finalTrace r) = [Analysis.failedToast]) /\
  (forall e,
     getProp first "score" = inl e ->
     toasts (finalTrace r) = [Analysis.failedToast]) /\
  (results = VArr [] ->
   Analysis.analysisResult (finalState r) = VUndefined /\
   toasts (finalTrace r) = [Analysis.failedToast]).
Proof.
  unfold Analysis.handleAnalyze.
  unfold Analysis.setIsAnalyzing, Analysis.setAnalysisResult.
  revert R. run_handler.
  rewrite (isEmpty_false H). simpl.
  destruct (srv _) as [resp|]; simpl; [|discriminate].
  destruct (ok resp); simpl; [|discriminate].
  destruct (json resp) as [d|]; simpl; [|discriminate].
  intros [= ->]. rewrite G. simpl. rewrite F. simpl.
  destruct (getProp first "score") as [e|score] eqn:S; simpl.
  - split; [reflexivity|]. split; [discriminate|]. split; [discriminate|].
    split; [reflexivity|]. intros ->. simpl in F. now injection F as <-.
  - unfold interpolated. destruct (stringifies score) eqn:T; simpl.
    + split; [reflexivity|]. split; [now intros ? [= <-]|].
      split; [intros ? [= <-]; congruence|]. split; [discriminate|].
      intros ->. simpl in F. injection F as <-. discriminate.
    + split; [reflexivity|]. split; [intros ? [= <-]; congruence|].
      split; [reflexivity|]. split; [reflexivity|].
      intros ->. simpl in F. injection F as <-. discriminate.
Qed.

Lemma handleAnalyze_stores_first_result_witness :
  let first := VObj [("score"%string, VObj [("toString"%string, VNum 1%Q)])] in
  let r := run Analysis.handleAnalyze
             (fun _ => Some {| ok := true;
                               json := Some (VObj [("results"%string,
                                                    VArr [first])]) |})
             {| Analysis.jobRequirement := js "Data analyst";
                Analysis.isAnalyzing := false;
                Analysis.analysisResult := VNull |} in
  Analysis.analysisResult (finalState r) = first /\
  toasts (finalTrace r) = [Analysis.failedToast].
Proof.
  intros first r.
  pose proof (@handleAnalyze_stores_first_result
    (fun _ => Some {| ok := true;
                      json := Some (VObj [("results"%string, VArr [first])]) |})
    {| Analysis.jobRequirement := js "Data analyst";
       Analysis.isAnalyzing := false;
       Analysis.analysisResult := VNull |}
    (VObj [("results"%string, VArr [first])]) (VArr [first]) first
    ltac:(discriminate) eq_refl eq_refl eq_refl) as T.
  split; [exact (proj1 T)|].
  exact (proj1 (proj2 (proj2 T))
           (VObj [("toString"%string, VNum 1%Q)]) eq_refl eq_refl).
Defined.

(** ** Interview preparation *)

Lemma interview_run (srv : Server) (st : InterviewPrep.State) :
  trim (InterviewPrep.jobRequirement st) <> [] ->
  run InterviewPrep.handleGenerate srv st
  = (inr tt,
     match (let? data := received srv
                           (InterviewPrep.interviewPrep (InterviewPrep.jobRequirement st))
                           "Generation failed" in
            InterviewPrep.cleanData data) with
     | inr d =>
         ({| InterviewPrep.jobRequirement := InterviewPrep.jobRequirement st;
             InterviewPrep.isGenerating := false;
             InterviewPrep.prepData := Some d |},
          [Fetched (InterviewPrep.interviewPrep (InterviewPrep.jobRequirement st));
           Toasted InterviewPrep.readyToast])
     | inl e =>
         ({| InterviewPrep.jobRequirement := InterviewPrep.jobRequirement st;
             InterviewPrep.isGenerating := false;
             InterviewPrep.prepData := None |},
          [Fetched (InterviewPrep.interviewPrep (InterviewPrep.jobRequirement st));
           ConsoleError e;
           Toasted InterviewPrep.failedToast])
     end).
Proof.
  intro H. unfold InterviewPrep.handleGenerate.
  unfold InterviewPrep.setIsGenerating, InterviewPrep.setPrepData. run_handler.
  rewrite (isEmpty_false H). simpl.
  destruct (srv _) as [resp|]; simpl; [|reflexivity].
  destruct (ok resp); simpl; [|reflexivity].
  destruct (json resp) as [data|]; simpl; [|reflexivity].
  destruct (InterviewPrep.cleanData data) as [e|d]; reflexivity.
Qed.



(** A cleaned string: no emphasis marker, neither end white space. *)
Lemma interview_cleanItem_clean (v : value) (s : jsstring) :
  InterviewPrep.cleanItem v = inr s ->
  Forall (fun c => c <> STAR /\ c <> UNDERSCORE) s /\ trimmed s.
Proof.
  unfold InterviewPrep.cleanItem.
  destruct (negb (truthy v)).
  - intros [= <-]. split; [constructor | now split].
  - destruct v; try discriminate. intros [= <-]. split.
    + apply Forall_not_emphasis, cleanText_interview_clean.
    + apply cleanText_interview_trimmed.
Qed.

Lemma interview_cleanItems_clean (items : list value) (l : list jsstring) :
  InterviewPrep.cleanItems items = inr l ->
  List.length l = List.length items /\
  Forall (fun s => Forall (fun c => c <> STAR /\ c <> UNDERSCORE) s /\ trimmed s) l.
Proof.
  revert l. induction items as [|v items IH]; intros l; simpl.
  - intros [= <-]. now split.
  - destruct (InterviewPrep.cleanItem v) as [e|s] eqn:V; simpl; [discriminate|].
    destruct (InterviewPrep.cleanItems items) as [e|ss]; simpl; [discriminate|].
    intros [= <-]. destruct (IH ss eq_refl) as [L F]. split.
    + simpl. now rewrite L.
    + constructor; [now apply (interview_cleanItem_clean v) | exact F].
Qed.

Lemma interview_mapCleanText_inv (v : value) (l : list jsstring) :
  InterviewPrep.mapCleanText v = inr l ->
  exists items, v = VArr items /\ InterviewPrep.cleanItems items = inr l.
Proof.
  destruct v; try discriminate. intro H. now exists items.
Qed.

(** X5.  Whenever the interview data is accepted, the two mandatory
    fields were arrays, the cleaned lists have as many entries as those
    arrays, and every entry of the four cleaned lists has no asterisk and no
    underscore and neither begins nor ends with white space. *)
Theorem interview_cleanData_entries (data : value)
    (d : InterviewPrep.InterviewPrepData)
    (H : InterviewPrep.cleanData data = inr d) :
  (exists technical behavioral,
     getProp data "technical_questions" = inr (VArr technical) /\
     getProp data "behavioral_questions" = inr (VArr behavioral) /\
     List.length (InterviewPrep.technical_questions d) = List.length technical /\
     List.length (InterviewPrep.behavioral_questions d) = List.length behavioral) /\
  Forall (fun s => Forall (fun c => c <> STAR /\ c <> UNDERSCORE) s /\ trimmed s)
    (InterviewPrep.technical_questions d ++ InterviewPrep.behavioral_questions d
     ++ InterviewPrep.key_talking_points d ++ InterviewPrep.questions_to_ask d).
Proof.
  unfold InterviewPrep.cleanData in H.
  destruct (getProp data "technical_questions") as [e|technical] eqn:T;
    simpl in H; [discriminate|].
  destruct (getProp data "behavioral_questions") as [e|behavioral] eqn:B;
    simpl in H; [discriminate|].
  destruct (negb (truthy technical) || negb (truthy behavioral)); [discriminate|].
  destruct (InterviewPrep.mapCleanText technical) as [e|tq] eqn:TQ;
    simpl in H; [discriminate|].
  destruct (InterviewPrep.mapCleanText behavioral) as [e|bq] eqn:BQ;
    simpl in H; [discriminate|].
  destruct (getProp data "key_talking_points") as [e|talking];
    simpl in H; [discriminate|].
  destruct (if truthy talking then InterviewPrep.mapCleanText talking else inr [])
    as [e|kt] eqn:KT; simpl in H; [discriminate|].
  destruct (getProp data "questions_to_ask") as [e|asking];
    simpl in H; [discriminate|].
  destruct (if truthy asking then InterviewPrep.mapCleanText asking else inr [])
    as [e|qa] eqn:QA; simpl in H; [discriminate|].
  injection H as <-. simpl.
  apply interview_mapCleanText_inv in TQ. destruct TQ as (ti & -> & TQ).
  apply interview_mapCleanText_inv in BQ. destruct BQ as (bi & -> & BQ).
  destruct (interview_cleanItems_clean ti TQ) as [LT FT].
  destruct (interview_cleanItems_clean bi BQ) as [LB FB].
  assert (FK : Forall (fun s => Forall (fun c => c <> STAR /\ c <> UNDERSCORE) s
                                /\ trimmed s) kt).
  { destruct (truthy talking); [|injection KT as <-; constructor].
    apply interview_mapCleanText_inv in KT. destruct KT as (ki & -> & KT).
    now apply (interview_cleanItems_clean ki). }
  assert (FA : Forall (fun s => Forall (fun c => c <> STAR /\ c <> UNDERSCORE) s
                                /\ trimmed s) qa).
  { destruct (truthy asking); [|injection QA as <-; constructor].
    apply interview_mapCleanText_inv in QA. destruct QA as (qi & -> & QA).
    now apply (interview_cleanItems_clean qi). }
  split.
  - now exists ti, bi.
  - repeat (apply Forall_app; split); assumption.
Qed.

Lemma interview_cleanData_entries_witness :
  Forall (fun s => Forall (fun c => c <> STAR /\ c <> UNDERSCORE) s /\ trimmed s)
    ([js "Explain joins"] ++ [[]] ++ [] ++ []).
Proof.
  refine (proj2 (@interview_cleanData_entries
    (VObj [("technical_questions"%string, VArr [VStr (js "1. **Explain joins**")]);
           ("behavioral_questions"%string, VArr [VNull])])
    {| InterviewPrep.technical_questions := [js "Explain joins"];
       InterviewPrep.behavioral_questions := [[]];
       InterviewPrep.key_talking_points := [];
       InterviewPrep.questions_to_ask := [] |} _)).
  vm_compute. reflexivity.
Defined.

Lemma interview_cleanItems_bad (items : list value) :
  Exists (fun v => truthy v = true /\ forall s, v <> VStr s) items ->
  InterviewPrep.cleanItems items = inl TypeError.
Proof.
  induction 1 as [v items [T N] | v items E IH]; simpl.
  - unfold InterviewPrep.cleanItem. rewrite T. simpl.
    destruct v; try reflexivity. now destruct (N s).
  - destruct (InterviewPrep.cleanItem v) as [e|s] eqn:V; simpl.
    + unfold InterviewPrep.cleanItem in V.
      destruct (negb (truthy v)); [discriminate|].
      destruct v; congruence.
    + now rewrite IH.
Qed.



(** ** Cover letter *)

Lemma coverLetter_run (srv : Server) (st : CoverLetter.State) :
  trim (CoverLetter.jobRequirement st) <> [] ->
  let req := CoverLetter.generateCoverLetter (CoverLetter.jobRequirement st)
               (CoverLetter.companyName st) in
  run CoverLetter.handleGenerate srv st
  = (inr tt,
     match (let? data := received srv req "Generation failed" in
            getProp data "cover_letter") with
     | inr v =>
         if truthy v
         then ({| CoverLetter.jobRequirement := CoverLetter.jobRequirement st;
                  CoverLetter.companyName := CoverLetter.companyName st;
                  CoverLetter.isGenerating := false;
                  CoverLetter.coverLetter := v |},
               [Fetched req; Toasted CoverLetter.generatedToast])
         else ({| CoverLetter.jobRequirement := CoverLetter.jobRequirement st;
                  CoverLetter.companyName := CoverLetter.companyName st;
                  CoverLetter.isGenerating := false;
                  CoverLetter.coverLetter := VStr [] |},
               [Fetched req; Toasted CoverLetter.failedToast])
     | inl _ =>
         ({| CoverLetter.jobRequirement := CoverLetter.jobRequirement st;
             CoverLetter.companyName := CoverLetter.companyName st;
             CoverLetter.isGenerating := false;
             CoverLetter.coverLetter := VStr [] |},
          [Fetched req; Toasted CoverLetter.failedToast])
     end).
Proof.
  intros H req. subst req. unfold CoverLetter.handleGenerate.
  unfold CoverLetter.setIsGenerating, CoverLetter.setCoverLetter. run_handler.
  rewrite (isEmpty_false H). simpl.
  destruct (srv _) as [resp|]; simpl; [|reflexivity].
  destruct (ok resp); simpl; [|reflexivity].
  destruct (json resp) as [data|]; simpl; [|reflexivity].
  destruct (getProp data "cover_letter") as [e|v]; simpl; [reflexivity|].
  destruct (truthy v); reflexivity.
Qed.



(** X8.  The interview and the cover-letter handlers treat a blank job
    description like the analysis handler: the only effect is the
    "Job requirement required" toast; nothing is sent and the state is
    unchanged. *)
Theorem blank_job_description_rejected_by_siblings (srv : Server) :
  (forall st : InterviewPrep.State,
     trim (InterviewPrep.jobRequirement st) = [] ->
     run InterviewPrep.handleGenerate srv st
     = (inr tt, (st, [Toasted InterviewPrep.requiredToast]))) /\
  (forall st : CoverLetter.State,
     trim (CoverLetter.jobRequirement st) = [] ->
     run CoverLetter.handleGenerate srv st
     = (inr tt, (st, [Toasted CoverLetter.requiredToast]))).
Proof.
  split; intros st H.
  - unfold InterviewPrep.handleGenerate. run_handler. rewrite H. simpl.
    now destruct st.
  - unfold CoverLetter.handleGenerate. run_handler. rewrite H. simpl.
    now destruct st.
Qed.

Lemma blank_job_description_rejected_by_siblings_witness :
  requests
    (finalTrace
       (run CoverLetter.handleGenerate (fun _ => None)
          {| CoverLetter.jobRequirement := [LF; 32%N];
             CoverLetter.companyName := js "Acme";
             CoverLetter.isGenerating := false;
             CoverLetter.coverLetter := VStr [] |})) = [].
Proof.
  rewrite (proj2 (blank_job_description_rejected_by_siblings (fun _ => None))
             {| CoverLetter.jobRequirement := [LF; 32%N];
                CoverLetter.companyName := js "Acme";
                CoverLetter.isGenerating := false;
                CoverLetter.coverLetter := VStr [] |} eq_refl).
  reflexivity.
Defined.

(** ** Chat *)

Lemma reply_received (srv : Server) (req : Request) :
  Chat.reply srv req
  = (let? data := received srv req "Failed to get response from AI backend" in
     let? response := getProp data "response" in
     Chat.cleanResponse response).
Proof.
  unfold Chat.reply, received.
  destruct (srv req) as [resp|]; [|reflexivity].
  destruct (ok resp); simpl; [|reflexivity].
  now destruct (json resp).
Qed.

Lemma handleSend_run (srv : Server) (domain : jsstring)
    (messageText : option jsstring) (st : Chat.State) :
  Chat.textToSend messageText st <> [] ->
  let text := Chat.textToSend messageText st in
  let req := Chat.careerRoadmap text domain in
  run (Chat.handleSend domain messageText) srv st
  = (inr tt,
     match Chat.reply srv req with
     | inr r =>
         ({| Chat.messages :=
               Chat.messages st
               ++ [ {| Chat.role := Chat.user; Chat.content := text |};
                    {| Chat.role := Chat.assistant; Chat.content := r |} ];
             Chat.input := [];
             Chat.isLoading := false |},
          [Fetched req])
     | inl e =>
         ({| Chat.messages := Chat.messages st;
             Chat.input := [];
             Chat.isLoading := false |},
          [Fetched req; ConsoleError e; Toasted Chat.connectionToast])
     end).
Proof.
  intros H text req. subst text req.
  unfold Chat.handleSend, Chat.reply.
  unfold Chat.setInput, Chat.setMessages, Chat.setIsLoading. run_handler.
  rewrite (isEmpty_false H). simpl.
  destruct (srv _) as [resp|]; simpl; [|now rewrite removelast_last].
  destruct (ok resp); simpl; [|now rewrite removelast_last].
  destruct (json resp) as [data|]; simpl; [|now rewrite removelast_last].
  destruct (getProp data "response") as [e|v]; simpl;
    [now rewrite removelast_last|].
  destruct (Chat.cleanResponse v) as [e|r]; simpl;
    [now rewrite removelast_last|].
  now rewrite <- app_assoc.
Qed.

Lemma handleSend_blank (srv : Server) (domain : jsstring)
    (messageText : option jsstring) (st : Chat.State) :
  Chat.textToSend messageText st = [] ->
  run (Chat.handleSend domain messageText) srv st = (inr tt, (st, [])).
Proof.
  intro H. unfold Chat.handleSend. run_handler. rewrite H. simpl.
  now destruct st.
Qed.

(** X9.  The chat does nothing at all (no request, no toast, no state
    change) when there is nothing to send: [handleSend] with an empty
    message and a blank input, a key press that is not an unshifted Enter,
    an unshifted Enter on a blank input, and a quick question that is
    empty while the input is blank. *)
Theorem chat_ignores_blank_input (srv : Server) (domain : jsstring)
    (st : Chat.State) :
  (trim (Chat.input st) = [] ->
   run (Chat.handleSend domain None) srv st = (inr tt, (st, [])) /\
   run (Chat.handleSend domain (Some [])) srv st = (inr tt, (st, [])) /\
   run (Chat.handleQuickQuestion domain []) srv st = (inr tt, (st, []))) /\
  (forall key shiftKey,
     trim (Chat.input st) = [] \/ key <> "Enter"%string \/ shiftKey = true ->
     run (Chat.handleKeyPress domain key shiftKey) srv st = (inr tt, (st, []))).
Proof.
  split.
  - intro H. unfold Chat.handleQuickQuestion.
    repeat split; now apply handleSend_blank.
  - intros key shiftKey H. unfold Chat.handleKeyPress.
    destruct (String.eqb key "Enter" && negb shiftKey) eqn:E; [|reflexivity].
    apply andb_true_iff in E. destruct E as [K S].
    apply String.eqb_eq in K. apply negb_true_iff in S.
    destruct H as [H | [H | H]]; [| congruence | congruence].
    now apply handleSend_blank.
Qed.

Lemma chat_ignores_blank_input_witness :
  let st := {| Chat.messages := []; Chat.input := js "   ";
               Chat.isLoading := false |} in
  run (Chat.handleKeyPress (js "Law") "Enter" false) (fun _ => None) st
  = (inr tt, (st, [])).
Proof.
  intro st.
  apply (proj2 (@chat_ignores_blank_input (fun _ => None) (js "Law") st)).
  left. reflexivity.
Defined.



(** X11.  However the turns of several sends interleave (a click on a
    suggested question or the Enter key starts one, and every settling
    follows the start of a call still in flight), no message that was in
    the conversation before them is removed or changed: the messages
    afterwards are the earlier messages followed by added ones. *)
Theorem overlapping_sends_keep_earlier_messages (domain : jsstring)
    (srv : Server) (ts : list Chat.Turn) (st : Chat.State)
    (C : Chat.causal domain srv ts 0 st = true) :
  exists added,
    Chat.messages (finalState (run (Chat.turns domain ts) srv st))
    = Chat.messages st ++ added.
Proof.
  unfold run, finalState.
  apply (@turns_keep_base domain srv ts 0 st [] (Chat.messages st) [] C).
  - now rewrite app_nil_r.
  - simpl. lia.
Qed.

Lemma overlapping_sends_keep_earlier_messages_witness :
  let domain := js "Finance" in
  let st := {| Chat.messages := [Chat.welcomeMessage domain];
               Chat.input := [];
               Chat.isLoading := false |} in
  exists added,
    Chat.messages
      (finalState
         (run (Chat.turns domain
                 [ Chat.Start (Some Chat.keySkills);
                   Chat.Start (Some Chat.seniorRole);
                   Chat.Settle (inl Rejected);
                   Chat.Settle (inl Rejected) ]) Chat.failsOnKeySkills st))
    = Chat.messages st ++ added.
Proof.
  intros domain st.
  apply (@overlapping_sends_keep_earlier_messages domain Chat.failsOnKeySkills
           [ Chat.Start (Some Chat.keySkills);
             Chat.Start (Some Chat.seniorRole);
             Chat.Settle (inl Rejected);
             Chat.Settle (inl Rejected) ] st).
  reflexivity.
Defined.

Lemma cleanResponse_clean (v : value) (r : jsstring) :
  Chat.cleanResponse v = inr r ->
  Forall (fun c => c <> STAR) r /\ trimmed r.
Proof.
  unfold Chat.cleanResponse. destruct (negb (truthy v)).
  - intros [= <-]. split; [constructor | now split].
  - destruct v; try discriminate. intros [= <-]. split.
    + eapply Forall_impl; [|apply cleanResponseFormatting_clean].
      intros c. unfold isAsterisk. now rewrite N.eqb_neq.
    + unfold Chat.cleanResponseFormatting.
      destruct (isEmpty s); [now split | apply trim_trimmed].
Qed.

(** X12.  Every assistant message that [handleSend] adds to the
    conversation has no asterisk and neither begins nor ends with white
    space. *)
Theorem handleSend_assistant_message_cleaned (srv : Server) (domain : jsstring)
    (messageText : option jsstring) (st : Chat.State) :
  exists added,
    Chat.messages (finalState (run (Chat.handleSend domain messageText) srv st))
    = Chat.messages st ++ added /\
    forall m, In m added -> Chat.role m = Chat.assistant ->
              Forall (fun c => c <> STAR) (Chat.content m) /\
              trimmed (Chat.content m).
Proof.
  destruct (Chat.textToSend messageText st) as [|c t] eqn:T.
  - rewrite (handleSend_blank srv domain messageText st T).
    exists []. split; [now rewrite app_nil_r | intros m []].
  - assert (N : Chat.textToSend messageText st <> []) by congruence.
    rewrite (handleSend_run srv domain messageText st N).
    destruct (Chat.reply _ _) as [e|r] eqn:R; unfold finalState; simpl.
    + exists []. split; [now rewrite app_nil_r | intros m []].
    + eexists. split; [reflexivity|].
      intros m [<- | [<- | []]] Ro; [discriminate|]. simpl.
      rewrite reply_received in R.
      destruct (received _ _ _) as [e|data]; [discriminate|]. simpl in R.
      destruct (getProp data "response") as [e|v]; [discriminate|]. simpl in R.
      now apply (cleanResponse_clean v).
Qed.

(** X13.  An answer whose [response] field is missing or falsy is
    not treated as a failure: the user's message is kept, an assistant
    message with empty content is added, and no toast is raised. *)
Theorem handleSend_missing_response_field (srv : Server) (domain : jsstring)
    (messageText : option jsstring) (st : Chat.State) (data v : value)
    (H : Chat.textToSend messageText st <> [])
    (R : received srv
           (Chat.careerRoadmap (Chat.textToSend messageText st) domain)
           "Failed to get response from AI backend" = inr data)
    (G : getProp data "response" = inr v)
    (F : truthy v = false) :
  let r := run (Chat.handleSend domain messageText) srv st in
  Chat.messages (finalState r)
  = Chat.messages st
    ++ [ {| Chat.role := Chat.user;
            Chat.content := Chat.textToSend messageText st |};
         {| Chat.role := Chat.assistant; Chat.content := [] |} ] /\
  toasts (finalTrace r) = [].
Proof.
  intro r. subst r. rewrite (handleSend_run srv domain messageText st H).
  rewrite reply_received, R. simpl. rewrite G. simpl.
  unfold Chat.cleanResponse. rewrite F. simpl. now split.
Qed.

Lemma handleSend_missing_response_field_witness :
  let st := {| Chat.messages := []; Chat.input := js "Hi";
               Chat.isLoading := false |} in
  Chat.messages
    (finalState
       (run (Chat.handleSend (js "Law") None)
          (fun _ => Some {| ok := true; json := Some (VObj []) |}) st))
  = [ {| Chat.role := Chat.user; Chat.content := js "Hi" |};
      {| Chat.role := Chat.assistant; Chat.content := [] |} ].
Proof.
  intro st.
  refine (proj1 (@handleSend_missing_response_field
    (fun _ => Some {| ok := true; json := Some (VObj []) |}) (js "Law") None st
    (VObj []) VUndefined _ _ _ _)); solve [discriminate | reflexivity].
Defined.

(** X14.  The mount effect of the chat leaves a conversation that is
    never empty: a conversation with messages is not touched, an empty one
    receives the greeting for the domain, running the effect again changes
    nothing, and the effect raises nothing.  After [handleClearChat] the
    effect therefore restores the greeting. *)
Theorem welcome_effect_invariant (srv : Server) (domain : jsstring)
    (st : Chat.State) :
  let st' := finalState (run (Chat.welcomeEffect domain) srv st) in
  Chat.messages st' <> [] /\
  (Chat.messages st <> [] -> st' = st) /\
  (Chat.messages st = [] -> Chat.messages st' = [Chat.welcomeMessage domain]) /\
  finalState (run (Chat.welcomeEffect domain) srv st') = st' /\
  finalTrace (run (Chat.welcomeEffect domain) srv st) = [] /\
  Chat.messages
    (finalState
       (run (Chat.welcomeEffect domain) srv
          (finalState (run Chat.handleClearChat srv st))))
  = [Chat.welcomeMessage domain].
Proof.
  unfold Chat.welcomeEffect, Chat.handleClearChat, Chat.setMessages.
  run_handler.
  destruct st as [ms i l]. simpl.
  destruct ms as [|m ms]; simpl; repeat split; congruence.
Qed.


Lemma welcome_effect_invariant_witness :
  let st := {| Chat.messages := []; Chat.input := js "Hi";
               Chat.isLoading := false |} in
  Chat.messages (finalState (run (Chat.welcomeEffect (js "Law")) (fun _ => None) st))
  = [Chat.welcomeMessage (js "Law")].
Proof.
  intro st.
  apply (proj1 (proj2 (proj2
    (@welcome_effect_invariant (fun _ => None) (js "Law") st)))).
  reflexivity.
Defined.


(** ** Salary insights *)

Lemma fetchInsights_run (srv : Server) (st : SalaryInsights.State) :
  run SalaryInsights.fetchInsights srv st
  = (inr tt,
     match (let? data := received srv SalaryInsights.salaryInsights
                           "Failed to fetch salary insights" in
            SalaryInsights.cleanData data) with
     | inr d =>
         ({| SalaryInsights.isLoading := false;
             SalaryInsights.insights := Some d |},
          [Fetched SalaryInsights.salaryInsights])
     | inl e =>
         ({| SalaryInsights.isLoading := false;
             SalaryInsights.insights := None |},
          [Fetched SalaryInsights.salaryInsights; ConsoleError e;
           Toasted SalaryInsights.failedToast])
     end).
Proof.
  unfold SalaryInsights.fetchInsights.
  unfold SalaryInsights.setIsLoading, SalaryInsights.setInsights. run_handler.
  destruct (srv _) as [resp|]; simpl; [|reflexivity].
  destruct (ok resp); simpl; [|reflexivity].
  destruct (json resp) as [data|]; simpl; [|reflexivity].
  destruct (SalaryInsights.cleanData data) as [e|d]; reflexivity.
Qed.









Lemma salary_cleanItem_cases (v : value) :
  SalaryInsights.cleanItem v = inl TypeError \/
  exists s, SalaryInsights.cleanItem v = inr s /\
            Forall (fun c => c <> STAR /\ c <> UNDERSCORE) s /\ trimmed s.
Proof.
  unfold SalaryInsights.cleanItem. destruct (negb (truthy v)).
  - right. exists []. split; [reflexivity|]. split; [constructor | now split].
  - destruct v; try (now left). right. eexists. split; [reflexivity|]. split.
    + apply Forall_not_emphasis, cleanText_salary_clean.
    + apply cleanText_salary_trimmed.
Qed.

Lemma salary_cleanItems_cases (items : list value) :
  SalaryInsights.cleanItems items = inl TypeError \/
  exists l, SalaryInsights.cleanItems items = inr l /\
            List.length l = List.length items /\
            Forall (fun s => Forall (fun c => c <> STAR /\ c <> UNDERSCORE) s
                             /\ trimmed s) l.
Proof.
  induction items as [|v items IH]; simpl.
  - right. exists []. now repeat split.
  - destruct (salary_cleanItem_cases v) as [-> | (s & -> & C)]; simpl;
      [now left|].
    destruct IH as [-> | (l & -> & L & F)]; simpl; [now left|].
    right. exists (s :: l). split; [reflexivity|]. split.
    + simpl. now rewrite L.
    + now constructor.
Qed.

Lemma salary_mapCleanText_cases (v : value) :
  SalaryInsights.mapCleanText v = inl TypeError \/
  exists items l, v = VArr items /\ SalaryInsights.mapCleanText v = inr l /\
                  List.length l = List.length items /\
                  Forall (fun s => Forall (fun c => c <> STAR /\ c <> UNDERSCORE) s
                                   /\ trimmed s) l.
Proof.
  destruct v; try (now left). simpl.
  destruct (salary_cleanItems_cases items) as [-> | (l & -> & L & F)];
    [now left|].
  right. now exists items, l.
Qed.


(** X18.  Whenever the salary data is accepted, [factors] and
    [negotiation_tips] were arrays, the cleaned lists have as many entries
    as those arrays, and the range and every entry have no asterisk and no
    underscore and neither begin nor end with white space. *)
Theorem salary_cleanData_entries (data : value)
    (d : SalaryInsights.SalaryInsights)
    (H : SalaryInsights.cleanData data = inr d) :
  (exists fs ts,
     getProp data "factors" = inr (VArr fs) /\
     getProp data "negotiation_tips" = inr (VArr ts) /\
     List.length (SalaryInsights.factors d) = List.length fs /\
     List.length (SalaryInsights.negotiation_tips d) = List.length ts) /\
  Forall (fun s => Forall (fun c => c <> STAR /\ c <> UNDERSCORE) s /\ trimmed s)
    (SalaryInsights.estimated_range d :: SalaryInsights.factors d
     ++ SalaryInsights.negotiation_tips d).
Proof.
  unfold SalaryInsights.cleanData in H.
  destruct (getProp data "estimated_range") as [e|range]; simpl in H;
    [discriminate|].
  destruct (getProp data "factors") as [e|factors] eqn:GF; simpl in H;
    [discriminate|].
  destruct (getProp data "negotiation_tips") as [e|tips] eqn:GT; simpl in H;
    [discriminate|].
  destruct (negb (truthy range) || negb (truthy factors) || negb (truthy tips));
    [discriminate|].
  destruct (salary_cleanItem_cases range) as [E | (s & E & C)];
    rewrite E in H; simpl in H; [discriminate|].
  destruct (salary_mapCleanText_cases factors) as [E1 | (i1 & l1 & -> & E1 & L1 & F1)];
    rewrite E1 in H; simpl in H; [discriminate|].
  destruct (salary_mapCleanText_cases tips) as [E2 | (i2 & l2 & -> & E2 & L2 & F2)];
    rewrite E2 in H; simpl in H; [discriminate|].
  injection H as <-. simpl. split.
  - now exists i1, i2.
  - constructor; [exact C|]. apply Forall_app. now split.
Qed.

Lemma salary_cleanData_entries_witness :
  Forall (fun s => Forall (fun c => c <> STAR /\ c <> UNDERSCORE) s /\ trimmed s)
    (js "$90k - $110k" :: [js "Location"] ++ [js "Know your worth"]).
Proof.
  refine (proj2 (@salary_cleanData_entries
    (VObj [("estimated_range"%string, VStr (js "**$90k - $110k**"));
           ("factors"%string, VArr [VStr (js "- Location")]);
           ("negotiation_tips"%string, VArr [VStr (js "1. Know your worth")])])
    {| SalaryInsights.estimated_range := js "$90k - $110k";
       SalaryInsights.factors := [js "Location"];
       SalaryInsights.negotiation_tips := [js "Know your worth"] |} _)).
  vm_compute. reflexivity.
Defined.

(** ** The analysis view *)

(** X19.  [getScoreColor] and [getProgressColor] cut the score at the
    same thresholds: for every score the text colour and the bar colour
    belong to the same of the four bands. *)
Theorem score_and_bar_colours_agree (s : Q) :
  Analysis.scoreColorBand (Analysis.getScoreColor s)
  = Analysis.progressColorBand (Analysis.getProgressColor s) /\
  (Analysis.scoreColorBand (Analysis.getScoreColor s) <= 3)%nat.
Proof.
  rewrite scoreColorBand_spec, progressColorBand_spec. split; [reflexivity|].
  destruct (Qle_bool 85 s); [lia|].
  destruct (Qle_bool 70 s); [lia|].
  destruct (Qle_bool 50 s); lia.
Qed.

Lemma validChild_stringifies :
  forall v, Analysis.validChild v = true -> stringifies v = true.
Proof.
  fix IH 1. intros [ | | | b | q | s | items | fields]; simpl;
    try reflexivity; try discriminate.
  intro H. induction items as [|x xs IHxs]; simpl in *; [reflexivity|].
  apply andb_true_iff in H. destruct H as [Hx Hxs].
  rewrite (IH x Hx). simpl. exact (IHxs Hxs).
Qed.

Lemma toNumber_converts :
  forall v, stringifies v = true -> exists x, toNumber v = inr x.
Proof.
  fix IH 1. intros [ | | | b | q | s | items | fields]; simpl;
    try (intros _; eexists; reflexivity).
  - intro F. rewrite F.
    destruct items as [|x [|y rest]]; try (eexists; reflexivity).
    simpl in F. rewrite andb_true_r in F.
    pose proof (IH x F) as Hx. clear IH.
    destruct x; try (eexists; reflexivity); exact Hx.
  - destruct (hasKey "toString" fields); [discriminate|].
    intros _. eexists. reflexivity.
Qed.

Lemma toNumber_throws (v : value) :
  (stringifies v = false -> toNumber v = inl TypeError) /\
  (stringifies v = true -> exists x, toNumber v = inr x).
Proof.
  split; [|apply toNumber_converts].
  destruct v as [ | | | b | q | s | items | fields]; simpl;
    try discriminate.
  - now intros ->.
  - now destruct (hasKey "toString" fields).
Qed.



(** X21.  On a stored object, the badge of the "Matching Keywords"
    card throws exactly when [keyword_analysis] is missing or [null]; with
    an array of keywords it shows their number, and with an analysis
    object that has no [matching_keywords] it shows 0. *)
Theorem matchingKeywordsBadge_throws_exactly (fields : list (string * value)) :
  (Analysis.matchingKeywordsBadge (VObj fields) = inl TypeError <->
   lookup "keyword_analysis" fields = VUndefined \/
   lookup "keyword_analysis" fields = VNull) /\
  (forall keywords,
     getProp (lookup "keyword_analysis" fields) "matching_keywords"
     = inr (VArr keywords) ->
     Analysis.matchingKeywordsBadge (VObj fields)
     = inr (VNum (inject_Z (Z.of_nat (List.length keywords))))) /\
  (forall analysis,
     lookup "keyword_analysis" fields = VObj analysis ->
     lookup "matching_keywords" analysis = VUndefined ->
     Analysis.matchingKeywordsBadge (VObj fields) = inr (VNum 0%Q)).
Proof.
  unfold Analysis.matchingKeywordsBadge. simpl. split; [|split].
  - destruct (lookup "keyword_analysis" fields); simpl;
      (split; [try discriminate; auto | intros [D | D]; try discriminate D; auto]).
  - intros keywords G. rewrite G. simpl. unfold orElse. simpl.
    destruct keywords; reflexivity.
  - intros analysis -> L. simpl. now rewrite L.
Qed.


Lemma matchingKeywordsBadge_throws_exactly_witness :
  Analysis.matchingKeywordsBadge (VObj [("score"%string, VNum 72%Q)])
  = inl TypeError.
Proof.
  apply (proj1 (@matchingKeywordsBadge_throws_exactly
                  [("score"%string, VNum 72%Q)])).
  left. reflexivity.
Defined.


End HandlerOutcomes.

(** * Further properties of the normalisers *)

Section NormalizerShape.
Import JsString Regex Normalizer.
Local Open Scope nat_scope.
Local Arguments N.eqb : simpl never.
Local Arguments N.leb : simpl never.
Local Arguments Nat.sub : simpl never.
Local Arguments Nat.ltb : simpl never.

(** ** The emphasis step is a filter *)

Lemma replaceGo_emphasis_filter :
  forall s prev skip,
    forallb isEmphasis (firstn skip s) = true ->
    replaceGo emphasisRe [] prev s skip
    = filter (fun c => negb (isEmphasis c)) s.
Proof.
  induction s as [|c s IH]; intros prev skip F.
  - destruct skip; reflexivity.
  - destruct skip as [|k]; cbn [replaceGo].
    + rewrite matchAt_emphasis. simpl filter.
      destruct (isEmphasis c) eqn:E; simpl.
      * destruct s as [|d s'].
        -- reflexivity.
        -- destruct (N.eqb c d) eqn:D; simpl app.
           ++ apply IH. simpl. apply N.eqb_eq in D. subst d. now rewrite E.
           ++ now apply IH.
      * f_equal. now apply IH.
    + simpl in F. apply andb_true_iff in F. destruct F as [E F].
      simpl filter. rewrite E. simpl. now apply IH.
Qed.

Lemma replaceGo_asterisk_filter :
  forall s prev skip,
    forallb isAsterisk (firstn skip s) = true ->
    replaceGo asteriskRe [] prev s skip
    = filter (fun c => negb (isAsterisk c)) s.
Proof.
  induction s as [|c s IH]; intros prev skip F.
  - destruct skip; reflexivity.
  - destruct skip as [|k]; cbn [replaceGo].
    + rewrite matchAt_asterisk. simpl filter.
      destruct (isAsterisk c) eqn:E; simpl.
      * destruct s as [|d s'].
        -- reflexivity.
        -- destruct (N.eqb c d) eqn:D; simpl app.
           ++ apply IH. simpl. apply N.eqb_eq in D. subst d. now rewrite E.
           ++ now apply IH.
      * f_equal. now apply IH.
    + simpl in F. apply andb_true_iff in F. destruct F as [E F].
      simpl filter. rewrite E. simpl. now apply IH.
Qed.

(** X22.  The first step of the normalisers is a plain filter: the
    replacement of [**], [*], [__] and [_] deletes exactly the asterisks
    and underscores, and the chat's replacement of [**] and [*] deletes
    exactly the asterisks; every other character stays, in order. *)
Theorem emphasis_step_is_filter (s : jsstring) :
  replaceAll emphasisRe [] s = filter (fun c => negb (isEmphasis c)) s /\
  replaceAll asteriskRe [] s = filter (fun c => negb (isAsterisk c)) s.
Proof.
  split.
  - now apply replaceGo_emphasis_filter.
  - now apply replaceGo_asterisk_filter.
Qed.

(** ** Only deletions *)

Lemma Subseq_refl (a : jsstring) : Subseq a a.
Proof. induction a; now constructor. Qed.

Lemma Subseq_nil_l (b : jsstring) : Subseq [] b.
Proof. induction b; now constructor. Qed.

Lemma Subseq_trans (a b c : jsstring) : Subseq a b -> Subseq b c -> Subseq a c.
Proof.
  intros AB BC. revert a AB.
  induction BC as [|x b c BC IH|x b c BC IH]; intros a AB.
  - exact AB.
  - inversion AB; subst.
    + apply Subseq_keep. now apply IH.
    + apply Subseq_drop. now apply IH.
  - apply Subseq_drop. now apply IH.
Qed.

Lemma Subseq_app (a b a' b' : jsstring) :
  Subseq a b -> Subseq a' b' -> Subseq (a ++ a') (b ++ b').
Proof.
  intros AB. induction AB; intro A'; simpl.
  - exact A'.
  - apply Subseq_keep. now apply IHAB.
  - apply Subseq_drop. now apply IHAB.
Qed.

Lemma Subseq_length (a b : jsstring) :
  Subseq a b -> List.length a <= List.length b.
Proof. induction 1; simpl; lia. Qed.

Lemma Subseq_rev (a b : jsstring) : Subseq a b -> Subseq (rev a) (rev b).
Proof.
  induction 1; simpl.
  - constructor.
  - apply Subseq_app; [assumption | apply Subseq_refl].
  - rewrite <- (app_nil_r (rev a)).
    apply Subseq_app; [assumption | apply Subseq_nil_l].
Qed.

Lemma Subseq_nil_inv (a : jsstring) : Subseq a [] -> a = [].
Proof. now inversion 1. Qed.

Lemma dropWhile_Subseq (p : char -> bool) (s : jsstring) :
  Subseq (dropWhile p s) s.
Proof.
  induction s as [|c s IH]; simpl; [constructor|].
  destruct (p c); [now apply Subseq_drop | apply Subseq_refl].
Qed.

Lemma trim_Subseq (s : jsstring) : Subseq (trim s) s.
Proof.
  unfold trim.
  apply Subseq_trans with (b := dropWhile isSpace s);
    [|apply dropWhile_Subseq].
  rewrite <- (rev_involutive (dropWhile isSpace s)) at 2.
  apply Subseq_rev, dropWhile_Subseq.
Qed.

(** A replacement that is contained in every match keeps the result
    inside the subject. *)
Lemma replaceGo_Subseq (r : regex) (rep : jsstring) :
  (forall prev s n, matchAt r prev s = Some n -> Subseq rep (firstn n s)) ->
  forall s prev skip,
    Subseq (replaceGo r rep prev s skip) (skipn skip s).
Proof.
  intros M s. induction s as [|c s IH]; intros prev skip.
  - destruct skip; simpl; [|constructor].
    destruct (matchAt r prev []) as [n|] eqn:E; [|constructor].
    apply M in E. now destruct n.
  - destruct skip as [|k]; cbn [replaceGo skipn]; [|apply IH].
    destruct (matchAt r prev (c :: s)) as [[|n]|] eqn:E.
    + apply M in E. simpl in E. apply Subseq_nil_inv in E.
      pose proof (IH (Some c) 0) as I. rewrite E in *.
      simpl. now apply Subseq_keep.
    + apply M in E.
      rewrite <- (firstn_skipn (S n) (c :: s)) at 1.
      apply Subseq_app; [exact E | apply (IH (Some c) n)].
    + apply Subseq_keep. apply (IH (Some c) 0).
Qed.

Lemma replaceAll_delete_Subseq (r : regex) (s : jsstring) :
  Subseq (replaceAll r [] s) s.
Proof.
  unfold replaceAll.
  apply (@replaceGo_Subseq r [] (fun _ _ _ _ => Subseq_nil_l _) s None 0).
Qed.

Lemma rmatch_Opt_inv (a : regex) prev s k e :
  rmatch (Opt a) prev s k = Some e ->
  rmatch a prev s k = Some e \/ k prev s = Some e.
Proof.
  unfold Opt. cbn [rmatch].
  destruct (rmatch a prev s k); [now left | now right].
Qed.

Lemma rmatch_lit_inv (x : char) prev s k e :
  rmatch (lit x) prev s k = Some e ->
  exists s', s = x :: s' /\ k (Some x) s' = Some e.
Proof.
  unfold lit. intro H. apply rmatch_Chr_inv in H.
  destruct H as (c & s' & -> & E & K). apply N.eqb_eq in E. subst c.
  now exists s'.
Qed.

Lemma rmatch_newline_inv prev s k e :
  rmatch newlineRe prev s k = Some e ->
  exists u s', s = u ++ LF :: s' /\ k (Some LF) s' = Some e.
Proof.
  unfold newlineRe. rewrite rmatch_Seq. intro H.
  apply rmatch_Opt_inv in H. destruct H as [H | H].
  - apply rmatch_lit_inv in H. destruct H as (s1 & -> & H).
    apply rmatch_lit_inv in H. destruct H as (s2 & -> & H).
    now exists [CR], s2.
  - apply rmatch_lit_inv in H. destruct H as (s1 & -> & H).
    now exists [], s1.
Qed.

Lemma starLoop_newline_suffix :
  forall n prev s e,
    starLoop (rmatch newlineRe) (fun _ rest => Some rest) n prev s = Some e ->
    exists w, s = w ++ e.
Proof.
  induction n as [|n IH]; intros prev s e H; cbn [starLoop] in H.
  - injection H as <-. now exists [].
  - destruct (rmatch newlineRe prev s _) as [e'|] eqn:B.
    + injection H as ->. apply rmatch_newline_inv in B.
      destruct B as (u & s' & -> & B).
      destruct (List.length s' <? List.length (u ++ LF :: s')); [|discriminate].
      apply IH in B. destruct B as [w ->].
      exists (u ++ LF :: w). now rewrite <- app_assoc.
    + injection H as <-. now exists [].
Qed.

Lemma Subseq_LF (u x : jsstring) (a : jsstring) :
  Subseq a x -> Subseq (LF :: a) (u ++ LF :: x).
Proof.
  intro A. induction u as [|c u IH]; simpl.
  - now apply Subseq_keep.
  - now apply Subseq_drop.
Qed.

Lemma newlines3_match_inv prev s e :
  rmatch newlines3Re prev s (fun _ rest => Some rest) = Some e ->
  exists m, s = m ++ e /\ Subseq [LF; LF] m /\ 3 <= List.length m.
Proof.
  unfold newlines3Re. intro H.
  change (rmatch newlineRe prev s
            (fun p1 s1 =>
               rmatch newlineRe p1 s1
                 (fun p2 s2 =>
                    rmatch newlineRe p2 s2
                      (fun p3 s3 =>
                         starLoop (rmatch newlineRe) (fun _ rest => Some rest)
                           (List.length s3) p3 s3))) = Some e) in H.
  apply rmatch_newline_inv in H. destruct H as (u1 & s1 & -> & H).
  apply rmatch_newline_inv in H. destruct H as (u2 & s2 & -> & H).
  apply rmatch_newline_inv in H. destruct H as (u3 & s3 & -> & H).
  apply starLoop_newline_suffix in H.
  destruct H as [w ->].
  exists (u1 ++ LF :: u2 ++ LF :: u3 ++ LF :: w). split; [|split].
  - now rewrite <- !app_assoc; simpl; rewrite <- !app_assoc; simpl;
      rewrite <- !app_assoc.
  - apply Subseq_LF, Subseq_LF, Subseq_nil_l.
  - rewrite !length_app; simpl; rewrite !length_app; simpl;
      rewrite !length_app; simpl. lia.
Qed.

Lemma newlines3_replacement_inside prev s n :
  matchAt newlines3Re prev s = Some n -> Subseq [LF; LF] (firstn n s).
Proof.
  unfold matchAt.
  destruct (rmatch newlines3Re prev s _) as [e|] eqn:E; [|discriminate].
  intros [= <-]. apply newlines3_match_inv in E.
  destruct E as (m & -> & S & _). rewrite length_app.
  replace (List.length m + List.length e - List.length e) with (List.length m)
    by lia.
  rewrite firstn_app, Nat.sub_diag, firstn_all. simpl. now rewrite app_nil_r.
Qed.

(** X23.  The three normalisers only delete: each output is a
    subsequence of its input (also the chat's, whose replacement of
    newline runs by two line feeds takes them from the run it replaces),
    hence never longer than the input. *)
Theorem normalizers_only_delete (s : jsstring) :
  Subseq (InterviewPrep.cleanText s) s /\
  Subseq (SalaryInsights.cleanText s) s /\
  Subseq (Chat.cleanResponseFormatting s) s /\
  List.length (InterviewPrep.cleanText s) <= List.length s /\
  List.length (SalaryInsights.cleanText s) <= List.length s /\
  List.length (Chat.cleanResponseFormatting s) <= List.length s.
Proof.
  assert (I : Subseq (InterviewPrep.cleanText s) s).
  { unfold InterviewPrep.cleanText.
    destruct (isEmpty s); [apply Subseq_nil_l|].
    eapply Subseq_trans; [apply trim_Subseq|].
    eapply Subseq_trans; [apply replaceAll_delete_Subseq|].
    eapply Subseq_trans; apply replaceAll_delete_Subseq. }
  assert (S : Subseq (SalaryInsights.cleanText s) s).
  { unfold SalaryInsights.cleanText.
    destruct (isEmpty s); [apply Subseq_nil_l|].
    eapply Subseq_trans; [apply trim_Subseq|].
    eapply Subseq_trans; [apply replaceAll_delete_Subseq|].
    eapply Subseq_trans; [apply replaceAll_delete_Subseq|].
    eapply Subseq_trans; apply replaceAll_delete_Subseq. }
  assert (C : Subseq (Chat.cleanResponseFormatting s) s).
  { unfold Chat.cleanResponseFormatting.
    destruct (isEmpty s); [apply Subseq_nil_l|].
    eapply Subseq_trans; [apply trim_Subseq|].
    eapply Subseq_trans;
      [apply (@replaceGo_Subseq newlines3Re [LF; LF]
                newlines3_replacement_inside _ None 0)|].
    simpl skipn.
    eapply Subseq_trans; [apply replaceAll_delete_Subseq|].
    eapply Subseq_trans; apply replaceAll_delete_Subseq. }
  repeat split; try assumption; now apply Subseq_length.
Qed.

Lemma trimmed_ends (s : jsstring) :
  trimmed s ->
  (forall c t, s = c :: t -> isSpace c = false) /\
  (forall c t, s = t ++ [c] -> isSpace c = false).
Proof.
  intros [A B]. split; intros c t ->.
  - now apply dropWhile_fixed_head in A.
  - rewrite rev_app_distr in B. simpl in B. now apply dropWhile_fixed_head in B.
Qed.

(** X24.  The output of each of the three normalisers neither begins
    nor ends with a white-space character. *)
Theorem normalizer_output_has_no_outer_space (s : jsstring) :
  let ends (out : jsstring) :=
    (forall c t, out = c :: t -> isSpace c = false) /\
    (forall c t, out = t ++ [c] -> isSpace c = false) in
  ends (InterviewPrep.cleanText s) /\
  ends (SalaryInsights.cleanText s) /\
  ends (Chat.cleanResponseFormatting s).
Proof.
  intro ends. subst ends. cbv beta. split; [|split]; apply trimmed_ends.
  - apply cleanText_interview_trimmed.
  - apply cleanText_salary_trimmed.
  - unfold Chat.cleanResponseFormatting.
    destruct (isEmpty s); [now split | apply trim_trimmed].
Qed.

Lemma interview_cleanText_only_trims (t : jsstring) :
  Forall (fun c => isEmphasis c = false) t ->
  residualMarkerFree false t = true ->
  InterviewPrep.cleanText t = trim t.
Proof.
  intros F R. unfold InterviewPrep.cleanText.
  destruct (isEmpty t) eqn:E; [now rewrite (isEmpty_true t E)|].
  unfold residualMarkerFree in R.
  apply andb_true_iff in R. destruct R as [R _].
  apply andb_true_iff in R. destruct R as [RH RL].
  rewrite (replaceAll_emphasis_id F). unfold replaceAll.
  rewrite (replaceGo_noLineBegins headingRe beginsHeading [] heading_match_begins t None RH).
  now rewrite (replaceGo_noLineBegins listMarkerRe beginsListMarker [] listMarker_match_begins t None RL).
Qed.

Lemma salary_cleanText_only_trims (t : jsstring) :
  Forall (fun c => isEmphasis c = false) t ->
  residualMarkerFree true t = true ->
  SalaryInsights.cleanText t = trim t.
Proof.
  intros F R. unfold SalaryInsights.cleanText.
  destruct (isEmpty t) eqn:E; [now rewrite (isEmpty_true t E)|].
  unfold residualMarkerFree in R.
  apply andb_true_iff in R. destruct R as [R RQ].
  apply andb_true_iff in R. destruct R as [RH RL].
  rewrite (replaceAll_emphasis_id F). unfold replaceAll.
  rewrite (replaceGo_noLineBegins headingRe beginsHeading [] heading_match_begins t None RH).
  rewrite (replaceGo_noLineBegins listMarkerRe beginsListMarker [] listMarker_match_begins t None RL).
  now rewrite (replaceGo_noLineBegins blockquoteRe beginsBlockquote [] blockquote_match_begins t None RQ).
Qed.

Lemma forallb_forall_bool (p : char -> bool) (s : jsstring) :
  forallb (fun c => negb (p c)) s = true -> Forall (fun c => p c = false) s.
Proof.
  intro H. apply Forall_forall. intros c I.
  rewrite forallb_forall in H. apply negb_true_iff. now apply H.
Qed.

(** X25.  On a text without asterisks and underscores in which no
    line begins with a marker that the version removes (a heading or list
    marker for the interview version, these or a block-quote marker for
    the salary version), [cleanText] is just [trim]. *)
Theorem cleanText_without_markup_only_trims (t : jsstring)
    (F : Forall (fun c => c <> STAR /\ c <> UNDERSCORE) t) :
  (residualMarkerFree false t = true -> InterviewPrep.cleanText t = trim t) /\
  (residualMarkerFree true t = true -> SalaryInsights.cleanText t = trim t).
Proof.
  apply Forall_not_emphasis in F. split; intro R.
  - now apply interview_cleanText_only_trims.
  - now apply salary_cleanText_only_trims.
Qed.

Lemma cleanText_without_markup_only_trims_witness :
  InterviewPrep.cleanText (js "  Tell me about a time you led a team.  " ++ [LF])
  = js "Tell me about a time you led a team.".
Proof.
  assert (F : Forall (fun c => c <> STAR /\ c <> UNDERSCORE)
                (js "  Tell me about a time you led a team.  " ++ [LF])).
  { apply Forall_not_emphasis, forallb_forall_bool. reflexivity. }
  rewrite (proj1 (cleanText_without_markup_only_trims F)); reflexivity.
Defined.

(** ** Paragraph mode *)

Lemma splitGo_Forall (P : char -> Prop) (r : regex) :
  forall s prev skip cur,
    Forall P s -> Forall P cur ->
    Forall (Forall P) (splitGo r prev s skip cur).
Proof.
  induction s as [|c s IH]; intros prev skip cur Fs Fc; cbn [splitGo].
  - constructor; [now apply Forall_rev | constructor].
  - inversion Fs as [|? ? Pc Fs']; subst.
    destruct skip as [|k]; [|now apply IH].
    destruct (matchAt r prev (c :: s)) as [[|n]|].
    + destruct cur as [|d cur].
      * apply IH; [assumption | now constructor].
      * constructor; [now apply Forall_rev|].
        apply IH; [assumption | now constructor].
    + constructor; [now apply Forall_rev | now apply IH].
    + apply IH; [assumption | now constructor].
Qed.

Lemma split_Forall (P : char -> Prop) (r : regex) (s : jsstring) :
  Forall P s -> Forall (Forall P) (split r s).
Proof.
  intro F. unfold split. destruct s as [|c s].
  - destruct (matchAt r None []); repeat constructor.
  - now apply splitGo_Forall.
Qed.

Lemma replaceGo_emitted_rep (P : char -> Prop) (r : regex) (rep : jsstring) :
  (forall prev c s, matchAt r prev (c :: s) = None -> P c) ->
  neverEmpty r ->
  Forall P rep ->
  forall s prev skip, Forall P (replaceGo r rep prev s skip).
Proof.
  intros N E R s. induction s as [|c s IH]; intros prev skip; simpl.
  - destruct skip; [destruct (matchAt r prev [])|]; auto.
  - destruct skip as [|n]; [|apply IH].
    destruct (matchAt r prev (c :: s)) as [[|n]|] eqn:M.
    + now apply E in M.
    + apply Forall_app. split; [exact R | apply IH].
    + constructor; [eapply N; eassumption | apply IH].
Qed.

Lemma newline_neverEmpty : neverEmpty newlineRe.
Proof.
  intros prev s. unfold matchAt.
  destruct (rmatch newlineRe prev s _) as [e|] eqn:E; [|discriminate].
  apply rmatch_newline_inv in E. destruct E as (u & s' & -> & [= <-]).
  rewrite length_app. simpl. intros [= H]. lia.
Qed.

Lemma newline_none prev (c : char) (s : jsstring) :
  matchAt newlineRe prev (c :: s) = None -> c <> LF.
Proof.
  intros M ->. now rewrite matchAt_newline_LF in M.
Qed.

Lemma paragraphs_clean (text : jsstring) :
  Forall (Forall (fun c => isEmphasis c = false)) (CoverLetter.paragraphs text).
Proof.
  unfold CoverLetter.paragraphs.
  apply Forall_forall. intros p I. apply filter_In in I. destruct I as [I _].
  revert p I. apply Forall_forall. apply split_Forall, trim_Forall.
  unfold replaceAll.
  apply replaceGo_emitted; [exact emphasis_none | exact emphasis_neverEmpty].
Qed.

Lemma lineBreak_chars :
  Forall (fun c => c <> LF /\ c <> STAR /\ c <> UNDERSCORE) CoverLetter.lineBreak.
Proof. repeat constructor; discriminate. Qed.

Lemma wrapper_chars :
  Forall (fun c => c <> LF /\ c <> STAR /\ c <> UNDERSCORE) CoverLetter.paragraphOpen /\
  Forall (fun c => c <> LF /\ c <> STAR /\ c <> UNDERSCORE) CoverLetter.paragraphClose.
Proof. split; repeat constructor; discriminate. Qed.

Lemma paragraphContents_chars (text : jsstring) :
  Forall (Forall (fun c => c <> LF /\ c <> STAR /\ c <> UNDERSCORE))
    (CoverLetter.paragraphContents text).
Proof.
  unfold CoverLetter.paragraphContents.
  apply Forall_forall. intros content I. apply in_map_iff in I.
  destruct I as (p & <- & I).
  pose proof (paragraphs_clean text) as C. rewrite Forall_forall in C.
  specialize (C p I). unfold replaceAll.
  assert (A : Forall (fun c => c <> LF)
                (replaceGo newlineRe CoverLetter.lineBreak None p 0)).
  { apply replaceGo_emitted_rep;
      [exact newline_none | exact newline_neverEmpty |].
    eapply Forall_impl; [|exact lineBreak_chars]. now intros c [? _]. }
  assert (B : Forall (fun c => c <> STAR /\ c <> UNDERSCORE)
                (replaceGo newlineRe CoverLetter.lineBreak None p 0)).
  { apply replaceGo_Forall.
    - eapply Forall_impl; [|exact lineBreak_chars]. now intros c [_ ?].
    - now apply Forall_not_emphasis. }
  rewrite Forall_forall in *. intros c Ic. split; [now apply A | now apply B].
Qed.

(** X26.  Whatever the text, the HTML that [textToHtmlParagraphs]
    produces contains no line feed, no asterisk and no underscore, and
    neither does the content of any of its paragraphs. *)
Theorem html_has_no_line_feed_or_emphasis (text : jsstring) :
  Forall (Forall (fun c => c <> LF /\ c <> STAR /\ c <> UNDERSCORE))
    (CoverLetter.paragraphContents text) /\
  Forall (fun c => c <> LF /\ c <> STAR /\ c <> UNDERSCORE)
    (CoverLetter.textToHtmlParagraphs text).
Proof.
  split; [apply paragraphContents_chars|].
  unfold CoverLetter.textToHtmlParagraphs.
  destruct (isEmpty text); [constructor|].
  generalize (paragraphContents_chars text).
  generalize (CoverLetter.paragraphContents text). intros l C.
  induction C as [|content rest Hc C IH]; cbn [List.concat List.map];
    [constructor|].
  destruct wrapper_chars as [O Cl].
  apply Forall_app. split; [|exact IH].
  apply Forall_app. split; [exact O|].
  apply Forall_app. now split.
Qed.

Lemma trim_all_space (s : jsstring) :
  Forall (fun c => isSpace c = true) s -> trim s = [].
Proof.
  intro F. unfold trim.
  assert (D : dropWhile isSpace s = []).
  { induction F as [|c s Pc F IH]; simpl; [reflexivity | now rewrite Pc]. }
  now rewrite D.
Qed.

(** The one piece of a text that is blank once its emphasis markers are
    removed is dropped. *)
Lemma paragraphs_of_blank (text : jsstring) :
  Forall (fun c => isSpace c = true \/ c = STAR \/ c = UNDERSCORE) text ->
  CoverLetter.paragraphs text = [].
Proof.
  intro H.
  assert (T : trim (replaceAll emphasisRe [] text) = []).
  { apply trim_all_space. unfold replaceAll.
    rewrite replaceGo_emphasis_filter by reflexivity.
    apply Forall_forall. intros c I. apply filter_In in I.
    destruct I as [I E]. rewrite Forall_forall in H.
    destruct (H c I) as [S | [-> | ->]]; [exact S | discriminate | discriminate]. }
  unfold CoverLetter.paragraphs. now rewrite T.
Qed.

(** X27.  A cover letter made only of white space, asterisks and
    underscores has no paragraph: [textToHtmlParagraphs] gives the empty
    string. *)
Theorem blank_text_renders_nothing (text : jsstring)
    (H : Forall (fun c => isSpace c = true \/ c = STAR \/ c = UNDERSCORE) text) :
  CoverLetter.paragraphs text = [] /\
  CoverLetter.textToHtmlParagraphs text = [].
Proof.
  pose proof (paragraphs_of_blank H) as P.
  split; [exact P|].
  unfold CoverLetter.textToHtmlParagraphs, CoverLetter.paragraphContents.
  rewrite P. now destruct (isEmpty text).
Qed.

Lemma blank_text_renders_nothing_witness :
  CoverLetter.textToHtmlParagraphs (js " ** __ " ++ [LF; LF]) = [].
Proof.
  apply blank_text_renders_nothing.
  repeat (constructor;
          [first [left; reflexivity
                 | right; left; reflexivity
                 | right; right; reflexivity]|]).
  constructor.
Defined.

(** ** What the steps do to one line *)

(** Decides a fact about character classes by arithmetic on the code
    unit. *)
Ltac char_class :=
  unfold isListChar, isBlank, isSpace, isDigit, isLineTerminator, isEmphasis,
    isAsterisk, isBreak, MINUS, PLUS, DOT, HASH, GT, STAR, UNDERSCORE, LF, CR
    in *;
  repeat match goal with
         | H : _ = false |- _ => apply not_true_iff_false in H
         | |- _ = false => apply not_true_iff_false; intro
         end;
  rewrite ?negb_true_iff, ?orb_true_iff, ?andb_true_iff, ?negb_true_iff,
    ?N.eqb_eq, ?N.eqb_neq, ?N.leb_le in *;
  repeat match goal with
         | H : ~ _ |- _ =>
             rewrite ?negb_true_iff, ?orb_true_iff, ?andb_true_iff,
               ?N.eqb_eq, ?N.leb_le in H
         end;
  lia.

Lemma listChar_facts (c : char) :
  isListChar c = true ->
  isSpace c = false /\ isEmphasis c = false /\ isLineTerminator c = false /\
  N.eqb HASH c = false /\ N.eqb c HASH = false /\ isAsterisk c = false.
Proof. intro H. repeat split; char_class. Qed.

Lemma blank_facts (c : char) :
  isBlank c = true ->
  isSpace c = true /\ isEmphasis c = false /\ isLineTerminator c = false /\
  isListChar c = false /\ N.eqb DOT c = false /\ N.eqb HASH c = false /\
  isAsterisk c = false.
Proof.
  intro H. unfold isBlank in H. apply andb_true_iff in H.
  destruct H as [S L]. apply negb_true_iff in L.
  split; [exact S|]. split; [|split; [exact L|]]; [char_class|].
  repeat split; char_class.
Qed.

Lemma rmatch_Bol (prev : option char) s k :
  rmatch Bol prev s k = if lineStart prev then k prev s else None.
Proof. reflexivity. Qed.

Lemma rmatch_Chr_cons (p : char -> bool) prev c s k :
  rmatch (Chr p) prev (c :: s) k = if p c then k (Some c) s else None.
Proof. reflexivity. Qed.

Lemma rmatch_Opt (a : regex) prev s k :
  rmatch (Opt a) prev s k
  = match rmatch a prev s k with Some e => Some e | None => k prev s end.
Proof. reflexivity. Qed.

Lemma starLoop_Chr_greedy (p : char -> bool) (k : cont) :
  forall w n prev s' e,
    forallb p w = true ->
    match s' with c :: _ => p c = false | [] => True end ->
    List.length w <= n ->
    k (prevAfter prev w) s' = Some e ->
    starLoop (rmatch (Chr p)) k n prev (w ++ s') = Some e.
Proof.
  induction w as [|c w IH]; intros n prev s' e F H L K.
  - cbn [app]. destruct n as [|n]; cbn [starLoop]; [exact K|].
    destruct s' as [|d s']; [exact K|]. rewrite rmatch_Chr_cons. now rewrite H.
  - simpl in F. apply andb_true_iff in F. destruct F as [Pc F].
    destruct n as [|n]; [simpl in L; lia|].
    cbn [starLoop app]. rewrite rmatch_Chr_cons, Pc.
    assert (T : (List.length (w ++ s') <? List.length (c :: w ++ s')) = true)
      by (apply Nat.ltb_lt; simpl; lia).
    rewrite T. rewrite (IH n (Some c) s' e F H); [reflexivity | simpl in L; lia |].
    exact K.
Qed.

Lemma prevAfter_Some (P : char -> Prop) (l : jsstring) :
  forall c, Forall P (c :: l) -> exists p, prevAfter (Some c) l = Some p /\ P p.
Proof.
  induction l as [|d l IH]; intros c F.
  - exists c. split; [reflexivity | now inversion F].
  - inversion F; subst. now apply (IH d).
Qed.

Lemma noLineBegins_inside (bad : jsstring -> bool) (a : jsstring) :
  forall p, isLineTerminator p = false -> singleLine a = true ->
            noLineBegins bad (Some p) a = true.
Proof.
  induction a as [|c a IH]; intros p L S; simpl; rewrite L; [reflexivity|].
  simpl in S. apply andb_true_iff in S. destruct S as [C S].
  apply negb_true_iff in C. now apply IH.
Qed.

Lemma noLineBegins_single (bad : jsstring -> bool) (a : jsstring) :
  singleLine a = true -> bad a = false -> noLineBegins bad None a = true.
Proof.
  intros S B. destruct a as [|c a]; simpl; rewrite B; [reflexivity|].
  simpl in S. apply andb_true_iff in S. destruct S as [C S].
  apply negb_true_iff in C. now apply noLineBegins_inside.
Qed.

Section LineStep.
Variable r : regex.
Variable bad : jsstring -> bool.
Hypothesis begins :
  forall prev s, matchAt r prev s <> None -> lineStart prev = true /\ bad s = true.

Lemma line_step_inside (a : jsstring) (p : char) :
  isLineTerminator p = false -> singleLine a = true ->
  replaceGo r [] (Some p) a 0 = a.
Proof.
  intros L S.
  apply (replaceGo_noLineBegins r bad [] begins).
  now apply noLineBegins_inside.
Qed.

Lemma line_step_id (a : jsstring) :
  singleLine a = true -> bad a = false -> replaceAll r [] a = a.
Proof.
  intros S B. unfold replaceAll.
  apply (replaceGo_noLineBegins r bad [] begins).
  now apply noLineBegins_single.
Qed.

(** A match of the whole marker [m] at the beginning removes it. *)
Lemma line_step_strip (m a : jsstring) :
  m <> [] ->
  Forall (fun c => isLineTerminator c = false) m ->
  singleLine a = true ->
  matchAt r None (m ++ a) = Some (List.length m) ->
  replaceAll r [] (m ++ a) = a.
Proof.
  intros N F S M. unfold replaceAll.
  destruct m as [|c m]; [congruence|].
  cbn [app replaceGo]. change (c :: m ++ a) with ((c :: m) ++ a). rewrite M.
  cbn [List.length app]. rewrite replaceGo_skip.
  destruct (prevAfter_Some F) as (p & -> & L).
  now apply line_step_inside.
Qed.

End LineStep.

Lemma blanks_spaces (blanks : jsstring) :
  forallb isBlank blanks = true -> forallb isSpace blanks = true.
Proof.
  intro F. apply forallb_forall. intros c I.
  rewrite forallb_forall in F. now apply blank_facts, F.
Qed.

Lemma textLine_inv (a : jsstring) :
  textLine a = true ->
  singleLine a = true /\
  Forall (fun c => isEmphasis c = false) a /\
  trimmed a /\
  exists c a', a = c :: a' /\ isSpace c = false.
Proof.
  unfold textLine. rewrite !andb_true_iff. intros [[[S E] H] T].
  destruct a as [|c a']; [discriminate|].
  destruct (rev (c :: a')) as [|d r] eqn:R; [discriminate|].
  apply negb_true_iff in H. apply negb_true_iff in T.
  split; [exact S|]. split; [now apply forallb_forall_bool|].
  split; [|now exists c, a'].
  split; [now apply dropWhile_head_false|].
  rewrite R. now apply dropWhile_head_false.
Qed.

(** The list-marker pattern at a line start: a run [w] of hyphens, plus
    signs and digits, a full stop or not, and the blanks after it. *)
Lemma listMarker_matches (w blanks a : jsstring) (dotted : bool) :
  w <> [] ->
  forallb isListChar w = true ->
  forallb isBlank blanks = true ->
  (dotted = false -> blanks <> []) ->
  (exists c a', a = c :: a' /\ isSpace c = false) ->
  matchAt listMarkerRe None
    ((w ++ (if dotted then [DOT] else []) ++ blanks) ++ a)
  = Some (List.length (w ++ (if dotted then [DOT] else []) ++ blanks)).
Proof.
  intros N W B D (c & a' & -> & C).
  set (m := w ++ (if dotted then [DOT] else []) ++ blanks).
  assert (R : rmatch listMarkerRe None (m ++ c :: a') (fun _ rest => Some rest)
              = Some (c :: a')).
  { subst m. destruct w as [|w0 w]; [congruence|].
    simpl in W. apply andb_true_iff in W. destruct W as [W0 W].
    rewrite <- !app_assoc. cbn [app].
    set (tail := (if dotted then [DOT] else []) ++ blanks ++ c :: a').
    unfold listMarkerRe, Plus, ws.
    rewrite rmatch_Seq, rmatch_Bol. cbn [lineStart]. rewrite !rmatch_Seq.
    rewrite rmatch_Star.
    change (w0 :: w ++ tail) with ([] ++ w0 :: w ++ tail) at 2.
    apply (@starLoop_Chr_greedy isSpace _ [] _ None (w0 :: w ++ tail));
      [reflexivity | now apply listChar_facts | simpl; lia |].
    cbv beta. cbn [prevAfter fold_left]. rewrite !rmatch_Seq.
    rewrite rmatch_Chr_cons, W0. rewrite rmatch_Star.
    apply (@starLoop_Chr_greedy isListChar _ w _ (Some w0) tail);
      [exact W | | rewrite length_app; lia |].
    { subst tail. destruct dotted; [reflexivity|].
      destruct blanks as [|b blanks]; [now destruct D|]. simpl.
      simpl in B. apply andb_true_iff in B. now apply blank_facts. }
    subst tail.
    cbv beta. rewrite rmatch_Opt.
    assert (S : forall p,
               rmatch (Star (Chr isSpace)) p (blanks ++ c :: a')
                 (fun _ rest => Some rest) = Some (c :: a')).
    { intro p. rewrite rmatch_Star.
      apply (@starLoop_Chr_greedy isSpace _ blanks _ p (c :: a'));
        [now apply blanks_spaces | exact C | rewrite length_app; lia | reflexivity]. }
    destruct dotted; cbn [app].
    - unfold lit. rewrite rmatch_Chr_cons. change (N.eqb DOT DOT) with true.
      cbv iota. now rewrite S.
    - destruct blanks as [|b blanks]; [now destruct D|].
      simpl in B. apply andb_true_iff in B. destruct B as [B0 B].
      unfold lit. cbn [app]. rewrite rmatch_Chr_cons.
      destruct (blank_facts b B0) as (_ & _ & _ & _ & -> & _).
      apply (S (prevAfter (Some w0) w)). }
  unfold matchAt. rewrite R. f_equal. rewrite length_app. lia.
Qed.

Lemma forallb_repeat_hash (k : nat) : forallb (N.eqb HASH) (repeat HASH k) = true.
Proof. induction k; simpl; [reflexivity | exact IHk]. Qed.

(** The heading pattern at a line start: a run of hashes and the blanks
    after it. *)
Lemma heading_matches (k : nat) (blanks a : jsstring) :
  forallb isBlank blanks = true ->
  (exists c a', a = c :: a' /\ isSpace c = false /\
                (blanks = [] -> c <> HASH)) ->
  matchAt headingRe None ((repeat HASH (S k) ++ blanks) ++ a)
  = Some (List.length (repeat HASH (S k) ++ blanks)).
Proof.
  intros B (c & a' & -> & C & H).
  assert (R : rmatch headingRe None ((repeat HASH (S k) ++ blanks) ++ c :: a')
                (fun _ rest => Some rest) = Some (c :: a')).
  { unfold headingRe, Plus, ws, lit.
    rewrite rmatch_Seq, rmatch_Bol. cbn [lineStart]. rewrite !rmatch_Seq.
    rewrite <- app_assoc. cbn [repeat app].
    rewrite rmatch_Chr_cons. change (N.eqb HASH HASH) with true. cbv iota.
    rewrite rmatch_Star.
    apply (@starLoop_Chr_greedy (N.eqb HASH) _ (repeat HASH k) _ (Some HASH)
             (blanks ++ c :: a'));
      [apply forallb_repeat_hash | | rewrite length_app; lia |].
    { destruct blanks as [|b blanks]; simpl.
      - apply N.eqb_neq. intro E. now apply H.
      - simpl in B. apply andb_true_iff in B. now apply blank_facts. }
    cbv beta. rewrite rmatch_Star.
    apply (@starLoop_Chr_greedy isSpace _ blanks _ _ (c :: a'));
      [now apply blanks_spaces | exact C | rewrite length_app; lia | reflexivity]. }
  unfold matchAt. rewrite R. f_equal. rewrite length_app. lia.
Qed.

Lemma emphasis_step_id (s : jsstring) :
  Forall (fun c => isEmphasis c = false) s ->
  replaceAll emphasisRe [] s = s /\ replaceAll asteriskRe [] s = s.
Proof.
  intro F. unfold replaceAll.
  rewrite replaceGo_emphasis_filter, replaceGo_asterisk_filter by reflexivity.
  split; apply forallb_filter_id, forallb_forall; intros c I;
    rewrite Forall_forall in F; specialize (F c I); apply negb_true_iff.
  - exact F.
  - char_class.
Qed.

Lemma newlines3_neverStartsWith :
  neverStartsWith newlines3Re (fun c => negb (isBreak c)).
Proof.
  intros c prev s H. destruct (not_break_eqb c H) as [L C].
  unfold matchAt, newlines3Re, newlineRe, Opt, lit. cbn [rmatch].
  now rewrite L, C.
Qed.

Lemma newlines3_neverAtEnd : neverAtEnd newlines3Re.
Proof. intro prev. reflexivity. Qed.

Lemma singleLine_no_break (a : jsstring) :
  singleLine a = true -> forallb (fun c => negb (isBreak c)) a = true.
Proof.
  intro S. apply forallb_forall. intros c I.
  unfold singleLine in S. rewrite forallb_forall in S. specialize (S c I).
  apply negb_true_iff in S. apply negb_true_iff. char_class.
Qed.

Lemma contentLine_inv (a : jsstring) :
  contentLine a = true ->
  textLine a = true /\ beginsHeading a = false /\
  beginsListMarker a = false /\ beginsBlockquote a = false.
Proof.
  unfold contentLine. rewrite !andb_true_iff, !negb_true_iff. tauto.
Qed.

(** What is left of each normaliser once the text is a content line. *)
Lemma content_line_kept (a : jsstring) :
  contentLine a = true ->
  replaceAll headingRe [] a = a /\
  replaceAll listMarkerRe [] a = a /\
  replaceAll blockquoteRe [] a = a /\
  replaceAll newlines3Re [LF; LF] a = a /\
  trim a = a /\ isEmpty a = false.
Proof.
  intro A. destruct (contentLine_inv a A) as (T & H & L & Q).
  destruct (textLine_inv a T) as (S & E & Tr & (c & a' & -> & C)).
  split; [now apply (line_step_id headingRe beginsHeading heading_match_begins)|].
  split; [now apply (line_step_id listMarkerRe beginsListMarker listMarker_match_begins)|].
  split; [now apply (line_step_id blockquoteRe beginsBlockquote blockquote_match_begins)|].
  split; [|split; [now apply trimmed_trim | reflexivity]].
  unfold replaceAll.
  apply (@replaceGo_id _ _ [LF; LF] newlines3_neverStartsWith newlines3_neverAtEnd).
  now apply singleLine_no_break.
Qed.

Lemma normalizers_after_emphasis (s a : jsstring) :
  s <> [] ->
  Forall (fun c => isEmphasis c = false) s ->
  contentLine a = true ->
  replaceAll listMarkerRe [] (replaceAll headingRe [] s) = a ->
  InterviewPrep.cleanText s = a /\
  SalaryInsights.cleanText s = a /\
  Chat.cleanResponseFormatting s = a.
Proof.
  intros N E A R.
  destruct (emphasis_step_id E) as [E1 E2].
  destruct (content_line_kept a A) as (_ & _ & Q & N3 & T & _).
  unfold InterviewPrep.cleanText, SalaryInsights.cleanText,
    Chat.cleanResponseFormatting.
  rewrite (isEmpty_false N), E1, E2, R, Q, N3, T. now repeat split.
Qed.

Lemma marker_chars (w blanks : jsstring) (dotted : bool) :
  forallb isListChar w = true -> forallb isBlank blanks = true ->
  Forall (fun c => isLineTerminator c = false /\ isEmphasis c = false)
    (w ++ (if dotted then [DOT] else []) ++ blanks).
Proof.
  intros W B. rewrite forallb_forall in W, B.
  apply Forall_app. split; [|apply Forall_app; split].
  - apply Forall_forall. intros c I. split; now apply listChar_facts, W.
  - destruct dotted; repeat constructor.
  - apply Forall_forall. intros c I. split; now apply blank_facts, B.
Qed.

Lemma Forall_singleLine (m : jsstring) :
  Forall (fun c => isLineTerminator c = false) m -> singleLine m = true.
Proof.
  intro F. apply forallb_forall. intros c I. rewrite Forall_forall in F.
  apply negb_true_iff. now apply F.
Qed.

Lemma singleLine_app (m a : jsstring) :
  singleLine m = true -> singleLine a = true -> singleLine (m ++ a) = true.
Proof. unfold singleLine. intros M A. now rewrite forallb_app, M, A. Qed.

(** X28.  A single line that begins with a list marker (a run of
    digits, hyphens and plus signs, an optional dot, then blanks; at least
    one blank when there is no dot) followed by a content line is mapped by
    all three normalisers to the content line alone. *)
Theorem list_marker_line_stripped (w blanks a : jsstring) (dotted : bool)
    (W : w <> [])
    (WL : forallb isListChar w = true)
    (B : forallb isBlank blanks = true)
    (D : dotted = false -> blanks <> [])
    (A : contentLine a = true) :
  let line := (w ++ (if dotted then [DOT] else []) ++ blanks) ++ a in
  InterviewPrep.cleanText line = a /\
  SalaryInsights.cleanText line = a /\
  Chat.cleanResponseFormatting line = a.
Proof.
  intro line. subst line.
  set (m := w ++ (if dotted then [DOT] else []) ++ blanks).
  destruct (contentLine_inv a A) as (T & _).
  destruct (textLine_inv a T) as (S & E & _ & X).
  pose proof (marker_chars w _ dotted WL B) as MC. fold m in MC.
  assert (ML : Forall (fun c => isLineTerminator c = false) m)
    by (eapply Forall_impl; [|exact MC]; now intros c [? _]).
  assert (ME : Forall (fun c => isEmphasis c = false) m)
    by (eapply Forall_impl; [|exact MC]; now intros c [_ ?]).
  assert (MN : m <> []) by (subst m; destruct w; [congruence | discriminate]).
  apply normalizers_after_emphasis; [| | exact A |].
  - destruct m; [congruence | discriminate].
  - apply Forall_app. now split.
  - rewrite (line_step_id headingRe beginsHeading heading_match_begins).
    + apply (line_step_strip listMarkerRe beginsListMarker listMarker_match_begins);
        try assumption.
      now apply listMarker_matches.
    + apply singleLine_app; [now apply Forall_singleLine | exact S].
    + subst m. destruct w as [|w0 w]; [congruence|]. simpl.
      simpl in WL. apply andb_true_iff in WL. now apply listChar_facts.
Qed.

Lemma list_marker_line_stripped_witness :
  InterviewPrep.cleanText (js "12. Describe a project you led")
  = js "Describe a project you led" /\
  SalaryInsights.cleanText (js "- Years of experience")
  = js "Years of experience".
Proof.
  split.
  - apply (@list_marker_line_stripped (js "12") (js " ")
             (js "Describe a project you led") true);
      solve [discriminate | reflexivity].
  - apply (@list_marker_line_stripped (js "-") (js " ")
             (js "Years of experience") false);
      solve [discriminate | reflexivity | intros _; discriminate].
Defined.

(** X29.  A single line that begins with a heading marker (one or
    more number signs, then blanks) followed by a content line is mapped by
    all three normalisers to the content line alone. *)
Theorem heading_line_stripped (k : nat) (blanks a : jsstring)
    (B : forallb isBlank blanks = true)
    (A : contentLine a = true) :
  let line := (repeat HASH (S k) ++ blanks) ++ a in
  InterviewPrep.cleanText line = a /\
  SalaryInsights.cleanText line = a /\
  Chat.cleanResponseFormatting line = a.
Proof.
  intro line. subst line.
  set (m := repeat HASH (S k) ++ blanks).
  destruct (contentLine_inv a A) as (T & H & _).
  destruct (textLine_inv a T) as (S & E & _ & (c & a' & Ea & C)).
  assert (MC : Forall (fun c => isLineTerminator c = false /\ isEmphasis c = false) m).
  { subst m. apply Forall_app. split.
    - apply Forall_forall. intros x I. apply repeat_spec in I. now subst x.
    - rewrite forallb_forall in B. apply Forall_forall. intros x I.
      split; now apply blank_facts, B. }
  assert (ML : Forall (fun c => isLineTerminator c = false) m)
    by (eapply Forall_impl; [|exact MC]; now intros x [? _]).
  assert (ME : Forall (fun c => isEmphasis c = false) m)
    by (eapply Forall_impl; [|exact MC]; now intros x [_ ?]).
  apply normalizers_after_emphasis; [| | exact A |].
  - subst m. discriminate.
  - apply Forall_app. now split.
  - rewrite (line_step_strip headingRe beginsHeading heading_match_begins);
      try assumption.
    + now apply content_line_kept.
    + subst m. discriminate.
    + apply heading_matches; [exact B|].
      exists c, a'. repeat split; try assumption.
      intros _ ->. subst a. discriminate.
Qed.

Lemma heading_line_stripped_witness :
  Chat.cleanResponseFormatting (js "## Career roadmap") = js "Career roadmap".
Proof.
  apply (proj2 (proj2 (@heading_line_stripped 1 (js " ") (js "Career roadmap")
                         eq_refl eq_refl))).
Defined.

(** X30.  When the text without its asterisks and underscores is a
    content line, both versions of [cleanText] return exactly that, and so
    does the chat's normaliser on a text without underscores: inline
    emphasis is removed and nothing else changes. *)
Theorem inline_emphasis_removed (t : jsstring)
    (A : contentLine (filter (fun c => negb (isEmphasis c)) t) = true) :
  InterviewPrep.cleanText t = filter (fun c => negb (isEmphasis c)) t /\
  SalaryInsights.cleanText t = filter (fun c => negb (isEmphasis c)) t /\
  (Forall (fun c => c <> UNDERSCORE) t ->
   Chat.cleanResponseFormatting t = filter (fun c => negb (isEmphasis c)) t).
Proof.
  set (a := filter (fun c => negb (isEmphasis c)) t) in *.
  destruct (content_line_kept a A) as (H & L & Q & N3 & T & NE).
  assert (N : isEmpty t = false).
  { destruct t; [subst a; discriminate | reflexivity]. }
  assert (E : replaceAll emphasisRe [] t = a)
    by (unfold replaceAll; now rewrite replaceGo_emphasis_filter).
  unfold InterviewPrep.cleanText, SalaryInsights.cleanText,
    Chat.cleanResponseFormatting.
  rewrite N, E, H, L, Q, T. split; [reflexivity|]. split; [reflexivity|].
  intro U.
  assert (E' : replaceAll asteriskRe [] t = a).
  { unfold replaceAll. rewrite replaceGo_asterisk_filter by reflexivity.
    subst a. apply filter_ext_in. intros c I.
    rewrite Forall_forall in U. specialize (U c I).
    f_equal. unfold isEmphasis, isAsterisk.
    apply N.eqb_neq in U. now rewrite U, orb_false_r. }
  now rewrite E', H, L, N3, T.
Qed.

Lemma inline_emphasis_removed_witness :
  InterviewPrep.cleanText (js "Tell me about a **time** you _led_ a team")
  = js "Tell me about a time you led a team".
Proof.
  apply (proj1 (@inline_emphasis_removed
                  (js "Tell me about a **time** you _led_ a team") eq_refl)).
Defined.
End NormalizerShape.

(** ** Paragraph mode on whole letters *)

Section ParagraphMode.
Import JsString Regex Normalizer CoverLetter.
Local Open Scope nat_scope.
Local Arguments N.eqb : simpl never.
Local Arguments N.leb : simpl never.
Local Arguments Nat.sub : simpl never.
Local Arguments Nat.ltb : simpl never.

Lemma prevAfter_app (prev : option char) (a b : jsstring) :
  prevAfter prev (a ++ b) = prevAfter (prevAfter prev a) b.
Proof. unfold prevAfter. apply fold_left_app. Qed.

(** The white space of a separator is read to its last line feed. *)
Lemma spaces_to_last_LF (x : char) (b : jsstring) :
  isSpace x = false ->
  forall w fuel prev,
    forallb isSpace w = true ->
    List.length w <= fuel ->
    starLoop (rmatch (Chr isSpace))
      (fun p s' => rmatch newlineRe p s' (fun _ rest => Some rest)) fuel prev
      (w ++ LF :: x :: b) = Some (x :: b).
Proof.
  intros X w. induction w as [|c w IH]; intros fuel prev W Le.
  - cbn [app]. destruct fuel as [|fuel]; cbn [starLoop].
    + apply afterSpaces_LF.
    + cbn [rmatch]. change (isSpace LF) with true. cbv iota.
      destruct (List.length (x :: b) <? List.length (LF :: x :: b));
        [rewrite (@spaces_then_text x b X) | ]; apply afterSpaces_LF.
  - destruct fuel as [|fuel]; [simpl in Le; lia|].
    simpl in W. apply andb_true_iff in W. destruct W as [C W].
    cbn [app starLoop rmatch]. rewrite C.
    assert (L : (List.length (w ++ LF :: x :: b)
                 <? List.length (c :: w ++ LF :: x :: b)) = true)
      by (apply Nat.ltb_lt; simpl; lia).
    rewrite L. rewrite IH; [reflexivity | exact W | simpl in Le; lia].
Qed.

Lemma separator_inv (sep : jsstring) :
  isSeparator sep = true ->
  exists (cr : bool) (w : jsstring),
    sep = (if cr then [CR] else []) ++ LF :: w ++ [LF] /\
    forallb isSpace w = true.
Proof.
  unfold isSeparator. intro H.
  assert (G : forall body,
             match body with
             | c :: t =>
                 N.eqb c LF && forallb isSpace t
                 && match rev t with l :: _ => N.eqb l LF | [] => false end
             | [] => false
             end = true ->
             exists w, body = LF :: w ++ [LF] /\ forallb isSpace w = true).
  { intros [|c t] B; [discriminate|].
    apply andb_true_iff in B. destruct B as [B L].
    apply andb_true_iff in B. destruct B as [C W].
    apply N.eqb_eq in C. subst c.
    destruct (rev t) as [|l r] eqn:R; [discriminate|].
    apply N.eqb_eq in L. subst l.
    assert (T : t = rev r ++ [LF]).
    { rewrite <- (rev_involutive t), R. reflexivity. }
    exists (rev r). split; [now rewrite T|].
    rewrite T, forallb_app in W. now apply andb_true_iff in W. }
  destruct sep as [|c t]; [discriminate|].
  destruct (N.eqb c CR) eqn:C.
  - apply N.eqb_eq in C. subst c.
    destruct (G t H) as (w & -> & W). now exists true, w.
  - destruct (G (c :: t) H) as (w & E & W). exists false, w. now split.
Qed.

Lemma matchAt_separator prev (sep : jsstring) (x : char) (b : jsstring) :
  isSeparator sep = true -> isSpace x = false ->
  matchAt paragraphBreakRe prev (sep ++ x :: b) = Some (List.length sep).
Proof.
  intros S X. destruct (separator_inv sep S) as (cr & w & -> & W).
  assert (E : rmatch paragraphBreakRe prev
                (((if cr then [CR] else []) ++ LF :: w ++ [LF]) ++ x :: b)
                (fun _ rest => Some rest) = Some (x :: b)).
  { assert (K : forall p,
               starLoop (rmatch (Chr isSpace))
                 (fun p s' => rmatch newlineRe p s' (fun _ rest => Some rest))
                 (List.length ((w ++ [LF]) ++ x :: b)) p
                 ((w ++ [LF]) ++ x :: b) = Some (x :: b)).
    { intro p. rewrite <- app_assoc. cbn [app].
      apply (@spaces_to_last_LF x b X); [exact W|].
      rewrite length_app. lia. }
    destruct cr; cbn [app]; unfold paragraphBreakRe, Opt, lit; cbn [rmatch].
    - change (N.eqb CR CR) with true. change (N.eqb LF LF) with true. cbv iota.
      fold newlineRe. now rewrite K.
    - change (N.eqb CR LF) with false. change (N.eqb LF LF) with true. cbv iota.
      fold newlineRe. now rewrite K. }
  unfold matchAt. rewrite E. f_equal. rewrite !length_app. simpl. lia.
Qed.

Lemma matchAt_crlf_single prev (x : char) (b : jsstring) :
  isSpace x = false ->
  matchAt paragraphBreakRe prev (CR :: LF :: x :: b) = None.
Proof.
  intro X. unfold matchAt, paragraphBreakRe, Opt, lit. cbn [rmatch].
  change (N.eqb CR CR) with true. change (N.eqb LF LF) with true.
  change (N.eqb LF CR) with false. cbv iota.
  fold newlineRe.
  change (starLoop _ _ _ _ _)
    with (starLoop (rmatch (Chr isSpace))
            (fun p s' => rmatch newlineRe p s' (fun _ rest => Some rest))
            (List.length (x :: b)) (Some LF) (x :: b)).
  now rewrite (@spaces_then_text x b X).
Qed.

(** No boundary begins inside a paragraph. *)
Lemma splitGo_lines :
  forall (ls : list (bool * jsstring)) prev rest cur,
    forallb (fun l => plainLine (snd l)) ls = true ->
    let t := List.concat (List.map (fun l => newline (fst l) ++ snd l) ls) in
    splitGo paragraphBreakRe prev (t ++ rest) 0 cur
    = splitGo paragraphBreakRe (prevAfter prev t) rest 0 (rev t ++ cur).
Proof.
  induction ls as [|[crlf l] ls IH]; intros prev rest cur P t; subst t.
  - reflexivity.
  - simpl in P. apply andb_true_iff in P. destruct P as [Pl Pls].
    destruct (plainLine_inv l Pl) as (F & _ & _ & (x & l' & E & X) & _).
    cbn [List.map List.concat fst snd].
    set (more := List.concat (List.map (fun l0 => newline (fst l0) ++ snd l0) ls)).
    assert (Line : forall p c,
               splitGo paragraphBreakRe p ((l ++ more) ++ rest) 0 c
               = splitGo paragraphBreakRe (prevAfter p (l ++ more)) rest 0
                   (rev (l ++ more) ++ c)).
    { intros p c. rewrite <- app_assoc.
      rewrite (@splitGo_prefix _ _ paragraphBreak_neverStartsWith l p _ c F).
      unfold more. rewrite (IH _ rest _ Pls). fold more.
      now rewrite prevAfter_app, rev_app_distr, <- app_assoc. }
    destruct crlf; cbn [newline app].
    + cbn [splitGo].
      assert (M1 : matchAt paragraphBreakRe prev
                     (CR :: LF :: (l ++ more) ++ rest) = None)
        by (rewrite E; now apply matchAt_crlf_single).
      rewrite M1.
      assert (M2 : matchAt paragraphBreakRe (Some CR)
                     (LF :: (l ++ more) ++ rest) = None)
        by (rewrite E; now apply matchAt_single_newline).
      rewrite M2. rewrite Line.
      cbn [rev]. rewrite <- !app_assoc. reflexivity.
    + cbn [splitGo].
      assert (M2 : matchAt paragraphBreakRe prev
                     (LF :: (l ++ more) ++ rest) = None)
        by (rewrite E; now apply matchAt_single_newline).
      rewrite M2. rewrite Line.
      cbn [rev]. rewrite <- !app_assoc. reflexivity.
Qed.

Lemma splitGo_block (b : Block) prev (rest cur : jsstring) :
  plainBlock b = true ->
  splitGo paragraphBreakRe prev (blockText b ++ rest) 0 cur
  = splitGo paragraphBreakRe (prevAfter prev (blockText b)) rest 0
      (rev (blockText b) ++ cur).
Proof.
  intro P. unfold plainBlock in P. apply andb_true_iff in P.
  destruct P as [P1 P2].
  destruct (plainLine_inv _ P1) as (F & _).
  unfold blockText. rewrite <- app_assoc.
  rewrite (@splitGo_prefix _ _ paragraphBreak_neverStartsWith _ prev _ cur F).
  rewrite (splitGo_lines _ _ rest _ P2).
  now rewrite prevAfter_app, rev_app_distr, <- app_assoc.
Qed.

Lemma blockText_head (b : Block) :
  plainBlock b = true ->
  exists x t, blockText b = x :: t /\ isSpace x = false.
Proof.
  intro P. unfold plainBlock in P. apply andb_true_iff in P.
  destruct P as [P1 _].
  destruct (plainLine_inv _ P1) as (_ & _ & _ & (x & l' & E & X) & _).
  unfold blockText. rewrite E. simpl. eauto.
Qed.

(** The pieces of a letter are its paragraphs. *)
Lemma splitGo_letter :
  forall (rest : list (jsstring * Block)) (b : Block) prev cur,
    wellFormed b rest = true ->
    splitGo paragraphBreakRe prev (letterText b rest) 0 cur
    = (rev cur ++ blockText b) :: List.map (fun p => blockText (snd p)) rest.
Proof.
  induction rest as [|[sep b'] rest IH]; intros b prev cur W;
    unfold wellFormed in W; apply andb_true_iff in W; destruct W as [Pb W].
  - unfold letterText. cbn [List.map List.concat].
    rewrite (splitGo_block b prev [] cur Pb). cbn [splitGo List.map].
    now rewrite rev_app_distr, rev_involutive.
  - cbn [forallb fst snd] in W. apply andb_true_iff in W.
    destruct W as [W1 W]. apply andb_true_iff in W1. destruct W1 as [S Pb'].
    assert (W' : wellFormed b' rest = true)
      by (unfold wellFormed; now rewrite Pb', W).
    assert (T : letterText b ((sep, b') :: rest)
                = blockText b ++ sep ++ letterText b' rest).
    { unfold letterText. cbn [List.map List.concat fst snd].
      now rewrite <- app_assoc. }
    rewrite T. rewrite (splitGo_block b prev _ cur Pb).
    destruct (blockText_head b' Pb') as (x & t & E & X).
    assert (L : exists y more, letterText b' rest = y :: more /\ isSpace y = false).
    { unfold letterText. rewrite E. simpl. eauto. }
    destruct L as (y & more & L & Y).
    pose proof (@matchAt_separator (prevAfter prev (blockText b)) sep y more S Y)
      as M.
    rewrite <- L in M.
    destruct sep as [|c sep']; [discriminate|].
    cbn [app splitGo]. cbn [app] in M. rewrite M. cbn [List.length].
    rewrite rev_app_distr, rev_involutive. f_equal.
    rewrite splitGo_skip. rewrite (IH b' _ [] W'). reflexivity.
Qed.

Lemma dropWhile_keeps_last (p : char -> bool) (l : jsstring) (x : char) :
  p x = false -> dropWhile p (l ++ [x]) <> [].
Proof.
  intro X. induction l as [|c l IH]; simpl.
  - now rewrite X.
  - destruct (p c); [exact IH | discriminate].
Qed.

Lemma head_kept (x : char) (t : jsstring) :
  isSpace x = false -> negb (isEmpty (trim (x :: t))) = true.
Proof.
  intro X. unfold trim. rewrite (@dropWhile_head_false isSpace x t X).
  cbn [rev].
  destruct (dropWhile isSpace (rev t ++ [x])) as [|c r] eqn:D.
  - now apply dropWhile_keeps_last in D.
  - destruct (rev (c :: r)) eqn:R; [|reflexivity].
    apply (f_equal (@List.length char)) in R.
    rewrite length_rev in R. discriminate.
Qed.

(** The line breaks of a paragraph become [<br>]. *)
Lemma replaceGo_lines :
  forall (ls : list (bool * jsstring)) prev,
    forallb (fun l => plainLine (snd l)) ls = true ->
    replaceGo newlineRe lineBreak prev
      (List.concat (List.map (fun l => newline (fst l) ++ snd l) ls)) 0
    = List.concat (List.map (fun l => lineBreak ++ snd l) ls).
Proof.
  induction ls as [|[crlf l] ls IH]; intros prev P.
  - cbn [List.map List.concat replaceGo]. now rewrite newline_neverAtEnd.
  - simpl in P. apply andb_true_iff in P. destruct P as [Pl Pls].
    destruct (plainLine_inv l Pl) as (F & _).
    cbn [List.map List.concat fst snd].
    set (more := List.concat (List.map (fun l0 => newline (fst l0) ++ snd l0) ls)).
    assert (Line : forall p,
               replaceGo newlineRe lineBreak p (l ++ more) 0
               = l ++ List.concat (List.map (fun l0 => lineBreak ++ snd l0) ls)).
    { intro p.
      rewrite (@replaceGo_prefix _ _ lineBreak newline_neverStartsWith l p _ F).
      unfold more. now rewrite (IH _ Pls). }
    destruct crlf; cbn [newline app].
    + cbn [replaceGo].
      assert (M : matchAt newlineRe prev (CR :: LF :: l ++ more) = Some 2).
      { unfold matchAt, newlineRe, Opt, lit. cbn [rmatch].
        change (N.eqb CR CR) with true. change (N.eqb LF LF) with true.
        cbv iota. f_equal. simpl. lia. }
      rewrite M. cbn [replaceGo]. rewrite Line. now rewrite <- app_assoc.
    + cbn [replaceGo]. rewrite matchAt_newline_LF. rewrite Line.
      now rewrite <- app_assoc.
Qed.

Lemma replaceAll_block (b : Block) :
  plainBlock b = true ->
  replaceAll newlineRe lineBreak (blockText b) = blockContent b.
Proof.
  intro P. unfold plainBlock in P. apply andb_true_iff in P.
  destruct P as [P1 P2].
  destruct (plainLine_inv _ P1) as (F & _).
  unfold replaceAll, blockText, blockContent.
  rewrite (@replaceGo_prefix _ _ lineBreak newline_neverStartsWith _ None _ F).
  now rewrite (replaceGo_lines _ _ P2).
Qed.

Lemma endsPlain_app (a b : jsstring) : endsPlain b -> endsPlain (a ++ b).
Proof.
  intros (pre & y & -> & Y). exists (a ++ pre), y.
  now rewrite app_assoc.
Qed.

Lemma plainLine_ends (l : jsstring) : plainLine l = true -> endsPlain l.
Proof.
  intro P. destruct (plainLine_inv l P) as (_ & _ & _ & _ & (y & r & R & Y)).
  exists (rev r), y. split; [|exact Y].
  rewrite <- (rev_involutive l), R. reflexivity.
Qed.

Lemma blockText_ends (b : Block) : plainBlock b = true -> endsPlain (blockText b).
Proof.
  intro P. unfold plainBlock in P. apply andb_true_iff in P.
  destruct P as [P1 P2]. unfold blockText.
  destruct b as [l ls]. cbn [fst snd] in *.
  revert l P1. induction ls as [|[crlf l'] ls IH]; intros l P1.
  - cbn [List.map List.concat]. rewrite app_nil_r. now apply plainLine_ends.
  - simpl in P2. apply andb_true_iff in P2. destruct P2 as [Pl' Pls].
    cbn [List.map List.concat fst snd].
    apply endsPlain_app. rewrite <- app_assoc. apply endsPlain_app.
    now apply IH.
Qed.

Lemma letterText_ends :
  forall (rest : list (jsstring * Block)) (b : Block),
    wellFormed b rest = true -> endsPlain (letterText b rest).
Proof.
  induction rest as [|[sep b'] rest IH]; intros b W;
    unfold wellFormed in W; apply andb_true_iff in W; destruct W as [Pb W].
  - unfold letterText. cbn [List.map List.concat]. rewrite app_nil_r.
    now apply blockText_ends.
  - cbn [forallb fst snd] in W. apply andb_true_iff in W.
    destruct W as [W1 W]. apply andb_true_iff in W1. destruct W1 as [S Pb'].
    unfold letterText. cbn [List.map List.concat fst snd].
    apply endsPlain_app. rewrite <- app_assoc. apply endsPlain_app.
    apply (IH b'). unfold wellFormed. now rewrite Pb', W.
Qed.

Lemma letterText_trimmed (b : Block) (rest : list (jsstring * Block)) :
  wellFormed b rest = true ->
  trimmed (letterText b rest) /\ letterText b rest <> [].
Proof.
  intro W.
  destruct (letterText_ends rest b W) as (pre & y & E & Y).
  assert (Pb : plainBlock b = true)
    by (unfold wellFormed in W; now apply andb_true_iff in W).
  destruct (blockText_head b Pb) as (x & t & H & X).
  assert (L : exists more, letterText b rest = x :: more)
    by (unfold letterText; rewrite H; simpl; eauto).
  destruct L as (more & L).
  split; [|rewrite L; discriminate].
  split.
  - rewrite L. now apply dropWhile_head_false.
  - rewrite E, rev_app_distr. now apply dropWhile_head_false.
Qed.

Lemma paragraphs_letter (text : jsstring) (b : Block)
    (rest : list (jsstring * Block)) :
  filter (fun c => negb (isEmphasis c)) text = letterText b rest ->
  wellFormed b rest = true ->
  paragraphs text = List.map blockText (b :: List.map snd rest).
Proof.
  intros E W. unfold paragraphs, replaceAll.
  rewrite replaceGo_emphasis_filter by reflexivity. rewrite E.
  destruct (letterText_trimmed b rest W) as [T N].
  rewrite (trimmed_trim T).
  unfold split. destruct (letterText b rest) as [|c0 t0] eqn:L; [congruence|].
  rewrite <- L. rewrite (splitGo_letter rest b None [] W).
  cbn [rev app List.map].
  assert (K : forall bs : list Block,
             forallb plainBlock bs = true ->
             filter (fun p => negb (isEmpty (trim p))) (List.map blockText bs)
             = List.map blockText bs).
  { induction bs as [|b0 bs IHbs]; intro P; [reflexivity|].
    simpl in P. apply andb_true_iff in P. destruct P as [P0 P].
    destruct (blockText_head b0 P0) as (x & t & H & X).
    cbn [List.map filter]. rewrite H, (@head_kept x t X), <- H.
    now rewrite IHbs. }
  rewrite <- (map_map snd blockText).
  change (blockText b :: List.map blockText (List.map snd rest))
    with (List.map blockText (b :: List.map snd rest)).
  apply K.
  unfold wellFormed in W. apply andb_true_iff in W. destruct W as [Pb W].
  cbn [forallb]. rewrite Pb. cbn [andb].
  rewrite forallb_forall in W. apply forallb_forall.
  intros b0 I. apply in_map_iff in I. destruct I as (p & <- & I).
  specialize (W p I). now apply andb_true_iff in W.
Qed.



End ParagraphMode.
